(** * CLIProxyAPI-Extended: the IR translation core, embedded and verified

    A shallow embedding of the parts of the translation proxy that the
    specification makes checkable statements about.

    Part I, definitions:
    - [gostr], [utf8], [unicode], [strings]: Go strings and the
      standard-library routines the code calls on them
      ([utf8.DecodeRuneInString], [utf8.AppendRune], [strings.TrimSpace]);
    - [ir]: [SanitizeText] and the IR data model
      (internal/translator_new/ir);
    - [cache]: the per-session thought-signature cache;
    - [gjson]: the view of a JSON document the parsers work with;
    - [to_ir]: [parseGeminiUsage], [ParseGeminiChunk],
      [sanitizeCodexGrepArgs];
    - [irfix]: [FixToolCallArgs] and [fixSingleArg];
    - [from_ir], [executor]: the OpenAI chunk builder and the streaming
      state machine [convertUnifiedEventsToChunks] for the OpenAI / Cline
      target;
    - [registry], [helpers], [irvalues], [wrapper], [kiro]: the code
      around the translators: provider prefixes of model ids, tool call
      ids and function names, the cleaning of decoded tool input, the
      converter of the Gemini providers, the text helpers of the Kiro
      parser;
    - [samples]: concrete inputs, among them the scenarios of the
      specification.

    Part II, properties, one module of facts per component.

    Go strings are byte sequences; they are modelled by Rocq's [string]
    (a list of 8-bit [ascii]), so that [String.length] is Go's [len].
    Functions of libraries outside the repository are either modelled
    from their source (utf8, strings) or taken as parameters, collected
    in type classes ([gjson.Text], [to_ir.Env], [irfix.GoLib]). *)

From Stdlib Require Import ZArith Lia Bool Ascii String List.
From stdpp Require Import base option list gmap strings.

Import ListNotations.

Local Open Scope Z_scope.
Local Set Warnings "-register-all".

(** ** Bytes and byte strings *)

Module gostr.

Definition byte_val (c : ascii) : Z := Z.of_N (N_of_ascii c).

(** Go's conversion [byte(x)] keeps the low eight bits. *)
Definition byte_of (z : Z) : ascii := ascii_of_N (Z.to_N (z mod 256)).

Definition len (s : string) : Z := Z.of_nat (String.length s).

(** [s[i]], read only under a length check; 0 stands for "out of range". *)
Definition at_ (s : string) (i : nat) : Z :=
  match String.get i s with
  | Some c => byte_val c
  | None => 0
  end.

(** [s[n:]] and [s[:n]]. *)
Fixpoint drop (n : nat) (s : string) : string :=
  match n, s with
  | O, _ => s
  | S n', String _ t => drop n' t
  | S _, EmptyString => EmptyString
  end.

Fixpoint take (n : nat) (s : string) : string :=
  match n, s with
  | O, _ => EmptyString
  | S n', String c t => String c (take n' t)
  | S _, EmptyString => EmptyString
  end.

Fixpoint of_bytes (l : list Z) : string :=
  match l with
  | [] => EmptyString
  | b :: t => String (byte_of b) (of_bytes t)
  end.

Definition is_empty (s : string) : bool :=
  match s with EmptyString => true | _ => false end.

Definition is_byte (b : Z) : Prop := 0 <= b < 256.

(** Every byte of [s] passes the test [f]. *)
Fixpoint all_bytes (f : Z -> bool) (s : string) : bool :=
  match s with
  | EmptyString => true
  | String c t => f (byte_val c) && all_bytes f t
  end.

(** Go's [int] and [int64] are 64-bit two's complement: the result of
    an arithmetic operation is reduced into [-2^63, 2^63). *)
Definition wrap64 (z : Z) : Z := (z + 2 ^ 63) mod 2 ^ 64 - 2 ^ 63.

End gostr.

(** ** unicode/utf8 (Go standard library) *)

Module utf8.
Import gostr.

Definition RuneError : Z := 0xFFFD.
Definition RuneSelf : Z := 0x80.
Definition MaxRune : Z := 0x10FFFF.
Definition UTFMax : Z := 4.

Definition surrogateMin : Z := 0xD800.
Definition surrogateMax : Z := 0xDFFF.

Definition t1 : Z := 0x00.
Definition tx : Z := 0x80.
Definition t2 : Z := 0xC0.
Definition t3 : Z := 0xE0.
Definition t4 : Z := 0xF0.

Definition maskx : Z := 0x3F.
Definition mask2 : Z := 0x1F.
Definition mask3 : Z := 0x0F.
Definition mask4 : Z := 0x07.

Definition rune1Max : Z := 0x7F.
Definition rune2Max : Z := 0x7FF.
Definition rune3Max : Z := 0xFFFF.

Definition locb : Z := 0x80.
Definition hicb : Z := 0xBF.

(** Entries of the table [first]: the low three bits give the size of
    the encoding, the high four bits index [acceptRanges]. *)
Definition xx : Z := 0xF1.
Definition as_ : Z := 0xF0.
Definition s1 : Z := 0x02.
Definition s2 : Z := 0x13.
Definition s3 : Z := 0x03.
Definition s4 : Z := 0x23.
Definition s5 : Z := 0x34.
Definition s6 : Z := 0x04.
Definition s7 : Z := 0x44.

Definition first (b : Z) : Z :=
  if b <? 0x80 then as_
  else if b <? 0xC2 then xx
  else if b <? 0xE0 then s1
  else if b =? 0xE0 then s2
  else if b <? 0xED then s3
  else if b =? 0xED then s4
  else if b <? 0xF0 then s3
  else if b =? 0xF0 then s5
  else if b <? 0xF4 then s6
  else if b =? 0xF4 then s7
  else xx.

Record acceptRange := { lo : Z; hi : Z }.

Definition acceptRanges (i : Z) : acceptRange :=
  if i =? 0 then {| lo := locb; hi := hicb |}
  else if i =? 1 then {| lo := 0xA0; hi := hicb |}
  else if i =? 2 then {| lo := locb; hi := 0x9F |}
  else if i =? 3 then {| lo := 0x90; hi := hicb |}
  else if i =? 4 then {| lo := locb; hi := 0x8F |}
  else {| lo := 0; hi := 0 |}.

(** The body of [DecodeRuneInString] on the length and the first four
    bytes of its argument. *)
Definition decode (n b0 b1 b2 b3 : Z) : Z * nat :=
  if n <? 1 then (RuneError, 0%nat)
  else
    let x := first b0 in
    if as_ <=? x then
      (* mask := rune(x) << 31 >> 31 is all ones exactly when bit 0 of x
         is set, that is for xx *)
      (if Z.testbit x 0 then RuneError else b0, 1%nat)
    else
      let sz := Z.land x 7 in
      let accept := acceptRanges (Z.shiftr x 4) in
      if n <? sz then (RuneError, 1%nat)
      else if (b1 <? lo accept) || (hi accept <? b1) then (RuneError, 1%nat)
      else if sz <=? 2 then
        (Z.lor (Z.shiftl (Z.land b0 mask2) 6) (Z.land b1 maskx), 2%nat)
      else if (b2 <? locb) || (hicb <? b2) then (RuneError, 1%nat)
      else if sz <=? 3 then
        (Z.lor (Z.lor (Z.shiftl (Z.land b0 mask3) 12)
                      (Z.shiftl (Z.land b1 maskx) 6))
               (Z.land b2 maskx), 3%nat)
      else if (b3 <? locb) || (hicb <? b3) then (RuneError, 1%nat)
      else
        (Z.lor (Z.lor (Z.lor (Z.shiftl (Z.land b0 mask4) 18)
                             (Z.shiftl (Z.land b1 maskx) 12))
                      (Z.shiftl (Z.land b2 maskx) 6))
               (Z.land b3 maskx), 4%nat).

Definition DecodeRuneInString (s : string) : Z * nat :=
  decode (len s) (at_ s 0) (at_ s 1) (at_ s 2) (at_ s 3).

(** [AppendRune]: the bytes appended for rune [r] (an int32). *)
Definition encode (r : Z) : list Z :=
  let i := r mod 2 ^ 32 in
  if i <=? rune1Max then [r mod 256]
  else if i <=? rune2Max then
    [Z.lor t2 (Z.shiftr r 6 mod 256); Z.lor tx (Z.land (r mod 256) maskx)]
  else
    let r3 :=
      if (MaxRune <? i) || ((surrogateMin <=? i) && (i <=? surrogateMax))
      then Some RuneError
      else if i <=? rune3Max then Some r
      else None in
    match r3 with
    | Some r =>
        [Z.lor t3 (Z.shiftr r 12 mod 256);
         Z.lor tx (Z.land (Z.shiftr r 6 mod 256) maskx);
         Z.lor tx (Z.land (r mod 256) maskx)]
    | None =>
        [Z.lor t4 (Z.shiftr r 18 mod 256);
         Z.lor tx (Z.land (Z.shiftr r 12 mod 256) maskx);
         Z.lor tx (Z.land (Z.shiftr r 6 mod 256) maskx);
         Z.lor tx (Z.land (r mod 256) maskx)]
    end.

Definition AppendRune (r : Z) : string := of_bytes (encode r).

(** [RuneStart(b)]: [b] is not a continuation byte. *)
Definition RuneStart (b : Z) : bool := negb (Z.land b 0xC0 =? 0x80).

(** [ValidString]: no position of [s] decodes to an encoding error.
    The fuel is the number of bytes left, every step consumes one. *)
Fixpoint valid_loop (fuel : nat) (s : string) : bool :=
  match fuel with
  | O => true
  | S f =>
      if is_empty s then true
      else
        let '(r, size) := DecodeRuneInString s in
        if (r =? RuneError) && Nat.eqb size 1 then false
        else valid_loop f (drop size s)
  end.

Definition ValidString (s : string) : bool := valid_loop (String.length s) s.

End utf8.

(** ** unicode and strings (Go standard library) *)

Module unicode.

Definition MaxLatin1 : Z := 0xFF.

(** [unicode.IsSpace]: the Latin-1 switch, then the [White_Space] range
    table above Latin-1. *)
Definition IsSpace (r : Z) : bool :=
  if r mod 2 ^ 32 <=? MaxLatin1 then
    (r =? 0x09) || (r =? 0x0A) || (r =? 0x0B) || (r =? 0x0C) || (r =? 0x0D)
    || (r =? 0x20) || (r =? 0x85) || (r =? 0xA0)
  else
    (r =? 0x1680) || ((0x2000 <=? r) && (r <=? 0x200A))
    || ((0x2028 <=? r) && (r <=? 0x2029))
    || (r =? 0x202F) || (r =? 0x205F) || (r =? 0x3000).

End unicode.

Module strings.
Import gostr utf8.

(** [asciiSpace]: tab, newline, vertical tab, form feed, carriage
    return and space. *)
Definition asciiSpace (c : Z) : bool :=
  (c =? 0x09) || (c =? 0x0A) || (c =? 0x0B) || (c =? 0x0C) || (c =? 0x0D)
  || (c =? 0x20).

(** [TrimLeftFunc(s, f)]: [indexFunc(s, f, false)] walks the runes of
    [s] forward and stops at the first one [f] rejects; when there is
    none the result is empty. *)
Fixpoint trim_left_loop (f : Z -> bool) (fuel : nat) (s : string) : string :=
  match fuel with
  | O => EmptyString
  | S fuel' =>
      if is_empty s then EmptyString
      else
        let '(r, size) := DecodeRuneInString s in
        if negb (f r) then s else trim_left_loop f fuel' (drop size s)
  end.

Definition TrimLeftFunc (s : string) (f : Z -> bool) : string :=
  trim_left_loop f (String.length s) s.

(** The backward scan of [DecodeLastRuneInString]:
    [for start--; start >= lim; start-- { if RuneStart(s[start]) { break } }]. *)
Fixpoint back_scan (fuel : nat) (s : string) (start lim : Z) : Z :=
  match fuel with
  | O => start
  | S fuel' =>
      if start <? lim then start
      else if RuneStart (at_ s (Z.to_nat start)) then start
      else back_scan fuel' s (start - 1) lim
  end.

Definition DecodeLastRuneInString (s : string) : Z * nat :=
  let end_ := len s in
  if end_ =? 0 then (RuneError, 0%nat)
  else
    let start := end_ - 1 in
    let r := at_ s (Z.to_nat start) in
    if r <? RuneSelf then (r, 1%nat)
    else
      let lim := Z.max 0 (end_ - UTFMax) in
      let start := back_scan (Z.to_nat UTFMax) s (start - 1) lim in
      let start := Z.max 0 start in
      let '(r, size) := DecodeRuneInString (drop (Z.to_nat start) s) in
      if negb (start + Z.of_nat size =? end_) then (RuneError, 1%nat)
      else (r, size).

(** [lastIndexFunc(s, f, false)]; [None] is Go's [-1]. *)
Fixpoint lastIndexFunc_loop (f : Z -> bool) (fuel : nat) (s : string) (i : nat)
  : option nat :=
  match fuel with
  | O => None
  | S fuel' =>
      if Nat.ltb 0 i then
        let '(r, size) := DecodeLastRuneInString (take i s) in
        let i := (i - size)%nat in
        if negb (f r) then Some i else lastIndexFunc_loop f fuel' s i
      else None
  end.

Definition TrimRightFunc (s : string) (f : Z -> bool) : string :=
  match lastIndexFunc_loop f (String.length s) s (String.length s) with
  | Some i =>
      if RuneSelf <=? at_ s i then
        let '(_, wid) := DecodeRuneInString (drop i s) in
        take (i + wid) s
      else take (i + 1) s
  | None => take 0 s
  end.

Definition TrimFunc (s : string) (f : Z -> bool) : string :=
  TrimRightFunc (TrimLeftFunc s f) f.

(** The second loop of [TrimSpace], on [s[start:]], counting [stop]
    down from its length. *)
Fixpoint TrimSpace_stop (s : string) (stop : nat) : string :=
  match stop with
  | O => take 0 s
  | S k =>
      let c := at_ s k in
      if RuneSelf <=? c then TrimRightFunc (take stop s) unicode.IsSpace
      else if asciiSpace c then TrimSpace_stop s k
      else take stop s
  end.

(** The first loop of [TrimSpace]: skip leading ASCII space, fall back
    to the rune-aware [TrimFunc] on the first non-ASCII byte. *)
Fixpoint TrimSpace (s : string) : string :=
  match s with
  | EmptyString => EmptyString
  | String c0 t =>
      let c := byte_val c0 in
      if RuneSelf <=? c then TrimFunc s unicode.IsSpace
      else if asciiSpace c then TrimSpace t
      else TrimSpace_stop s (String.length s)
  end.

Fixpoint HasPrefix (s prefix : string) : bool :=
  match prefix, s with
  | EmptyString, _ => true
  | String p ps, String c cs => Ascii.eqb p c && HasPrefix cs ps
  | String _ _, EmptyString => false
  end.

(** [HasSuffix(s, suffix)]:
    [len(s) >= len(suffix) && s[len(s)-len(suffix):] == suffix]. *)
Definition HasSuffix (s suffix : string) : bool :=
  Nat.leb (String.length suffix) (String.length s)
  && String.eqb (drop (String.length s - String.length suffix) s) suffix.

(** [Index(s, substr)]: the offset of the first instance of [substr] in
    [s]; [None] is Go's [-1].  The library dispatches on the lengths to
    byte-search routines written in assembly; what they return is the
    least offset at which [substr] is a prefix of the rest, found here
    by trying the offsets in order. *)
Fixpoint Index (s substr : string) : option nat :=
  if HasPrefix s substr then Some O
  else
    match s with
    | EmptyString => None
    | String _ t => option_map S (Index t substr)
    end.

(** [Contains(s, substr)] is [Index(s, substr) >= 0]. *)
Definition Contains (s substr : string) : bool :=
  match Index s substr with Some _ => true | None => false end.

(** The loop of [Replace] for a non-empty [old] and no limit: each
    round copies [s[start:j]] and [new], and goes on behind the instance
    found.  Every round consumes a byte at least, which bounds the
    rounds by the length. *)
Fixpoint replace_loop (fuel : nat) (s old new : string) : string :=
  match fuel with
  | O => s
  | S fuel' =>
      match Index s old with
      | None => s
      | Some j =>
          (take j s ++ new
           ++ replace_loop fuel' (drop (j + String.length old) s) old new)%string
      end
  end.

(** [ReplaceAll(s, old, new)], that is [Replace(s, old, new, -1)], for
    a non-empty [old]. *)
Definition ReplaceAll (s old new : string) : string :=
  if String.eqb old new then s
  else replace_loop (String.length s) s old new.

(** [SplitN(s, sep, 2)] for a non-empty [sep]: cut at the first
    instance, or [s] alone. *)
Definition SplitN2 (s sep : string) : list string :=
  match Index s sep with
  | Some m => [take m s; drop (m + String.length sep) s]
  | None => [s]
  end.

(** [ToLower]: a string of ASCII bytes is mapped byte by byte, and
    returned as it is when it has no upper-case letter; any other string
    goes through [Map(unicode.ToLower, s)], whose case tables are not
    modelled. *)
Class CaseTables := {
  MapToLower : string -> string
}.

Fixpoint isASCII (s : string) : bool :=
  match s with
  | EmptyString => true
  | String c t => (byte_val c <? RuneSelf) && isASCII t
  end.

Definition isUpper (c : Z) : bool := (0x41 <=? c) && (c <=? 0x5A).

Fixpoint hasUpper (s : string) : bool :=
  match s with
  | EmptyString => false
  | String c t => isUpper (byte_val c) || hasUpper t
  end.

(** [c += 'a' - 'A'] on the upper-case letters. *)
Fixpoint lower_bytes (s : string) : string :=
  match s with
  | EmptyString => EmptyString
  | String c t =>
      String (if isUpper (byte_val c) then byte_of (byte_val c + 0x20) else c)
             (lower_bytes t)
  end.

Definition ToLower `{CaseTables} (s : string) : string :=
  if isASCII s then (if negb (hasUpper s) then s else lower_bytes s)
  else MapToLower s.

(** A string that begins and ends with a byte of printable ASCII,
    0x21 to 0x7F: what identifiers are made of. *)
Definition printable (b : Z) : bool := (b <? RuneSelf) && negb (asciiSpace b).

Definition ascii_bounded (s : string) : Prop :=
  s <> EmptyString
  /\ printable (at_ s 0) = true
  /\ printable (at_ s (String.length s - 1)) = true.

End strings.

(** ** internal/translator_new/ir: text sanitisation *)

Module ir.
Import gostr utf8.

(** The test both [hasProblematicChars] and [SanitizeText] apply to a
    rune: [r == 0 || (r < 0x20 && r != '\t' && r != '\n' && r != '\r')]. *)
Definition problematic (r : Z) : bool :=
  (r =? 0) || ((r <? 0x20) && negb (r =? 0x09) && negb (r =? 0x0A) && negb (r =? 0x0D)).

(** [for _, r := range s { if problematic(r) { return true } }]. *)
Fixpoint hasProblematicChars_loop (fuel : nat) (s : string) : bool :=
  match fuel with
  | O => false
  | S fuel' =>
      if is_empty s then false
      else
        let '(r, size) := DecodeRuneInString s in
        if problematic r then true
        else hasProblematicChars_loop fuel' (drop size s)
  end.

Definition hasProblematicChars (s : string) : bool :=
  hasProblematicChars_loop (String.length s) s.

(** The loop [for i := 0; i < len(s); { ... }] of [SanitizeText], on
    the suffix [s[i:]]; the result is what the builder receives. *)
Fixpoint SanitizeText_loop (fuel : nat) (s : string) : string :=
  match fuel with
  | O => EmptyString
  | S fuel' =>
      if is_empty s then EmptyString
      else
        let '(r, size) := DecodeRuneInString s in
        if (r =? RuneError) && Nat.eqb size 1 then
          SanitizeText_loop fuel' (drop 1 s)
        else if problematic r then
          SanitizeText_loop fuel' (drop size s)
        else
          (AppendRune r ++ SanitizeText_loop fuel' (drop size s))%string
  end.

Definition SanitizeText (s : string) : string :=
  if is_empty s || (ValidString s && negb (hasProblematicChars s)) then s
  else SanitizeText_loop (String.length s) s.

(** *** What the specification says of sanitisation

    The input is cut into its characters: each position holds either a
    well-formed UTF-8 encoding, kept with its bytes, or a byte that
    starts none. *)
Inductive segment :=
| Invalid (b : string)
| Char (r : Z) (enc : string).

Fixpoint segments_loop (fuel : nat) (s : string) : list segment :=
  match fuel with
  | O => []
  | S fuel' =>
      if is_empty s then []
      else
        let '(r, size) := DecodeRuneInString s in
        if (r =? RuneError) && Nat.eqb size 1 then
          Invalid (take 1 s) :: segments_loop fuel' (drop 1 s)
        else Char r (take size s) :: segments_loop fuel' (drop size s)
  end.

Definition segments (s : string) : list segment :=
  segments_loop (String.length s) s.

Definition segment_bytes (g : segment) : string :=
  match g with Invalid b => b | Char _ enc => enc end.

Fixpoint concat_str (l : list string) : string :=
  match l with
  | [] => EmptyString
  | x :: t => (x ++ concat_str t)%string
  end.

(** Control characters below 0x20 other than tab, newline and carriage
    return; NUL is one of them. *)
Definition stripped_control (r : Z) : bool :=
  (0 <=? r) && (r <? 0x20)
  && negb ((r =? 0x09) || (r =? 0x0A) || (r =? 0x0D)).

(** The same, with NUL exempted as well. *)
Definition stripped_control_keeping_NUL (r : Z) : bool :=
  stripped_control r && negb (r =? 0).

Definition keep_segment (strip : Z -> bool) (g : segment) : string :=
  match g with
  | Invalid _ => EmptyString
  | Char r enc => if strip r then EmptyString else enc
  end.

Definition sanitize_spec (strip : Z -> bool) (s : string) : string :=
  concat_str (map (keep_segment strip) (segments s)).

(** *** The IR data model *)

(** Modelled from the spec: the declaration of [FinishReason] and its
    constants (package ir) is not among the sources.  Section 3.1 gives
    the five reasons; the type is a Go string, whose zero value, the empty
    string, means that no reason was set. *)
Inductive FinishReason :=
| FinishReasonNone
| FinishReasonStop
| FinishReasonLength
| FinishReasonToolCalls
| FinishReasonContentFilter
| FinishReasonUnknown.

(** Modelled from the spec: the event types of section 3.1
    ([UnifiedEvent] is a tagged variant over them). *)
Inductive EventType :=
| EventTypeToken
| EventTypeReasoning
| EventTypeReasoningSummary
| EventTypeToolCall
| EventTypeToolCallDelta
| EventTypeImage
| EventTypeFinish
| EventTypeError.

(** Modelled from the spec: [Usage] of section 3.1; all fields are
    Go [int]. *)
Record Usage := {
  PromptTokens : Z;
  CompletionTokens : Z;
  TotalTokens : Z;
  ThoughtsTokenCount : Z;
  CachedTokens : Z;
  AudioTokens : Z;
  AcceptedPredictionTokens : Z;
  RejectedPredictionTokens : Z
}.

(** Modelled from the spec: [ToolCall] of section 3.1, with the fields
    the modelled code reads or writes. *)
Record ToolCall := {
  ID : string;
  Name : string;
  Args : string;
  PartialArgs : string;
  ItemID : string;
  tc_ThoughtSignature : string
}.

Record ImagePart := {
  MimeType : string;
  Data : string
}.

(** Modelled from the spec: [UnifiedEvent] of section 3.1.  Pointer
    fields are options, [None] being Go's nil.  [Logprobs],
    [ContentFilter] and the error value are opaque to the code modelled
    here and kept as text. *)
Record UnifiedEvent := {
  ev_Type : EventType;
  ev_Content : string;
  ev_Reasoning : string;
  ev_ToolCall : option ToolCall;
  ev_Image : option ImagePart;
  ev_Usage : option Usage;
  ev_FinishReason : FinishReason;
  ev_ThoughtSignature : string;
  ev_ToolCallIndex : Z;
  ev_Refusal : string;
  ev_SystemFingerprint : string;
  ev_Logprobs : option string;
  ev_ContentFilter : option string;
  ev_Error : option string
}.

(** The zero value of the struct, which composite literals start from. *)
Definition zeroEvent (t : EventType) : UnifiedEvent :=
  {| ev_Type := t; ev_Content := EmptyString; ev_Reasoning := EmptyString; ev_ToolCall := None;
     ev_Image := None; ev_Usage := None; ev_FinishReason := FinishReasonNone;
     ev_ThoughtSignature := EmptyString; ev_ToolCallIndex := 0; ev_Refusal := EmptyString;
     ev_SystemFingerprint := EmptyString; ev_Logprobs := None; ev_ContentFilter := None;
     ev_Error := None |}.

Definition FinishReason_eqb (a b : FinishReason) : bool :=
  match a, b with
  | FinishReasonNone, FinishReasonNone
  | FinishReasonStop, FinishReasonStop
  | FinishReasonLength, FinishReasonLength
  | FinishReasonToolCalls, FinishReasonToolCalls
  | FinishReasonContentFilter, FinishReasonContentFilter
  | FinishReasonUnknown, FinishReasonUnknown => true
  | _, _ => false
  end.

Definition EventType_eqb (a b : EventType) : bool :=
  match a, b with
  | EventTypeToken, EventTypeToken
  | EventTypeReasoning, EventTypeReasoning
  | EventTypeReasoningSummary, EventTypeReasoningSummary
  | EventTypeToolCall, EventTypeToolCall
  | EventTypeToolCallDelta, EventTypeToolCallDelta
  | EventTypeImage, EventTypeImage
  | EventTypeFinish, EventTypeFinish
  | EventTypeError, EventTypeError => true
  | _, _ => false
  end.

(** [MapGeminiFinishReason] (util_gemini.go, first variant); the
    argument is [strings.ToUpper(geminiReason)]. *)
Definition MapGeminiFinishReason_upper (upper : string) : FinishReason :=
  if String.eqb upper "STOP" || String.eqb upper "FINISH_REASON_UNSPECIFIED"
     || String.eqb upper "UNKNOWN" then FinishReasonStop
  else if String.eqb upper "MAX_TOKENS" then FinishReasonLength
  else if String.eqb upper "SAFETY" || String.eqb upper "RECITATION"
  then FinishReasonContentFilter
  else if String.eqb upper "MALFORMED_FUNCTION_CALL" then FinishReasonUnknown
  else if String.eqb upper "UNEXPECTED_TOOL_CALL" then FinishReasonUnknown
  else FinishReasonUnknown.

(** The second variant in the same file maps a malformed function call
    to [ToolCalls]. *)
Definition MapGeminiFinishReason_upper' (upper : string) : FinishReason :=
  if String.eqb upper "STOP" || String.eqb upper "FINISH_REASON_UNSPECIFIED"
     || String.eqb upper "UNKNOWN" then FinishReasonStop
  else if String.eqb upper "MAX_TOKENS" then FinishReasonLength
  else if String.eqb upper "SAFETY" || String.eqb upper "RECITATION"
  then FinishReasonContentFilter
  else if String.eqb upper "MALFORMED_FUNCTION_CALL" then FinishReasonToolCalls
  else FinishReasonUnknown.

Definition MapFinishReasonToOpenAI (reason : FinishReason) : string :=
  match reason with
  | FinishReasonLength => "length"
  | FinishReasonToolCalls => "tool_calls"
  | FinishReasonContentFilter => "content_filter"
  | _ => "stop"
  end.

(** [MapClaudeFinishReason] converts Claude stop_reason to FinishReason. *)
Definition MapClaudeFinishReason (claudeReason : string) : FinishReason :=
  if String.eqb claudeReason "end_turn" || String.eqb claudeReason "stop_sequence"
  then FinishReasonStop
  else if String.eqb claudeReason "max_tokens" then FinishReasonLength
  else if String.eqb claudeReason "tool_use" then FinishReasonToolCalls
  else FinishReasonUnknown.

(** [MapOpenAIFinishReason] converts OpenAI finish_reason to FinishReason. *)
Definition MapOpenAIFinishReason (openaiReason : string) : FinishReason :=
  if String.eqb openaiReason "stop" then FinishReasonStop
  else if String.eqb openaiReason "length" then FinishReasonLength
  else if String.eqb openaiReason "tool_calls"
          || String.eqb openaiReason "function_call" then FinishReasonToolCalls
  else if String.eqb openaiReason "content_filter" then FinishReasonContentFilter
  else FinishReasonUnknown.

Definition MapFinishReasonToClaude (reason : FinishReason) : string :=
  match reason with
  | FinishReasonLength => "max_tokens"
  | FinishReasonToolCalls => "tool_use"
  | _ => "end_turn"
  end.

Definition MapFinishReasonToGemini (reason : FinishReason) : string :=
  match reason with
  | FinishReasonStop | FinishReasonToolCalls => "STOP"
  | FinishReasonLength => "MAX_TOKENS"
  | FinishReasonContentFilter => "SAFETY"
  | _ => "OTHER"
  end.

(** [MapEffortToBudget]: the token budget of a reasoning effort, and
    whether thoughts are included. *)
Definition MapEffortToBudget (effort : string) : Z * bool :=
  if String.eqb effort "none" then (0, false)
  else if String.eqb effort "auto" then (-1, true)
  else if String.eqb effort "minimal" then (512, true)
  else if String.eqb effort "low" then (1024, true)
  else if String.eqb effort "medium" then (8192, true)
  else if String.eqb effort "high" then (24576, true)
  else if String.eqb effort "xhigh" then (32768, true)
  else (-1, true).

Definition MapBudgetToEffort (budget : Z) (defaultForZero : string) : string :=
  if budget <=? 0 then defaultForZero
  else if budget <=? 1024 then "low"
  else if budget <=? 8192 then "medium"
  else "high".

(** [EncodeToolIDWithSignature] packs thoughtSignature into a tool call
    ID, in the format [<id>|sig:<signature>]. *)
Definition EncodeToolIDWithSignature (id signature : string) : string :=
  let id := strings.TrimSpace id in
  let signature := strings.TrimSpace signature in
  if is_empty signature then id
  else
    let id := if is_empty id then "tool"%string else id in
    (id ++ "|sig:" ++ signature)%string.

(** [DecodeToolIDAndSignature] unpacks a tool call ID; [marker] is
    five bytes long. *)
Definition DecodeToolIDAndSignature (encoded : string) : string * string :=
  let encoded := strings.TrimSpace encoded in
  if is_empty encoded then (EmptyString, EmptyString)
  else
    let marker := "|sig:"%string in
    match strings.Index encoded marker with
    | None => (encoded, EmptyString)
    | Some idx =>
        (strings.TrimSpace (take idx encoded),
         strings.TrimSpace (drop (idx + String.length marker) encoded))
    end.

End ir.

(** ** internal/cache: the thought-signature cache *)

Module cache.
Import gostr.

(** [time.Time] and [time.Duration] in nanoseconds; the clock reading
    [time.Now()] is an argument of the operations that take one. *)
Definition thoughtSignatureTTL : Z := 2 * (3600 * 1000000000).
Definition minThoughtSignatureLength : Z := 50.
Definition skipThoughtSignatureLiteral : string := "skip_thought_signature_validator".

Record thoughtSignatureEntry := {
  signature : string;
  expiresAt : Z
}.

(** [globalThoughtSignatureCache.bySession]; every access happens with
    the mutex held, so each operation below acts on the map atomically
    (the expiry path of a read takes the lock a second time, only to
    delete). *)
Abbreviation thoughtSignatureCache := (gmap string thoughtSignatureEntry).

Definition CacheSessionThoughtSignature (now : Z) (sessionID signature : string)
    (c : thoughtSignatureCache) : thoughtSignatureCache :=
  let sessionID := strings.TrimSpace sessionID in
  let signature := strings.TrimSpace signature in
  if is_empty sessionID || is_empty signature then c
  else if negb (String.eqb signature skipThoughtSignatureLiteral)
          && (len signature <? minThoughtSignatureLength) then c
  else <[sessionID := {| signature := signature;
                         expiresAt := now + thoughtSignatureTTL |}]> c.

Definition GetSessionThoughtSignature (now : Z) (sessionID : string)
    (c : thoughtSignatureCache) : string * thoughtSignatureCache :=
  let sessionID := strings.TrimSpace sessionID in
  if is_empty sessionID then (EmptyString, c)
  else
    match c !! sessionID with
    | None => (EmptyString, c)
    | Some entry =>
        if expiresAt entry <? now then (EmptyString, delete sessionID c)
        else (signature entry, c)
    end.

Definition HasValidThoughtSignature (signature : string) : bool :=
  let signature := strings.TrimSpace signature in
  if is_empty signature then false
  else if String.eqb signature skipThoughtSignatureLiteral then true
  else minThoughtSignatureLength <=? len signature.

Definition ClearSessionThoughtSignatureCache (c : thoughtSignatureCache)
  : thoughtSignatureCache := ∅.

(** A history of calls on the process-wide cache, each with the clock
    reading it observes.  [OpExpire] is the deletion alone: a read that
    finds its entry expired deletes it in a critical section of its own,
    which other goroutines may get ahead of. *)
Inductive op :=
| OpCache (now : Z) (sessionID signature : string)
| OpGet (now : Z) (sessionID : string)
| OpExpire (sessionID : string)
| OpClear.

(** Runs the calls in order; the strings are what the reads returned. *)
Fixpoint run (ops : list op) (c : thoughtSignatureCache)
  : thoughtSignatureCache * list string :=
  match ops with
  | [] => (c, [])
  | OpCache now sid sig :: rest =>
      run rest (CacheSessionThoughtSignature now sid sig c)
  | OpGet now sid :: rest =>
      let '(r, c') := GetSessionThoughtSignature now sid c in
      let '(c'', rs) := run rest c' in
      (c'', r :: rs)
  | OpExpire sid :: rest => run rest (delete (strings.TrimSpace sid) c)
  | OpClear :: rest => run rest (ClearSessionThoughtSignatureCache c)
  end.

(** A signature the cache may hold: the sentinel, or 50 bytes and more. *)
Definition acceptable (sig : string) : Prop :=
  sig = skipThoughtSignatureLiteral \/ minThoughtSignatureLength <= len sig.

(** Every entry holds an acceptable signature. *)
Definition all_acceptable (c : gmap string thoughtSignatureEntry) : Prop :=
  forall sid entry, c !! sid = Some entry -> acceptable (signature entry).

End cache.

(** ** github.com/tidwall/gjson: the parsed view of a JSON document

    The parsers never look at JSON text themselves; they query it through
    gjson.  A document is modelled by its syntax tree.  An object keeps
    its members in document order, duplicates included, because gjson
    answers a key with the first member of that name. *)

Module gjson.
Import gostr.

(** A JSON number, as far as the code can observe one: through
    [Result.Int()] and [Result.Bool()]. *)
Class Numbers := {
  number : Type;
  number_Int : number -> Z;
  number_Bool : number -> bool
}.

Inductive JSON {N : Numbers} :=
| JNull
| JFalse
| JTrue
| JNumber (n : number)
| JString (s : string)
| JArray (l : list JSON)
| JObject (m : list (string * JSON)).

(** The text side of the library and of Go's [strings] package. *)
Class Text {N : Numbers} := {
  Raw : JSON -> string;              (* Result.Raw: the value as written *)
  ToLower : string -> string;        (* strings.ToLower *)
  ToUpper : string -> string         (* strings.ToUpper *)
}.

Section queries.
Context {N : Numbers} {T : Text}.

(** [None] is the result that does not exist. *)
Definition Result := option JSON.

Fixpoint member (key : string) (m : list (string * JSON)) : Result :=
  match m with
  | [] => None
  | (k, v) :: rest => if String.eqb k key then Some v else member key rest
  end.

(** [Result.Get] with a path of one plain key. *)
Definition Get (r : Result) (key : string) : Result :=
  match r with
  | Some (JObject m) => member key m
  | _ => None
  end.

Definition Exists (r : Result) : bool :=
  match r with Some _ => true | None => false end.

(** [Result.Array()]: null and missing give no elements, a value that
    is not an array gives itself as the only element. *)
Definition Array (r : Result) : list JSON :=
  match r with
  | None | Some JNull => []
  | Some (JArray l) => l
  | Some v => [v]
  end.

Definition String_ (r : Result) : string :=
  match r with
  | None | Some JNull => EmptyString
  | Some JFalse => "false"
  | Some JTrue => "true"
  | Some (JString s) => s
  | Some v => Raw v
  end.

(** gjson's [parseInt]: an optional minus sign and decimal digits,
    nothing else. *)
Fixpoint parseInt_digits (s : string) (n : Z) : Z * bool :=
  match s with
  | EmptyString => (n, true)
  | String c rest =>
      let d := byte_val c in
      if (0x30 <=? d) && (d <=? 0x39)
      then parseInt_digits rest (wrap64 (wrap64 (n * 10) + (d - 0x30)))
      else (0, false)
  end.

Definition parseInt (s : string) : Z * bool :=
  match s with
  | String "-" rest =>
      if is_empty rest then (0, false)
      else
        let '(n, ok) := parseInt_digits rest 0 in
        if ok then (wrap64 (n * -1), true) else (0, false)
  | EmptyString => (0, false)
  | _ => parseInt_digits s 0
  end.

Definition Int (r : Result) : Z :=
  match r with
  | Some JTrue => 1
  | Some (JString s) => fst (parseInt s)
  | Some (JNumber n) => number_Int n
  | _ => 0
  end.

(** [Result.Bool()]; on a string it is
    [strconv.ParseBool(strings.ToLower(s))], which accepts
    ["1"], ["t"] and ["true"] among lower-case strings. *)
Definition Bool (r : Result) : bool :=
  match r with
  | Some JTrue => true
  | Some (JString s) =>
      let l := ToLower s in
      String.eqb l "1" || String.eqb l "t" || String.eqb l "true"
  | Some (JNumber n) => number_Bool n
  | _ => false
  end.

(** github.com/tidwall/sjson [Delete] with a path of one plain key:
    the first member of that name goes, the rest of the document
    stays as it is; without such a member nothing changes. *)
Fixpoint remove_member (key : string) (m : list (string * JSON))
  : list (string * JSON) :=
  match m with
  | [] => []
  | (k, v) :: rest =>
      if String.eqb k key then rest else (k, v) :: remove_member key rest
  end.

Definition Delete (j : JSON) (key : string) : JSON :=
  match j with
  | JObject m => JObject (remove_member key m)
  | _ => j
  end.

Definition keys (m : list (string * JSON)) : list string := map fst m.

End queries.

(** Documents whose numbers are integers, each read as itself. *)
Definition IntegerNumbers : Numbers :=
  {| number := Z; number_Int := fun n => n; number_Bool := fun n => negb (n =? 0) |}.

End gjson.

(** ** internal/translator_new/to_ir: the Gemini and Codex parsers *)

Module to_ir.
Import gostr gjson ir.

(** What the parsers call and the sources do not define: the SSE
    unwrapping and JSON normalising helpers of package ir, gjson's
    validation and parsing of the chunk text ([None] when
    [gjson.ValidBytes] fails), and the tool-call id generator, whose
    result carries a random suffix. *)
Class Env {N : Numbers} {T : Text} := {
  ExtractSSEData : string -> string;
  ParseBytes : string -> option JSON;
  ValidateAndNormalizeJSON : string -> string;
  GenToolCallIDWithName : string -> string
}.

Inductive parse_result :=
| Events (events : list UnifiedEvent)
| ParseError.

Section parsers.
Context {N : Numbers} {T : Text} {E : Env}.

Definition MapGeminiFinishReason (geminiReason : string) : FinishReason :=
  MapGeminiFinishReason_upper (ToUpper geminiReason).

Definition MapGeminiFinishReason' (geminiReason : string) : FinishReason :=
  MapGeminiFinishReason_upper' (ToUpper geminiReason).

Definition parseGeminiUsage (parsed : Result) : option Usage :=
  let u := Get parsed "usageMetadata" in
  if negb (Exists u) then None
  else
    let promptTokens := Int (Get u "promptTokenCount") in
    let thoughtsTokens := Int (Get u "thoughtsTokenCount") in
    let cachedTokens := Int (Get u "cachedContentTokenCount") in
    (* Adjust prompt tokens to exclude cached tokens. *)
    let promptTokens := wrap64 (promptTokens - cachedTokens) in
    let promptTokens := if promptTokens <? 0 then 0 else promptTokens in
    Some {| PromptTokens := wrap64 (promptTokens + thoughtsTokens);
            CompletionTokens := Int (Get u "candidatesTokenCount");
            TotalTokens := Int (Get u "totalTokenCount");
            ThoughtsTokenCount := thoughtsTokens;
            CachedTokens := cachedTokens;
            AudioTokens := 0;
            AcceptedPredictionTokens := 0;
            RejectedPredictionTokens := 0 |}.

Definition parseGeminiInlineImage (part : Result) : option ImagePart :=
  let inlineData := Get part "inlineData" in
  let inlineData :=
    if negb (Exists inlineData) then Get part "inline_data" else inlineData in
  if negb (Exists inlineData) then None
  else
    let data := String_ (Get inlineData "data") in
    if is_empty data then None
    else
      let mimeType := String_ (Get inlineData "mimeType") in
      let mimeType :=
        if is_empty mimeType then String_ (Get inlineData "mime_type")
        else mimeType in
      let mimeType := if is_empty mimeType then "image/png"%string else mimeType in
      Some {| MimeType := mimeType; Data := data |}.

(** The events one element of [content.parts] contributes. *)
Definition partEvents (part : Result) : list UnifiedEvent :=
  let ts := String_ (Get part "thoughtSignature") in
  let ts := if is_empty ts then String_ (Get part "thought_signature") else ts in
  let text := Get part "text" in
  if Exists text && negb (is_empty (String_ text)) then
    if Bool (Get part "thought") then
      [ {| ev_Type := EventTypeReasoning; ev_Content := EmptyString;
           ev_Reasoning := String_ text; ev_ToolCall := None; ev_Image := None;
           ev_Usage := None; ev_FinishReason := FinishReasonNone;
           ev_ThoughtSignature := ts; ev_ToolCallIndex := 0; ev_Refusal := EmptyString;
           ev_SystemFingerprint := EmptyString; ev_Logprobs := None;
           ev_ContentFilter := None; ev_Error := None |} ]
    else
      [ {| ev_Type := EventTypeToken; ev_Content := String_ text;
           ev_Reasoning := EmptyString; ev_ToolCall := None; ev_Image := None;
           ev_Usage := None; ev_FinishReason := FinishReasonNone;
           ev_ThoughtSignature := ts; ev_ToolCallIndex := 0; ev_Refusal := EmptyString;
           ev_SystemFingerprint := EmptyString; ev_Logprobs := None;
           ev_ContentFilter := None; ev_Error := None |} ]
  else
    let fc := Get part "functionCall" in
    if Exists fc then
      let name := String_ (Get fc "name") in
      if negb (is_empty name) then
        let id := String_ (Get fc "id") in
        let id := if is_empty id then GenToolCallIDWithName name else id in
        let args := match Get fc "args" with Some v => Raw v | None => EmptyString end in
        let args := if is_empty args then "{}"%string else args in
        let args := ValidateAndNormalizeJSON args in
        let partialArgs :=
          match Get fc "partialArgs" with Some pa => Raw pa | None => EmptyString end in
        [ {| ev_Type := EventTypeToolCall; ev_Content := EmptyString; ev_Reasoning := EmptyString;
             ev_ToolCall := Some {| ID := id; Name := name; Args := args;
                                    PartialArgs := partialArgs; ItemID := EmptyString;
                                    tc_ThoughtSignature := ts |};
             ev_Image := None; ev_Usage := None;
             ev_FinishReason := FinishReasonNone; ev_ThoughtSignature := ts;
             ev_ToolCallIndex := 0; ev_Refusal := EmptyString; ev_SystemFingerprint := EmptyString;
             ev_Logprobs := None; ev_ContentFilter := None; ev_Error := None |} ]
      else []
    else
      match parseGeminiInlineImage part with
      | Some img =>
          [ {| ev_Type := EventTypeImage; ev_Content := EmptyString; ev_Reasoning := EmptyString;
               ev_ToolCall := None; ev_Image := Some img; ev_Usage := None;
               ev_FinishReason := FinishReasonNone; ev_ThoughtSignature := ts;
               ev_ToolCallIndex := 0; ev_Refusal := EmptyString; ev_SystemFingerprint := EmptyString;
               ev_Logprobs := None; ev_ContentFilter := None; ev_Error := None |} ]
      | None =>
          if negb (is_empty ts) then
            [ {| ev_Type := EventTypeReasoning; ev_Content := EmptyString;
                 ev_Reasoning := EmptyString; ev_ToolCall := None; ev_Image := None;
                 ev_Usage := None; ev_FinishReason := FinishReasonNone;
                 ev_ThoughtSignature := ts; ev_ToolCallIndex := 0;
                 ev_Refusal := EmptyString; ev_SystemFingerprint := EmptyString;
                 ev_Logprobs := None; ev_ContentFilter := None;
                 ev_Error := None |} ]
          else []
      end.

Definition finishEvent (usage : option Usage) (finishReason : FinishReason)
  : UnifiedEvent :=
  {| ev_Type := EventTypeFinish; ev_Content := EmptyString; ev_Reasoning := EmptyString;
     ev_ToolCall := None; ev_Image := None; ev_Usage := usage;
     ev_FinishReason := finishReason; ev_ThoughtSignature := EmptyString;
     ev_ToolCallIndex := 0; ev_Refusal := EmptyString; ev_SystemFingerprint := EmptyString;
     ev_Logprobs := None; ev_ContentFilter := None; ev_Error := None |}.

(** [ParseGeminiChunk], for either variant [mapReason] of
    [ir.MapGeminiFinishReason]. *)
Definition ParseGeminiChunkWith (mapReason : string -> FinishReason)
    (rawJSON : string) : parse_result :=
  let rawJSON := ExtractSSEData rawJSON in
  if len rawJSON =? 0 then Events []
  else if String.eqb rawJSON "[DONE]" then Events [zeroEvent EventTypeFinish]
  else
    match ParseBytes rawJSON with
    | None => ParseError
    | Some doc =>
        let parsed : Result := Some doc in
        let usage := parseGeminiUsage parsed in
        let '(events, finishReason) :=
          match Array (Get parsed "candidates") with
          | candidate :: _ =>
              let candidate : Result := Some candidate in
              let events :=
                flat_map (fun part => partEvents (Some part))
                  (Array (Get (Get candidate "content") "parts")) in
              let fr := Get candidate "finishReason" in
              (events,
               if Exists fr then mapReason (String_ fr) else FinishReasonNone)
          | [] => ([], FinishReasonNone)
          end in
        (* Emit Finish event ONLY if we have an explicit finish reason *)
        if negb (FinishReason_eqb finishReason FinishReasonNone)
        then Events (events ++ [finishEvent usage finishReason])
        else Events events
    end.

Definition ParseGeminiChunk : string -> parse_result :=
  ParseGeminiChunkWith MapGeminiFinishReason.

Definition ParseGeminiChunk' : string -> parse_result :=
  ParseGeminiChunkWith MapGeminiFinishReason'.

(** *** Codex: grep argument sanitisation

    The argument text is modelled by the document it holds; [None] is
    a text [gjson.Valid] rejects, which is returned as it came. *)
Definition isZero (v : Result) : bool :=
  match v with
  | None => true
  | Some (JNumber _) => Int v =? 0
  | Some (JString _) =>
      String.eqb (String_ v) "0" || String.eqb (String_ v) "0.0"
      || String.eqb (String_ v) EmptyString
  | _ => Int v =? 0
  end.

Definition sanitizeCodexGrepArgs (toolName : string) (args : option JSON)
  : option JSON :=
  match args with
  | None => args
  | Some doc =>
      let isKnownGrepTool :=
        String.eqb toolName "grep" || String.eqb toolName "ripgrep_raw_search" in
      if negb isKnownGrepTool && negb (String.eqb toolName EmptyString) then args
      else
        let looksLikeGrepArgs :=
          Exists (Get args "pattern") && Exists (Get args "-C")
          && (Exists (Get args "-A") || Exists (Get args "-B")) in
        if negb isKnownGrepTool && negb looksLikeGrepArgs then args
        else
          let c := Get args "-C" in
          let a := Get args "-A" in
          let b := Get args "-B" in
          let hasC := Exists c in
          let hasA := Exists a in
          let hasB := Exists b in
          if negb hasC || (negb hasA && negb hasB) then args
          else
            let cZero := isZero c in
            if negb cZero then Some (Delete (Delete doc "-A") "-B")
            else Some (Delete doc "-C")
  end.

End parsers.

(** "The chunk carries an explicit [candidates[0].finishReason]": the
    first candidate has a member of that name. *)
Definition carriesFinishReason {N : Numbers} (doc : JSON) : bool :=
  match Array (Get (Some doc) "candidates") with
  | candidate :: _ => Exists (Get (Some candidate) "finishReason")
  | [] => false
  end.

(** An event that carries what its type announces: a token its text,
    a reasoning event text or a signature, a tool call event a named tool
    call, an image event its data and media type. *)
Definition carries_payload (e : UnifiedEvent) : Prop :=
  match ev_Type e with
  | EventTypeToken => ev_Content e <> EmptyString
  | EventTypeReasoning =>
      ev_Reasoning e <> EmptyString \/ ev_ThoughtSignature e <> EmptyString
  | EventTypeToolCall =>
      exists tc, ev_ToolCall e = Some tc /\ Name tc <> EmptyString
  | EventTypeImage =>
      exists img, ev_Image e = Some img /\ Data img <> EmptyString
                  /\ MimeType img <> EmptyString
  | _ => False
  end.

Definition hasFinish (r : parse_result) : bool :=
  match r with
  | Events events =>
      existsb (fun e => EventType_eqb (ev_Type e) EventTypeFinish) events
  | ParseError => false
  end.

End to_ir.

(** ** internal/translator_new/ir: schema-driven argument fixing *)

Module irfix.
Import gostr.

(** Go's [float64], as far as [fixSingleArg] uses it: conversion from
    [int64] and the comparisons [n == 1], [n == 0] of its switch. *)
Class Floats := {
  float64 : Type;
  float64_of_int : Z -> float64;
  float64_is : float64 -> Z -> bool
}.

(** The values [encoding/json] decodes into [interface{}].  A
    [map[string]any] is kept as the list of its entries; the code
    treats every entry on its own, so the iteration order of the Go map
    does not show in the result. *)
Inductive any {F : Floats} :=
| ANil
| ABool (b : bool)
| AFloat (f : float64)
| AString (s : string)
| ASlice (l : list any)
| AMap (m : list (string * any)).

(** The standard-library calls of [fixSingleArg]:
    [strconv.ParseInt(s, 10, 64)] and [strconv.ParseFloat(s, 64)]
    ([None] when they return an error), [fmt.Sprintf("%v", val)] and
    [strings.ToLower]. *)
Class GoLib {F : Floats} := {
  ParseInt : string -> option Z;
  ParseFloat : string -> option float64;
  Sprint : any -> string;
  ToLower : string -> string
}.

Section fixing.
Context {F : Floats} {L : GoLib}.

(** [m[key]] with its "exists" flag. *)
Fixpoint index (m : list (string * any)) (key : string) : option any :=
  match m with
  | [] => None
  | (k, v) :: rest => if String.eqb k key then Some v else index rest key
  end.

Definition is_nil (v : any) : bool :=
  match v with ANil => true | _ => false end.

(** The protection of the number case:
    [len(s) > 1 && strings.HasPrefix(s, "0") && !strings.HasPrefix(s, "0.")]. *)
Definition leadingZeroGuard (s : string) : bool :=
  (1 <? len s) && strings.HasPrefix s "0" && negb (strings.HasPrefix s "0.").

(** Step 3 of [fixSingleArg], the primitive type correction, on the
    lower-cased schema type. *)
Definition fixPrimitive (lowerType : string) (val : any) : any :=
  if String.eqb lowerType "number" || String.eqb lowerType "integer" then
    match val with
    | AString s =>
        if leadingZeroGuard s then val
        else
          match ParseInt s with
          | Some i => AFloat (float64_of_int i)
          | None =>
              match ParseFloat s with
              | Some f => AFloat f
              | None => val
              end
          end
    | _ => val
    end
  else if String.eqb lowerType "boolean" then
    match val with
    | AString s =>
        let l := ToLower s in
        if String.eqb l "true" || String.eqb l "1" || String.eqb l "yes"
           || String.eqb l "on" then ABool true
        else if String.eqb l "false" || String.eqb l "0" || String.eqb l "no"
                || String.eqb l "off" then ABool false
        else val
    | AFloat n =>
        if float64_is n 1 then ABool true
        else if float64_is n 0 then ABool false
        else val
    | _ => val
    end
  else if String.eqb lowerType "string" then
    match val with
    | AString _ => val
    | ANil => val
    | _ => AString (Sprint val)
    end
  else val.

Fixpoint fixSingleArg (val : any) (schema : list (string * any)) {struct val}
  : any :=
  match index schema "properties" with
  | Some (AMap props) =>
      (* 1. nested objects *)
      match val with
      | AMap valMap =>
          AMap (map (fun kv : string * any =>
                       match kv with
                       | (k, v) =>
                           match index props k with
                           | Some (AMap psMap) =>
                               let updated := fixSingleArg v psMap in
                               if is_nil updated then (k, v) else (k, updated)
                           | _ => (k, v)
                           end
                       end) valMap)
      | _ => val
      end
  | _ =>
      let typeVal :=
        match index schema "type" with Some (AString s) => s | _ => EmptyString end in
      if String.eqb (ToLower typeVal) "array" then
        (* 2. arrays *)
        match index schema "items" with
        | Some (AMap items) =>
            match val with
            | ASlice valArr =>
                ASlice (map (fun item =>
                               let updated := fixSingleArg item items in
                               if is_nil updated then item else updated) valArr)
            | _ => val
            end
        | _ => val
        end
      else fixPrimitive (ToLower typeVal) val
  end.

(** [FixToolCallArgs] updates [args] in place; the result is the map
    afterwards.  A nil map has no entries, so the early return for nil
    arguments is the empty case of the loop. *)
Definition FixToolCallArgs (args schema : list (string * any))
  : list (string * any) :=
  match index schema "properties" with
  | Some (AMap props) =>
      map (fun kv : string * any =>
             match kv with
             | (k, v) =>
                 match index props k with
                 | Some (AMap ps) =>
                     let updatedVal := fixSingleArg v ps in
                     if is_nil updatedVal then (k, v) else (k, updatedVal)
                 | _ => (k, v)
                 end
             end) args
  | _ => args
  end.

(** *** Positions inside a value *)
Inductive selector :=
| Key (k : string)
| Idx (i : nat).

Fixpoint at_path (v : any) (p : list selector) : option any :=
  match p with
  | [] => Some v
  | Key k :: rest =>
      match v with
      | AMap m => match index m k with Some c => at_path c rest | None => None end
      | _ => None
      end
  | Idx i :: rest =>
      match v with
      | ASlice l => match nth_error l i with Some c => at_path c rest | None => None end
      | _ => None
      end
  end.

(** A string that begins with ['0'] and is neither ["0"] nor of the
    form ["0.x"]. *)
Definition protected (s : string) : Prop :=
  strings.HasPrefix s "0" = true /\ s <> "0"%string
  /\ strings.HasPrefix s "0." = false.

(** What the loops over a map do to one entry: the value of [k], fixed
    by the schema [props] has for [k], if it has one. *)
Definition fix_entry (props : list (string * any)) (k : string) (v : any) : any :=
  match index props k with
  | Some (AMap ps) =>
      let updated := fixSingleArg v ps in
      if is_nil updated then v else updated
  | _ => v
  end.

(** The schema [fixSingleArg] meets at a position inside a value:
    under a key, the schema the properties of the enclosing schema hold
    for it; under an index, the items schema of an enclosing schema of
    type array that has no properties.  [None] where the descent of
    [fixSingleArg] does not reach. *)
Definition typeOf (schema : list (string * any)) : string :=
  match index schema "type" with Some (AString s) => s | _ => EmptyString end.

Fixpoint schema_at (schema : list (string * any)) (p : list selector)
  : option (list (string * any)) :=
  match p with
  | [] => Some schema
  | sel :: rest =>
      match index schema "properties", sel with
      | Some (AMap props), Key k =>
          match index props k with
          | Some (AMap ps) => schema_at ps rest
          | _ => None
          end
      | Some (AMap _), Idx _ => None
      | _, Key _ => None
      | _, Idx _ =>
          if String.eqb (ToLower (typeOf schema)) "array" then
            match index schema "items" with
            | Some (AMap items) => schema_at items rest
            | _ => None
            end
          else None
      end
  end.

(** The schema declares the type string. *)
Definition declares_string (schema : list (string * any)) : bool :=
  String.eqb (ToLower (typeOf schema)) "string".

(** The outcome for a value under a protected string: it is where it
    was, or an enclosing container, which the schema declares a string,
    was rendered as text. *)
Definition kept_or_rendered (before after : any) (schema : list (string * any))
    (path : list selector) (s : string) : Prop :=
  at_path after path = Some (AString s)
  \/ exists p1 p2 container declared,
       path = p1 ++ p2 /\ p2 <> []
       /\ at_path before p1 = Some container
       /\ schema_at schema p1 = Some declared
       /\ declares_string declared = true
       /\ at_path after p1 = Some (AString (Sprint container)).

End fixing.

End irfix.

(** ** internal/translator_new/from_ir: the OpenAI chunk builder *)

Module from_ir.
Import gostr ir.

(** The [delta] object of a [chat.completion.chunk].  An absent key is
    the empty string.  [ir.BuildReasoningDelta] is not among the
    sources; its result is kept as the two values it is built from. *)
Inductive delta :=
| DeltaEmpty
| DeltaToken (content refusal : string)
| DeltaReasoning (reasoning signature : string)
| DeltaToolCall (index : Z) (id name arguments : string)
| DeltaImage (mimeType data : string).

(** The chunk before [json.Marshal]; [created], a clock reading, is
    left out. *)
Record chunk := {
  chunk_id : string;
  chunk_model : string;
  system_fingerprint : string;
  choice_delta : delta;
  finish_reason : option string;
  logprobs : option string;
  content_filter_results : option string;
  usage : option Usage
}.

Inductive chunk_result :=
| ChunkBytes (c : chunk)
| ChunkNil
| ChunkErr.

(** [buildToolCallDelta]: the index written is the event's own
    [ToolCallIndex]. *)
Definition buildToolCallDelta (event : UnifiedEvent) (tc : ToolCall) : delta :=
  DeltaToolCall (ev_ToolCallIndex event) (ID tc) (Name tc) (Args tc).

(** [ToOpenAIChunk], that is [ToOpenAIChunkMeta] without metadata.  The
    parameter [chunkIndex] is not used by the body. *)
Definition ToOpenAIChunk (event : UnifiedEvent) (model messageID : string)
    (chunkIndex : Z) : chunk_result :=
  let base d fr cf us :=
    ChunkBytes {| chunk_id := messageID; chunk_model := model;
                  system_fingerprint := ev_SystemFingerprint event;
                  choice_delta := d; finish_reason := fr;
                  logprobs := ev_Logprobs event;
                  content_filter_results := cf; usage := us |} in
  match ev_Type event with
  | EventTypeToken =>
      base (DeltaToken (ev_Content event) (ev_Refusal event)) None None None
  | EventTypeReasoning =>
      base (DeltaReasoning (ev_Reasoning event) (ev_ThoughtSignature event))
           None None None
  | EventTypeToolCall | EventTypeToolCallDelta =>
      match ev_ToolCall event with
      | Some tc => base (buildToolCallDelta event tc) None None None
      | None => base DeltaEmpty None None None
      end
  | EventTypeImage =>
      match ev_Image event with
      | Some img => base (DeltaImage (MimeType img) (Data img)) None None None
      | None => base DeltaEmpty None None None
      end
  | EventTypeFinish =>
      base DeltaEmpty (Some (MapFinishReasonToOpenAI (ev_FinishReason event)))
           (ev_ContentFilter event) (ev_Usage event)
  | EventTypeError => ChunkErr
  | EventTypeReasoningSummary => ChunkNil
  end.

Definition is_finish_chunk (c : chunk) : bool :=
  match finish_reason c with Some _ => true | None => false end.

End from_ir.

(** ** internal/runtime/executor: the streaming state machine *)

Module executor.
Import gostr ir from_ir.

(** [UnifiedStreamState].  [ClaudeState] serves the Claude target only
    and is left out.  A Go map that was never written reads like the
    empty map, which is what [EnsureInitialized] installs. *)
Record UnifiedStreamState := {
  ReasoningCharsAccum : Z;
  ToolCallSentHeader : gmap Z bool;
  HasContent : bool;
  ToolCallIndex : Z;
  FinishSent : bool;
  ToolCallIDMap : gmap string string;
  OutputIndexMap : gmap Z Z
}.

Definition NewOpenAIStreamState : UnifiedStreamState :=
  {| ReasoningCharsAccum := 0; ToolCallSentHeader := ∅; HasContent := false;
     ToolCallIndex := 0; FinishSent := false; ToolCallIDMap := ∅;
     OutputIndexMap := ∅ |}.

(** How one iteration of the OpenAI / Cline loop ends: with [continue],
    with the call of the chunk builder on the event and [effectiveIdx],
    or with a nil dereference of [event.ToolCall]. *)
Inductive step_out :=
| Skip
| Emit (event : UnifiedEvent) (effectiveIdx : Z)
| Fault.

Definition is_tool_event (t : EventType) : bool :=
  EventType_eqb t EventTypeToolCall || EventType_eqb t EventTypeToolCallDelta.

Definition set_ToolCall (e : UnifiedEvent) (tc : option ToolCall) : UnifiedEvent :=
  {| ev_Type := ev_Type e; ev_Content := ev_Content e;
     ev_Reasoning := ev_Reasoning e; ev_ToolCall := tc; ev_Image := ev_Image e;
     ev_Usage := ev_Usage e; ev_FinishReason := ev_FinishReason e;
     ev_ThoughtSignature := ev_ThoughtSignature e;
     ev_ToolCallIndex := ev_ToolCallIndex e; ev_Refusal := ev_Refusal e;
     ev_SystemFingerprint := ev_SystemFingerprint e;
     ev_Logprobs := ev_Logprobs e; ev_ContentFilter := ev_ContentFilter e;
     ev_Error := ev_Error e |}.

Definition set_Finish (e : UnifiedEvent) (fr : FinishReason) (u : option Usage)
  : UnifiedEvent :=
  {| ev_Type := ev_Type e; ev_Content := ev_Content e;
     ev_Reasoning := ev_Reasoning e; ev_ToolCall := ev_ToolCall e;
     ev_Image := ev_Image e; ev_Usage := u; ev_FinishReason := fr;
     ev_ThoughtSignature := ev_ThoughtSignature e;
     ev_ToolCallIndex := ev_ToolCallIndex e; ev_Refusal := ev_Refusal e;
     ev_SystemFingerprint := ev_SystemFingerprint e;
     ev_Logprobs := ev_Logprobs e; ev_ContentFilter := ev_ContentFilter e;
     ev_Error := ev_Error e |}.

Definition set_ID (tc : ToolCall) (id : string) : ToolCall :=
  {| ID := id; Name := Name tc; Args := Args tc; PartialArgs := PartialArgs tc;
     ItemID := ItemID tc; tc_ThoughtSignature := tc_ThoughtSignature tc |}.

Definition strip_header (tc : ToolCall) : ToolCall :=
  {| ID := EmptyString; Name := EmptyString; Args := Args tc;
     PartialArgs := PartialArgs tc; ItemID := ItemID tc;
     tc_ThoughtSignature := tc_ThoughtSignature tc |}.

Definition zeroUsage : Usage :=
  {| PromptTokens := 0; CompletionTokens := 0; TotalTokens := 0;
     ThoughtsTokenCount := 0; CachedTokens := 0; AudioTokens := 0;
     AcceptedPredictionTokens := 0; RejectedPredictionTokens := 0 |}.

Definition set_ThoughtsTokenCount (u : Usage) (n : Z) : Usage :=
  {| PromptTokens := PromptTokens u; CompletionTokens := CompletionTokens u;
     TotalTokens := TotalTokens u; ThoughtsTokenCount := n;
     CachedTokens := CachedTokens u; AudioTokens := AudioTokens u;
     AcceptedPredictionTokens := AcceptedPredictionTokens u;
     RejectedPredictionTokens := RejectedPredictionTokens u |}.

(** "Visible content" as step 1 of the loop tests it. *)
Definition carries_content (event : UnifiedEvent) : bool :=
  negb (is_empty (ev_Content event)) || negb (is_empty (ev_Reasoning event))
  || match ev_ToolCall event with Some _ => true | None => false end.

(** Step 2 of the loop body: the Responses-API item id of a tool call
    is registered with its call id, or resolved to it.  The result is the
    id map and the event's tool call afterwards. *)
Definition mapToolCallID (state : UnifiedStreamState) (event : UnifiedEvent)
  : gmap string string * option ToolCall :=
  match ev_ToolCall event with
  | Some tc =>
      if EventType_eqb (ev_Type event) EventTypeToolCall
         && negb (is_empty (ItemID tc)) && negb (is_empty (ID tc))
      then (<[ItemID tc := ID tc]> (ToolCallIDMap state), Some tc)
      else if negb (is_empty (ItemID tc)) && is_empty (ID tc) then
        match ToolCallIDMap state !! ItemID tc with
        | Some callID => (ToolCallIDMap state, Some (set_ID tc callID))
        | None => (ToolCallIDMap state, Some tc)
        end
      else (ToolCallIDMap state, Some tc)
  | None => (ToolCallIDMap state, None)
  end.

(** Step 3: [effectiveIdx], and [OutputIndexMap] and [ToolCallIndex]
    afterwards. *)
Definition lineariseIndex (state : UnifiedStreamState) (event : UnifiedEvent)
  : Z * gmap Z Z * Z :=
  let outputIdx := ev_ToolCallIndex event in
  if is_tool_event (ev_Type event) then
    match OutputIndexMap state !! outputIdx with
    | Some mappedIdx => (mappedIdx, OutputIndexMap state, ToolCallIndex state)
    | None =>
        if EventType_eqb (ev_Type event) EventTypeToolCall then
          (* Assign new linear index *)
          (ToolCallIndex state,
           <[outputIdx := ToolCallIndex state]> (OutputIndexMap state),
           wrap64 (ToolCallIndex state + 1))
        else (outputIdx, OutputIndexMap state, ToolCallIndex state)
    end
  else (outputIdx, OutputIndexMap state, ToolCallIndex state).

(** Step 4 on an event that is let through: the finish reason and the
    usage the finish chunk is built from. *)
Definition finishReasonFor (toolCallIndex : Z) (event : UnifiedEvent) : FinishReason :=
  if (0 <? toolCallIndex) && FinishReason_eqb (ev_FinishReason event) FinishReasonStop
  then FinishReasonToolCalls else ev_FinishReason event.

Definition usageFor (reasoningChars : Z) (event : UnifiedEvent) : option Usage :=
  if 0 <? reasoningChars then
    let u := match ev_Usage event with Some u => u | None => zeroUsage end in
    if ThoughtsTokenCount u =? 0 then
      Some (set_ThoughtsTokenCount u (Z.quot (wrap64 (reasoningChars + 2)) 3))
    else Some u
  else ev_Usage event.

(** Steps 1 to 5 of the loop body for one event. *)
Definition step (state : UnifiedStreamState) (event : UnifiedEvent)
  : UnifiedStreamState * step_out :=
  (* 1. Update State (Reasoning & Content) *)
  let hasContent := carries_content event || HasContent state in
  let reasoningChars :=
    if EventType_eqb (ev_Type event) EventTypeReasoning
       && negb (is_empty (ev_Reasoning event))
    then wrap64 (ReasoningCharsAccum state + len (ev_Reasoning event))
    else ReasoningCharsAccum state in
  (* 2. Handle Tool Call Identity Mapping *)
  let '(idMap, toolCall) := mapToolCallID state event in
  (* 3. Handle Tool Call Indexing *)
  let '(effectiveIdx, indexMap, toolCallIndex) := lineariseIndex state event in
  let state1 :=
    {| ReasoningCharsAccum := reasoningChars;
       ToolCallSentHeader := ToolCallSentHeader state;
       HasContent := hasContent; ToolCallIndex := toolCallIndex;
       FinishSent := FinishSent state; ToolCallIDMap := idMap;
       OutputIndexMap := indexMap |} in
  let event1 := set_ToolCall event toolCall in
  match ev_Type event with
  | EventTypeFinish =>
      (* 4. Handle Finish Events *)
      if FinishSent state then (state1, Skip)      (* Duplicate finish prevention *)
      else if negb hasContent then (state1, Skip)  (* Empty STOP prevention *)
      else
        ({| ReasoningCharsAccum := reasoningChars;
            ToolCallSentHeader := ToolCallSentHeader state;
            HasContent := hasContent; ToolCallIndex := toolCallIndex;
            FinishSent := true; ToolCallIDMap := idMap;
            OutputIndexMap := indexMap |},
         Emit (set_Finish event1 (finishReasonFor toolCallIndex event1)
                 (usageFor reasoningChars event1)) effectiveIdx)
  | EventTypeToolCallDelta =>
      (* 5. Cleanup Tool Call Headers for Delta events *)
      match toolCall with
      | Some tc => (state1, Emit (set_ToolCall event1 (Some (strip_header tc))) effectiveIdx)
      | None => (state1, Fault)
      end
  | EventTypeToolCall =>
      if default false (ToolCallSentHeader state !! effectiveIdx) then
        match toolCall with
        | Some tc =>
            (state1, Emit (set_ToolCall event1 (Some (strip_header tc))) effectiveIdx)
        | None => (state1, Fault)
        end
      else
        ({| ReasoningCharsAccum := reasoningChars;
            ToolCallSentHeader := <[effectiveIdx := true]> (ToolCallSentHeader state);
            HasContent := hasContent; ToolCallIndex := toolCallIndex;
            FinishSent := FinishSent state; ToolCallIDMap := idMap;
            OutputIndexMap := indexMap |},
         Emit event1 effectiveIdx)
  | _ => (state1, Emit event1 effectiveIdx)
  end.

Inductive conv_result :=
| Chunks (chunks : list chunk)
| ConvError
| ConvPanic.

(** The loop [for i := range events] of the ["openai", "cline"] case;
    [chunks] is the slice built so far.  An error of the chunk builder
    returns at once: the chunks built so far are dropped, what was
    written to the state stays. *)
Fixpoint openai_loop (model messageID : string) (events : list UnifiedEvent)
    (state : UnifiedStreamState) (chunks : list chunk)
  : UnifiedStreamState * conv_result :=
  match events with
  | [] => (state, Chunks chunks)
  | event :: rest =>
      match step state event with
      | (state', Skip) => openai_loop model messageID rest state' chunks
      | (state', Fault) => (state', ConvPanic)
      | (state', Emit event' effectiveIdx) =>
          match ToOpenAIChunk event' model messageID effectiveIdx with
          | ChunkErr => (state', ConvError)
          | ChunkNil => openai_loop model messageID rest state' chunks
          | ChunkBytes c => openai_loop model messageID rest state' (chunks ++ [c])
          end
      end
  end.

(** The cases of [convertUnifiedEventsToChunks] for the other targets
    (Ollama, Claude, and the error for an unknown one) call emitters
    that are not modelled. *)
Class OtherTargets := {
  other_target :
    string -> list UnifiedEvent -> string -> string -> UnifiedStreamState ->
    UnifiedStreamState * conv_result
}.

(** [convertUnifiedEventsToChunks] on the caller's state. *)
Definition convertUnifiedEventsToChunks `{OtherTargets}
    (events : list UnifiedEvent) (to model messageID : string)
    (state : UnifiedStreamState) : UnifiedStreamState * conv_result :=
  match events with
  | [] => (state, Chunks [])
  | _ =>
      if String.eqb to "openai" || String.eqb to "cline"
      then openai_loop model messageID events state []
      else other_target to events model messageID state
  end.

(** One stream: the successive calls on one state, one per upstream
    chunk.  A panic ends the stream. *)
Fixpoint stream `{OtherTargets} (to model messageID : string)
    (batches : list (list UnifiedEvent)) (state : UnifiedStreamState)
  : UnifiedStreamState * list conv_result :=
  match batches with
  | [] => (state, [])
  | events :: rest =>
      match convertUnifiedEventsToChunks events to model messageID state with
      | (state', ConvPanic) => (state', [ConvPanic])
      | (state', r) =>
          let '(state'', rs) := stream to model messageID rest state' in
          (state'', r :: rs)
      end
  end.

(** All chunks the calls of a stream handed back. *)
Fixpoint emitted (rs : list conv_result) : list chunk :=
  match rs with
  | [] => []
  | Chunks chunks :: rest => chunks ++ emitted rest
  | _ :: rest => emitted rest
  end.

Definition count_finish (chunks : list chunk) : nat :=
  length (filter (fun c => is_finish_chunk c = true) chunks).

Definition finish_chunks (rs : list conv_result) : nat :=
  count_finish (emitted rs).

(** The state machine event by event: the state after [events], unless
    an iteration panics. *)
Fixpoint after (events : list UnifiedEvent) (state : UnifiedStreamState)
  : option UnifiedStreamState :=
  match events with
  | [] => Some state
  | event :: rest =>
      match step state event with
      | (_, Fault) => None
      | (state', _) => after rest state'
      end
  end.

(** The iterations over [events] that hand a Finish event to the chunk
    builder. *)
Fixpoint finish_emits (events : list UnifiedEvent) (state : UnifiedStreamState)
  : nat :=
  match events with
  | [] => O
  | event :: rest =>
      match step state event with
      | (_, Fault) => O
      | (state', Emit event' _) =>
          ((if EventType_eqb (ev_Type event') EventTypeFinish then 1 else 0)
           + finish_emits rest state')%nat
      | (state', Skip) => finish_emits rest state'
      end
  end.

(** The upstream indices announced by ToolCall events, in the order of
    their first sighting. *)
Fixpoint sightings_from (seen : list Z) (events : list UnifiedEvent) : list Z :=
  match events with
  | [] => seen
  | event :: rest =>
      if EventType_eqb (ev_Type event) EventTypeToolCall
         && negb (existsb (Z.eqb (ev_ToolCallIndex event)) seen)
      then sightings_from (seen ++ [ev_ToolCallIndex event]) rest
      else sightings_from seen rest
  end.

Definition sightings (events : list UnifiedEvent) : list Z :=
  sightings_from [] events.

(** The position of [x] in [l]. *)
Fixpoint position (x : Z) (l : list Z) : option Z :=
  match l with
  | [] => None
  | y :: rest =>
      if x =? y then Some 0
      else match position x rest with Some k => Some (k + 1) | None => None end
  end.

(** A tool call is announced by an event of type ToolCall. *)
Definition is_ToolCall (e : UnifiedEvent) : bool :=
  EventType_eqb (ev_Type e) EventTypeToolCall.

(** The sightings after one more event. *)
Definition next_seen (seen : list Z) (e : UnifiedEvent) : list Z :=
  if EventType_eqb (ev_Type e) EventTypeToolCall
     && negb (existsb (Z.eqb (ev_ToolCallIndex e)) seen)
  then seen ++ [ev_ToolCallIndex e] else seen.

(** The state of the index map after some events: it maps the upstream
    indices sighted so far to their positions, and the next free index
    is their number. *)
Definition tracks (st : UnifiedStreamState) (seen : list Z) : Prop :=
  (forall u, OutputIndexMap st !! u = position u seen)
  /\ ToolCallIndex st = Z.of_nat (length seen).

(** The events handed to the chunk builder, each with its
    [effectiveIdx], up to the first iteration that panics. *)
Fixpoint outputs (events : list UnifiedEvent) (state : UnifiedStreamState)
  : list (UnifiedEvent * Z) :=
  match events with
  | [] => []
  | event :: rest =>
      match step state event with
      | (_, Fault) => []
      | (state', Skip) => outputs rest state'
      | (state', Emit event' effectiveIdx) =>
          (event', effectiveIdx) :: outputs rest state'
      end
  end.

(** The chunks the chunk builder makes of the events handed to it. *)
Fixpoint built (model messageID : string) (outs : list (UnifiedEvent * Z))
  : list chunk :=
  match outs with
  | [] => []
  | (event, effectiveIdx) :: rest =>
      match ToOpenAIChunk event model messageID effectiveIdx with
      | ChunkBytes c => c :: built model messageID rest
      | _ => built model messageID rest
      end
  end.

(** A call that returned its chunks: no error, no panic. *)
Definition returned (r : conv_result) : bool :=
  match r with Chunks _ => true | _ => false end.

(** The bytes of reasoning text the events of type Reasoning carry. *)
Fixpoint reasoning_bytes (events : list UnifiedEvent) : Z :=
  match events with
  | [] => 0
  | event :: rest =>
      (if EventType_eqb (ev_Type event) EventTypeReasoning
       then len (ev_Reasoning event) else 0)
      + reasoning_bytes rest
  end.

(** An event whose tool call, if it has one, carries neither ID nor
    name. *)
Definition headerless (event : UnifiedEvent) : Prop :=
  match ev_ToolCall event with
  | Some tc => ID tc = EmptyString /\ Name tc = EmptyString
  | None => True
  end.

(** [TranslateGeminiResponseStream] handles Gemini API streaming: the
    parser, then the converter on the caller's state. *)
Definition TranslateGeminiResponseStream
    `{OtherTargets} {N : gjson.Numbers} {T : gjson.Text} {E : to_ir.Env}
    (to : string) (chunk model msgID : string) (state : UnifiedStreamState)
  : UnifiedStreamState * conv_result :=
  match to_ir.ParseGeminiChunk chunk with
  | to_ir.ParseError => (state, ConvError)
  | to_ir.Events events => convertUnifiedEventsToChunks events to model msgID state
  end.

(** [matchesPattern]: a model name against a pattern of a payload rule;
    [take (n - 2) (drop 1 pattern)] is [pattern[1:len(pattern)-1]]. *)
Definition matchesPattern (pattern name : string) : bool :=
  if String.eqb pattern name || String.eqb pattern "*" then true
  else if strings.HasPrefix pattern "*" && strings.HasSuffix pattern "*" then
    strings.Contains name (take (String.length pattern - 2) (drop 1 pattern))
  else if strings.HasPrefix pattern "*" then
    strings.HasSuffix name (drop 1 pattern)
  else if strings.HasSuffix pattern "*" then
    strings.HasPrefix name (take (String.length pattern - 1) pattern)
  else false.

End executor.

(** ** internal/registry: provider prefixes of model ids *)

Module registry.
Import gostr strings.

Section labels.
Context {U : CaseTables}.

(** [providerIDToLabel] converts provider ID to display label. *)
Definition providerIDToLabel (provider : string) : string :=
  let l := ToLower provider in
  if String.eqb l "gemini-cli" then "Gemini CLI"
  else if String.eqb l "antigravity" then "Antigravity"
  else if String.eqb l "vertex" then "Vertex"
  else if String.eqb l "aistudio" then "AI Studio"
  else if String.eqb l "claude" then "Claude"
  else if String.eqb l "codex" then "Codex"
  else if String.eqb l "cline" then "Cline"
  else if String.eqb l "qwen" then "Qwen"
  else if String.eqb l "kiro" then "Kiro"
  else if String.eqb l "openai" || String.eqb l "openai-compatibility" then "OpenAI"
  else provider.

Definition labelToProviderID (label : string) : string :=
  let l := ToLower (TrimSpace label) in
  if String.eqb l "gemini cli" then "gemini-cli"
  else if String.eqb l "antigravity" then "antigravity"
  else if String.eqb l "vertex" then "vertex"
  else if String.eqb l "ai studio" then "aistudio"
  else if String.eqb l "claude" then "claude"
  else if String.eqb l "codex" then "codex"
  else if String.eqb l "cline" then "cline"
  else if String.eqb l "qwen" then "qwen"
  else if String.eqb l "kiro" then "kiro"
  else if String.eqb l "openai" then "openai"
  else ToLower (ReplaceAll (TrimSpace label) " " "-").

(** [ParseProviderPrefixedModelID]: the normalized model ID and the
    provider ID (not label). *)
Definition ParseProviderPrefixedModelID (modelID : string) : string * string :=
  let modelID := TrimSpace modelID in
  if is_empty modelID then (EmptyString, EmptyString)
  else if negb (HasPrefix modelID "[") then (modelID, EmptyString)
  else
    match Index modelID "]" with
    | None => (modelID, EmptyString)                       (* idx = -1 *)
    | Some idx =>
        if Nat.leb idx 1 || Nat.leb (String.length modelID) (idx + 1)
        then (modelID, EmptyString)
        else
          let label := TrimSpace (take (idx - 1) (drop 1 modelID)) in
          let normalized := TrimSpace (drop (idx + 1) modelID) in
          if is_empty normalized then (modelID, EmptyString)
          else (normalized, labelToProviderID label)
    end.

Definition formatProviderPrefixedModelID (provider modelID : string) : string :=
  let provider := TrimSpace provider in
  let modelID := TrimSpace modelID in
  if is_empty provider || is_empty modelID then modelID
  else
    let label := providerIDToLabel provider in
    ("[" ++ label ++ "] " ++ modelID)%string.

End labels.

End registry.

(** ** internal/translator_new/to_ir: helpers shared by the parsers *)

Module helpers.
Import gostr utf8 strings.

(** *** ThoughtSignature encoding in tool call IDs *)

Definition ThoughtSignatureSeparator : string := "__thought__".

(** [EncodeToolIDWithSignature] embeds a thoughtSignature into a tool
    call ID; an empty signature leaves the ID unchanged. *)
Definition EncodeToolIDWithSignature (toolID signature : string) : string :=
  if is_empty signature then toolID
  else (toolID ++ ThoughtSignatureSeparator ++ signature)%string.

(** [DecodeToolIDAndSignature]: the original ID and the signature,
    which is empty when none is embedded. *)
Definition DecodeToolIDAndSignature (encodedID : string) : string * string :=
  if is_empty encodedID || negb (Contains encodedID ThoughtSignatureSeparator)
  then (encodedID, EmptyString)
  else
    match SplitN2 encodedID ThoughtSignatureSeparator with
    | [part0; part1] => (part0, part1)
    | _ => (encodedID, EmptyString)
    end.

(** *** Function name normalization *)

Definition MaxFunctionNameLength : Z := 64.

(** [a-z], [A-Z], [0-9], underscore, period, hyphen. *)
Definition isAllowed (r : Z) : bool :=
  ((0x61 <=? r) && (r <=? 0x7A)) || ((0x41 <=? r) && (r <=? 0x5A))
  || ((0x30 <=? r) && (r <=? 0x39))
  || (r =? 0x5F) || (r =? 0x2E) || (r =? 0x2D).

(** The loop [for i, r := range name] on the rest [name[i:]]: every
    rune writes one byte, and the loop ends behind the first rune at an
    offset of 63 or more. *)
Fixpoint normalize_loop (fuel : nat) (s : string) (i : Z) : string :=
  match fuel with
  | O => EmptyString
  | S fuel' =>
      if is_empty s then EmptyString
      else
        let '(r, size) := DecodeRuneInString s in
        let out := if isAllowed r then AppendRune r else "_"%string in
        if MaxFunctionNameLength - 1 <=? i then out
        else (out ++ normalize_loop fuel' (drop size s) (i + Z.of_nat size))%string
  end.

(** A letter or the underscore. *)
Definition startsName (c : Z) : bool :=
  ((0x61 <=? c) && (c <=? 0x7A)) || ((0x41 <=? c) && (c <=? 0x5A)) || (c =? 0x5F).

Definition NormalizeFunctionName (name : string) : string :=
  if is_empty name then "_unnamed_function"%string
  else
    let normalized := normalize_loop (String.length name) name 0 in
    if is_empty normalized then "_unnamed_function"%string
    else
      (* Ensure starts with letter or underscore *)
      let firstChar := at_ normalized 0 in
      if negb (startsName firstChar) then
        let normalized := ("_" ++ normalized)%string in
        if MaxFunctionNameLength <? len normalized
        then take (Z.to_nat MaxFunctionNameLength) normalized
        else normalized
      else normalized.

(** *** Values decoded from JSON *)

Section values.
Context {F : irfix.Floats}.
Import irfix.

(** [RemoveNullsFromToolInput] of this package: a map and a slice are
    rebuilt without their nil entries, anything else is returned as it
    is. *)
Fixpoint RemoveNullsFromToolInput (value : any) : any :=
  match value with
  | AMap v =>
      AMap (flat_map (fun kv : string * any =>
                        match kv with
                        | (k, val) =>
                            if is_nil val then []      (* Skip null values *)
                            else [(k, RemoveNullsFromToolInput val)]
                        end) v)
  | ASlice v =>
      ASlice (flat_map (fun item =>
                          if is_nil item then []       (* Skip null values *)
                          else [RemoveNullsFromToolInput item]) v)
  | _ => value
  end.



End values.

End helpers.

(** ** internal/translator_new/ir: cleaning of decoded tool input *)

Module irvalues.
Import gostr.

Section values.
Context {F : irfix.Floats}.
Import irfix.

(** [RemoveNullsFromToolInput] of package ir: as the one of the
    parsers' helpers, with a second test for nil on the cleaned
    value. *)
Fixpoint RemoveNullsFromToolInput (input : any) : any :=
  match input with
  | AMap v =>
      AMap (flat_map (fun kv : string * any =>
                        match kv with
                        | (k, val) =>
                            if is_nil val then []
                            else
                              let cleaned := RemoveNullsFromToolInput val in
                              if is_nil cleaned then [] else [(k, cleaned)]
                        end) v)
  | ASlice v =>
      ASlice (flat_map (fun item =>
                          if is_nil item then []
                          else
                            let cleaned := RemoveNullsFromToolInput item in
                            if is_nil cleaned then [] else [cleaned]) v)
  | _ => input
  end.

(** [DeepCleanUndefined] and [deepCleanUndefinedArray] walk a decoded
    document and delete, in place, the map entries whose value is the
    string "[undefined]".  [cleaned v] is the value a map or slice [v]
    of the document holds afterwards; a decoded document is a tree, no
    map is reached twice. *)
Fixpoint cleaned (v : any) : any :=
  match v with
  | AMap data =>
      AMap (flat_map (fun kv : string * any =>
                        match kv with
                        | (key, AString s) =>
                            if String.eqb s "[undefined]" then [] else [kv]
                        | (key, val) => [(key, cleaned val)]
                        end) data)
  | ASlice arr => ASlice (map cleaned arr)
  | _ => v
  end.

Definition DeepCleanUndefined (data : list (string * any)) : list (string * any) :=
  match cleaned (AMap data) with
  | AMap data' => data'
  | _ => data
  end.

(** A nil entry somewhere inside [v]: in one of its maps or slices,
    at any depth. *)
Fixpoint has_null_inside (v : any) : bool :=
  match v with
  | AMap m => existsb (fun kv => is_nil (snd kv) || has_null_inside (snd kv)) m
  | ASlice l => existsb (fun item => is_nil item || has_null_inside item) l
  | _ => false
  end.

Definition is_undefined (v : any) : bool :=
  match v with
  | AString s => String.eqb s "[undefined]"
  | _ => false
  end.

(** A map entry with the value "[undefined]" somewhere inside [v]. *)
Fixpoint has_undefined_entry (v : any) : bool :=
  match v with
  | AMap m =>
      existsb (fun kv => is_undefined (snd kv) || has_undefined_entry (snd kv)) m
  | ASlice l => existsb has_undefined_entry l
  | _ => false
  end.

End values.

End irvalues.

(** ** internal/runtime/executor/translator_wrapper.go: the converter
       of the Gemini providers *)

Module wrapper.
Import gostr ir from_ir.

(** [GeminiCLIStreamState]; [ClaudeState] serves the Claude target
    only and is left out. *)
Record GeminiCLIStreamState := {
  ToolCallIndex : Z;
  ReasoningTokensCount : Z;
  ReasoningCharsAccum : Z;
  FinishSent : bool;
  ToolCallSentHeader : gmap Z bool;
  HasContent : bool
}.

Definition NewAntigravityStreamState : GeminiCLIStreamState :=
  {| ToolCallIndex := 0; ReasoningTokensCount := 0; ReasoningCharsAccum := 0;
     FinishSent := false; ToolCallSentHeader := ∅; HasContent := false |}.

Definition set_ToolCallIndex (e : UnifiedEvent) (idx : Z) : UnifiedEvent :=
  {| ev_Type := ev_Type e; ev_Content := ev_Content e;
     ev_Reasoning := ev_Reasoning e; ev_ToolCall := ev_ToolCall e;
     ev_Image := ev_Image e; ev_Usage := ev_Usage e;
     ev_FinishReason := ev_FinishReason e;
     ev_ThoughtSignature := ev_ThoughtSignature e;
     ev_ToolCallIndex := idx; ev_Refusal := ev_Refusal e;
     ev_SystemFingerprint := ev_SystemFingerprint e;
     ev_Logprobs := ev_Logprobs e; ev_ContentFilter := ev_ContentFilter e;
     ev_Error := ev_Error e |}.

(** "Track content": [HasContent] and [ReasoningCharsAccum] after the
    switch on the event type. *)
Definition trackContent (state : GeminiCLIStreamState) (event : UnifiedEvent)
  : bool * Z :=
  match ev_Type event with
  | EventTypeToken =>
      (negb (is_empty (ev_Content event)) || HasContent state,
       ReasoningCharsAccum state)
  | EventTypeReasoning =>
      if negb (is_empty (ev_Reasoning event))
      then (true, wrap64 (ReasoningCharsAccum state + len (ev_Reasoning event)))
      else (HasContent state, ReasoningCharsAccum state)
  | EventTypeToolCall => (true, ReasoningCharsAccum state)
  | _ => (HasContent state, ReasoningCharsAccum state)
  end.

(** "Override finish reason if we have tools". *)
Definition finishReasonFor (toolCallIndex : Z) (event : UnifiedEvent) : FinishReason :=
  if 0 <? toolCallIndex then FinishReasonToolCalls else ev_FinishReason event.

(** "Handle Tool Call Indexing" and the header bookkeeping, which end
    every iteration that is not cut short: the event handed to the chunk
    builder with its [idx], and the state afterwards. *)
Definition indexAndEmit (state : GeminiCLIStreamState) (event : UnifiedEvent)
  : GeminiCLIStreamState * (UnifiedEvent * Z) :=
  let isToolCall := EventType_eqb (ev_Type event) EventTypeToolCall in
  let idx := if isToolCall then ToolCallIndex state else 0 in
  let toolCallIndex :=
    if isToolCall then wrap64 (ToolCallIndex state + 1) else ToolCallIndex state in
  match ev_ToolCall event with
  | Some tc =>
      let event := set_ToolCallIndex event idx in
      if default false (ToolCallSentHeader state !! idx) then
        ({| ToolCallIndex := toolCallIndex;
            ReasoningTokensCount := ReasoningTokensCount state;
            ReasoningCharsAccum := ReasoningCharsAccum state;
            FinishSent := FinishSent state;
            ToolCallSentHeader := ToolCallSentHeader state;
            HasContent := HasContent state |},
         (executor.set_ToolCall event (Some (executor.strip_header tc)), idx))
      else
        ({| ToolCallIndex := toolCallIndex;
            ReasoningTokensCount := ReasoningTokensCount state;
            ReasoningCharsAccum := ReasoningCharsAccum state;
            FinishSent := FinishSent state;
            ToolCallSentHeader := <[idx := true]> (ToolCallSentHeader state);
            HasContent := HasContent state |},
         (event, idx))
  | None =>
      ({| ToolCallIndex := toolCallIndex;
          ReasoningTokensCount := ReasoningTokensCount state;
          ReasoningCharsAccum := ReasoningCharsAccum state;
          FinishSent := FinishSent state;
          ToolCallSentHeader := ToolCallSentHeader state;
          HasContent := HasContent state |},
       (event, idx))
  end.

(** One iteration of the loop of the ["openai", "cline"] case of
    [convertGeminiEventsToChunks]; [None] is [continue]. *)
Definition step (state : GeminiCLIStreamState) (event : UnifiedEvent)
  : GeminiCLIStreamState * option (UnifiedEvent * Z) :=
  let '(hasContent, reasoningChars) := trackContent state event in
  let state1 :=
    {| ToolCallIndex := ToolCallIndex state;
       ReasoningTokensCount := ReasoningTokensCount state;
       ReasoningCharsAccum := reasoningChars;
       FinishSent := FinishSent state;
       ToolCallSentHeader := ToolCallSentHeader state;
       HasContent := hasContent |} in
  if EventType_eqb (ev_Type event) EventTypeFinish then
    if FinishSent state then (state1, None)          (* Skip duplicate finish *)
    else if negb hasContent then (state1, None)      (* Prevent empty STOP events *)
    else
      let state2 :=
        {| ToolCallIndex := ToolCallIndex state;
           ReasoningTokensCount := ReasoningTokensCount state;
           ReasoningCharsAccum := reasoningChars;
           FinishSent := true;
           ToolCallSentHeader := ToolCallSentHeader state;
           HasContent := hasContent |} in
      let event1 :=
        executor.set_Finish event (finishReasonFor (ToolCallIndex state) event)
          (executor.usageFor reasoningChars event) in
      let '(state3, out) := indexAndEmit state2 event1 in
      (state3, Some out)
  else
    let '(state3, out) := indexAndEmit state1 event in
    (state3, Some out).

(** The events handed to the chunk builder over a sequence of events. *)
Fixpoint outputs (events : list UnifiedEvent) (state : GeminiCLIStreamState)
  : list (UnifiedEvent * Z) :=
  match events with
  | [] => []
  | event :: rest =>
      match step state event with
      | (state', None) => outputs rest state'
      | (state', Some out) => out :: outputs rest state'
      end
  end.

Fixpoint after (events : list UnifiedEvent) (state : GeminiCLIStreamState)
  : GeminiCLIStreamState :=
  match events with
  | [] => state
  | event :: rest => after rest (fst (step state event))
  end.

(** The number of events of type ToolCall. *)
Definition tool_calls (events : list UnifiedEvent) : Z :=
  Z.of_nat (length (filter (fun e => EventType_eqb (ev_Type e) EventTypeToolCall = true)
                      events)).

(** The Finish events among those handed to the chunk builder. *)
Definition finishes (outs : list (UnifiedEvent * Z)) : nat :=
  length (filter (fun o => EventType_eqb (ev_Type (fst o)) EventTypeFinish = true) outs).

End wrapper.

(** ** internal/translator_new/to_ir/kiro.go: text helpers of the Kiro
       parser *)

Module kiro.
Import gostr strings.

Definition kiroThinkingStartTag : string := "<thinking>".
Definition kiroThinkingEndTag : string := "</thinking>".

(** The loop of [extractThinkingFromContent], with the two builders
    [cleanContent] and [thinkingContent] as accumulators.  A round that
    goes on has cut both tags off [remaining], which bounds the rounds by
    its length. *)
Fixpoint extract_loop (fuel : nat) (remaining cleanContent thinkingContent : string)
  : string * string :=
  match fuel with
  | O => (cleanContent, thinkingContent)
  | S fuel' =>
      if is_empty remaining then (cleanContent, thinkingContent)
      else
        match Index remaining kiroThinkingStartTag with
        | None =>
            (* No more thinking tags, add remaining as text *)
            ((cleanContent ++ remaining)%string, thinkingContent)
        | Some startIdx =>
            (* Add text before thinking tag *)
            let cleanContent :=
              if Nat.ltb 0 startIdx
              then (cleanContent ++ take startIdx remaining)%string
              else cleanContent in
            (* Move past the opening tag *)
            let remaining :=
              drop (startIdx + String.length kiroThinkingStartTag) remaining in
            match Index remaining kiroThinkingEndTag with
            | None =>
                (* No closing tag found, treat rest as thinking content *)
                (cleanContent, (thinkingContent ++ remaining)%string)
            | Some endIdx =>
                extract_loop fuel'
                  (drop (endIdx + String.length kiroThinkingEndTag) remaining)
                  cleanContent
                  (thinkingContent ++ take endIdx remaining)%string
            end
        end
  end.

(** [extractThinkingFromContent]: (cleanContent, thinkingContent). *)
Definition extractThinkingFromContent (content : string) : string * string :=
  if negb (Contains content kiroThinkingStartTag) then (content, EmptyString)
  else
    let '(cleanContent, thinkingContent) :=
      extract_loop (S (String.length content)) content EmptyString EmptyString in
    (TrimSpace cleanContent, TrimSpace thinkingContent).

(** A text made of thinking blocks, each behind the text that precedes
    it, and the text after the last block. *)
Fixpoint with_blocks (blocks : list (string * string)) (rest : string) : string :=
  match blocks with
  | [] => rest
  | (before, thought) :: blocks' =>
      (before ++ kiroThinkingStartTag ++ thought ++ kiroThinkingEndTag
       ++ with_blocks blocks' rest)%string
  end.

(** A text in which no tag begins. *)
Definition tag_free (s : string) : Prop := Contains s "<" = false.

Fixpoint concat_strings (l : list string) : string :=
  match l with
  | [] => EmptyString
  | s :: l' => (s ++ concat_strings l')%string
  end.

(** The loop of [findMatchingBracket] on [rest], which is [text[i:]];
    [i] stays below [len(text)] and is kept as a position. *)
Fixpoint bracket_loop (rest : string) (i : nat) (openChar closeChar : Z)
    (depth : Z) (inString escapeNext : bool) : Z :=
  match rest with
  | EmptyString => -1
  | String c rest' =>
      let char := byte_val c in
      if escapeNext then
        bracket_loop rest' (S i) openChar closeChar depth inString false
      else if (char =? 0x5C) && inString then
        bracket_loop rest' (S i) openChar closeChar depth inString true
      else if char =? 0x22 then
        bracket_loop rest' (S i) openChar closeChar depth (negb inString) false
      else if negb inString then
        if char =? openChar then
          bracket_loop rest' (S i) openChar closeChar (wrap64 (depth + 1))
            inString false
        else if char =? closeChar then
          let depth := wrap64 (depth - 1) in
          if depth =? 0 then Z.of_nat i
          else bracket_loop rest' (S i) openChar closeChar depth inString false
        else bracket_loop rest' (S i) openChar closeChar depth inString false
      else bracket_loop rest' (S i) openChar closeChar depth inString false
  end.

(** [findMatchingBracket(text, startPos)] for a [startPos] that is not
    negative, as its caller passes it: the position of the bracket that
    closes the one at [startPos], or -1. *)
Definition findMatchingBracket (text : string) (startPos : nat) : Z :=
  if len text <=? Z.of_nat startPos then -1
  else
    let openChar := at_ text startPos in
    if openChar =? 0x7B then
      bracket_loop (drop (S startPos) text) (S startPos)
        openChar 0x7D 1 false false
    else if openChar =? 0x5B then
      bracket_loop (drop (S startPos) text) (S startPos)
        openChar 0x5D 1 false false
    else -1.

(** *** Well-formed bracketed text

    What stands between a bracket and the one that closes it: bytes
    outside string literals that are neither a bracket of the pair nor
    a quote; string literals, made of bytes other than the quote and
    the backslash and of escaped bytes; and bracketed texts of the same
    kind. *)
Definition plain (openChar closeChar : ascii) (c : Z) : bool :=
  negb (c =? byte_val openChar) && negb (c =? byte_val closeChar)
  && negb (c =? 0x22).

(** The quotation mark, byte 0x22. *)
Definition quote : ascii := Ascii false true false false false true false false.

Inductive lit :=
| Byte (c : ascii)
| Escaped (c : ascii).

Definition lit_ok (l : lit) : bool :=
  match l with
  | Byte c => negb (byte_val c =? 0x22) && negb (byte_val c =? 0x5C)
  | Escaped _ => true
  end.

Fixpoint render_lits (l : list lit) : string :=
  match l with
  | [] => EmptyString
  | Byte c :: l' => String c (render_lits l')
  | Escaped c :: l' => String "\"%char (String c (render_lits l'))
  end.

Inductive body :=
| Done
| Plain (b : string) (rest : body)
| Quoted (s : list lit) (rest : body)
| Nested (inner rest : body).

Fixpoint render (openChar closeChar : ascii) (b : body) : string :=
  match b with
  | Done => EmptyString
  | Plain p rest => (p ++ render openChar closeChar rest)%string
  | Quoted s rest =>
      String quote
        (render_lits s ++ String quote (render openChar closeChar rest))%string
  | Nested inner rest =>
      String openChar
        (render openChar closeChar inner
         ++ String closeChar (render openChar closeChar rest))%string
  end.

Fixpoint well_formed (openChar closeChar : ascii) (b : body) : bool :=
  match b with
  | Done => true
  | Plain p rest =>
      all_bytes (plain openChar closeChar) p && well_formed openChar closeChar rest
  | Quoted s rest => forallb lit_ok s && well_formed openChar closeChar rest
  | Nested inner rest =>
      well_formed openChar closeChar inner && well_formed openChar closeChar rest
  end.

(** How deep the brackets of a body are nested. *)
Fixpoint nesting (b : body) : nat :=
  match b with
  | Done => O
  | Plain _ rest => nesting rest
  | Quoted _ rest => nesting rest
  | Nested inner rest => Nat.max (S (nesting inner)) (nesting rest)
  end.

End kiro.

(** ** Sample inputs *)

Module samples.

(** The letters a and b with a NUL between them. *)
Definition nul_between : string :=
  String "a" (String (ascii_of_nat 0) (String "b" EmptyString)).

(** Fifty blanks. *)
Definition blanks50 : string :=
  "                                                  ".

(** The sentinel signature with a blank in front. *)
Definition padded_sentinel : string := " skip_thought_signature_validator".

(** *** JSON documents with integer numbers *)

Fixpoint digits (fuel : nat) (n : Z) (acc : string) : string :=
  match fuel with
  | O => acc
  | S fuel' =>
      let acc := String (gostr.byte_of (0x30 + n mod 10)) acc in
      if n <? 10 then acc else digits fuel' (n / 10) acc
  end.

Definition decimal (n : Z) : string :=
  if n <? 0 then String "-" (digits (Z.to_nat (- n)) (- n) EmptyString)
  else digits (S (Z.to_nat n)) n EmptyString.

Definition quoted (s : string) : string :=
  (String (gostr.byte_of 0x22) s ++ String (gostr.byte_of 0x22) EmptyString)%string.

Fixpoint join (sep : string) (l : list string) : string :=
  match l with
  | [] => EmptyString
  | [x] => x
  | x :: rest => (x ++ sep ++ join sep rest)%string
  end.

(** Compact JSON text; the strings of the samples need no escapes. *)
Fixpoint compact (j : @gjson.JSON gjson.IntegerNumbers) : string :=
  match j with
  | gjson.JNull => "null"
  | gjson.JFalse => "false"
  | gjson.JTrue => "true"
  | gjson.JNumber n => decimal n
  | gjson.JString s => quoted s
  | gjson.JArray l => ("[" ++ join "," (map compact l) ++ "]")%string
  | gjson.JObject m =>
      ("{" ++ join "," (map (fun kv : string * gjson.JSON =>
                               (quoted (fst kv) ++ ":" ++ compact (snd kv))%string) m)
           ++ "}")%string
  end.

Definition map_ascii (f : Z -> Z) (s : string) : string :=
  gostr.of_bytes (map (fun c => f (gostr.byte_val c)) (list_ascii_of_string s)).

(** Case mapping of ASCII text. *)
Definition ascii_lower (s : string) : string :=
  map_ascii (fun b => if (0x41 <=? b) && (b <=? 0x5A) then b + 32 else b) s.

Definition ascii_upper (s : string) : string :=
  map_ascii (fun b => if (0x61 <=? b) && (b <=? 0x7A) then b - 32 else b) s.

Definition IntegerText : @gjson.Text gjson.IntegerNumbers :=
  {| gjson.Raw := compact; gjson.ToLower := ascii_lower; gjson.ToUpper := ascii_upper |}.

Definition jnum (n : Z) : @gjson.JSON gjson.IntegerNumbers := gjson.JNumber (n : @gjson.number gjson.IntegerNumbers).

(** usageMetadata with 10 prompt tokens, 4 of them cached, and 3
    thoughts tokens. *)
Definition usage_doc : @gjson.JSON gjson.IntegerNumbers :=
  gjson.JObject
    [("usageMetadata"%string,
      gjson.JObject [("promptTokenCount"%string, jnum 10);
                     ("cachedContentTokenCount"%string, jnum 4);
                     ("thoughtsTokenCount"%string, jnum 3);
                     ("totalTokenCount"%string, jnum 20)])].

(** The grep arguments of the specification's scenario 5. *)
Definition grep_args_C3 : @gjson.JSON gjson.IntegerNumbers :=
  gjson.JObject [("pattern"%string, gjson.JString "x"); ("-C"%string, jnum 3);
                 ("-A"%string, jnum 2); ("-B"%string, jnum 0)].

(** A pattern with a context of zero lines and nothing else. *)
Definition grep_args_lone_C0 : @gjson.JSON gjson.IntegerNumbers :=
  gjson.JObject [("pattern"%string, gjson.JString "x"); ("-C"%string, jnum 0)].

(** *** Decoded JSON values whose numbers are integers *)

Definition IntegerFloats : irfix.Floats :=
  {| irfix.float64 := Z; irfix.float64_of_int := fun i => i;
     irfix.float64_is := Z.eqb |}.

(** [%v] of a value, as far as the samples need it: strings print as
    they are, a map prints its entries in the order given (the samples
    list them sorted by key, as Go prints them). *)
Fixpoint render (v : @irfix.any IntegerFloats) : string :=
  match v with
  | irfix.ANil => "<nil>"
  | irfix.ABool true => "true"
  | irfix.ABool false => "false"
  | irfix.AFloat f => decimal f
  | irfix.AString s => s
  | irfix.ASlice l => ("[" ++ join " " (map render l) ++ "]")%string
  | irfix.AMap m =>
      ("map[" ++ join " " (map (fun kv : string * irfix.any =>
                                  (fst kv ++ ":" ++ render (snd kv))%string) m)
              ++ "]")%string
  end.

(** Decimal integers are all the samples parse. *)
Definition parse_decimal (s : string) : option Z :=
  let '(n, ok) := gjson.parseInt s in if ok then Some n else None.

Definition IntegerGoLib : @irfix.GoLib IntegerFloats :=
  {| irfix.ParseInt := parse_decimal; irfix.ParseFloat := fun _ => None;
     irfix.Sprint := render; irfix.ToLower := ascii_lower |}.

(** Scenario 4 of the specification. *)
Definition version_args : list (string * @irfix.any IntegerFloats) :=
  [("version"%string, irfix.AString "01.0"); ("code"%string, irfix.AString "007")].

Definition version_schema : list (string * @irfix.any IntegerFloats) :=
  [("properties"%string,
    irfix.AMap [("version"%string, irfix.AMap [("type"%string, irfix.AString "number")]);
                ("code"%string, irfix.AMap [("type"%string, irfix.AString "integer")])])].

(** An object holding the code 007, under a schema that declares the
    object itself a string. *)
Definition nested_args : list (string * @irfix.any IntegerFloats) :=
  [("a"%string, irfix.AMap [("code"%string, irfix.AString "007")])].

Definition nested_schema : list (string * @irfix.any IntegerFloats) :=
  [("properties"%string,
    irfix.AMap [("a"%string, irfix.AMap [("type"%string, irfix.AString "string")])])].

(** *** Streams of events *)

(** Scenario 7 of the specification: a token, a tool call, a finish. *)
Definition token_hi : ir.UnifiedEvent :=
  {| ir.ev_Type := ir.EventTypeToken; ir.ev_Content := "hi";
     ir.ev_Reasoning := EmptyString; ir.ev_ToolCall := None; ir.ev_Image := None;
     ir.ev_Usage := None; ir.ev_FinishReason := ir.FinishReasonNone;
     ir.ev_ThoughtSignature := EmptyString; ir.ev_ToolCallIndex := 0;
     ir.ev_Refusal := EmptyString; ir.ev_SystemFingerprint := EmptyString;
     ir.ev_Logprobs := None; ir.ev_ContentFilter := None; ir.ev_Error := None |}.

Definition call_f : ir.ToolCall :=
  {| ir.ID := "call_1"; ir.Name := "f";
     ir.Args := compact (gjson.JObject [("a"%string, jnum 1)]);
     ir.PartialArgs := EmptyString; ir.ItemID := EmptyString;
     ir.tc_ThoughtSignature := EmptyString |}.

(** A tool-call event of the given type at the given upstream index. *)
Definition tool_event (t : ir.EventType) (upstream : Z) : ir.UnifiedEvent :=
  {| ir.ev_Type := t; ir.ev_Content := EmptyString;
     ir.ev_Reasoning := EmptyString; ir.ev_ToolCall := Some call_f;
     ir.ev_Image := None; ir.ev_Usage := None;
     ir.ev_FinishReason := ir.FinishReasonNone;
     ir.ev_ThoughtSignature := EmptyString; ir.ev_ToolCallIndex := upstream;
     ir.ev_Refusal := EmptyString; ir.ev_SystemFingerprint := EmptyString;
     ir.ev_Logprobs := None; ir.ev_ContentFilter := None; ir.ev_Error := None |}.

Definition usage_total_5 : ir.Usage :=
  {| ir.PromptTokens := 3; ir.CompletionTokens := 2; ir.TotalTokens := 5;
     ir.ThoughtsTokenCount := 0; ir.CachedTokens := 0; ir.AudioTokens := 0;
     ir.AcceptedPredictionTokens := 0; ir.RejectedPredictionTokens := 0 |}.

Definition finish_stop : ir.UnifiedEvent :=
  {| ir.ev_Type := ir.EventTypeFinish; ir.ev_Content := EmptyString;
     ir.ev_Reasoning := EmptyString; ir.ev_ToolCall := None; ir.ev_Image := None;
     ir.ev_Usage := Some usage_total_5; ir.ev_FinishReason := ir.FinishReasonStop;
     ir.ev_ThoughtSignature := EmptyString; ir.ev_ToolCallIndex := 0;
     ir.ev_Refusal := EmptyString; ir.ev_SystemFingerprint := EmptyString;
     ir.ev_Logprobs := None; ir.ev_ContentFilter := None; ir.ev_Error := None |}.

(** Only the OpenAI and Cline targets are served. *)
Definition OpenAIOnly : executor.OtherTargets :=
  {| executor.other_target := fun _ _ _ _ state => (state, executor.ConvError) |}.

(** Four bytes of reasoning text. *)
Definition thinking : ir.UnifiedEvent :=
  {| ir.ev_Type := ir.EventTypeReasoning; ir.ev_Content := EmptyString;
     ir.ev_Reasoning := "hmm."; ir.ev_ToolCall := None; ir.ev_Image := None;
     ir.ev_Usage := None; ir.ev_FinishReason := ir.FinishReasonNone;
     ir.ev_ThoughtSignature := EmptyString; ir.ev_ToolCallIndex := 0;
     ir.ev_Refusal := EmptyString; ir.ev_SystemFingerprint := EmptyString;
     ir.ev_Logprobs := None; ir.ev_ContentFilter := None; ir.ev_Error := None |}.

(** A chunk of the Gemini API with a text part and a finish reason, and
    an environment that knows this chunk alone. *)
Definition text_chunk : @gjson.JSON gjson.IntegerNumbers :=
  gjson.JObject
    [("candidates"%string,
      gjson.JArray
        [gjson.JObject
           [("content"%string,
             gjson.JObject
               [("parts"%string,
                 gjson.JArray [gjson.JObject [("text"%string, gjson.JString "hi")]])]);
            ("finishReason"%string, gjson.JString "STOP")]])].

Definition OneChunk : @to_ir.Env gjson.IntegerNumbers IntegerText :=
  {| to_ir.ExtractSSEData := fun raw => raw;
     to_ir.ParseBytes :=
       fun raw => if String.eqb raw (compact text_chunk) then Some text_chunk else None;
     to_ir.ValidateAndNormalizeJSON := fun args => args;
     to_ir.GenToolCallIDWithName := fun name => ("call_" ++ name)%string |}.

(** Case mapping outside ASCII, which the samples never need. *)
Definition ASCIICase : strings.CaseTables :=
  {| strings.MapToLower := fun s => s |}.

(** The inside of the arguments of an embedded tool call: a key, a
    value that holds a closing brace and an escaped quote, and a nested
    object. *)
Definition called_args : kiro.body :=
  kiro.Quoted [kiro.Byte "k"]
    (kiro.Plain ": "
       (kiro.Quoted [kiro.Byte "}"; kiro.Escaped kiro.quote; kiro.Byte "x"]
          (kiro.Plain ", "
             (kiro.Nested (kiro.Quoted [kiro.Byte "n"] (kiro.Plain ": 1" kiro.Done))
                kiro.Done)))).

End samples.

(** * Part II: properties *)

(** ** UTF-8: decoding and encoding agree *)

Module utf8_facts.
Import gostr utf8.

Lemma lor_shifted (hi lo k : Z) :
  0 <= k -> 0 <= lo < 2 ^ k -> Z.lor (hi * 2 ^ k) lo = hi * 2 ^ k + lo.
Proof.
  intros Hk Hlo.
  rewrite <- Z.lxor_lor, Z.add_nocarry_lxor; try reflexivity.
  all: apply Z.bits_inj'; intros m Hm; rewrite Z.land_spec, Z.bits_0.
  all: destruct (Z.lt_ge_cases m k) as [Hlt|Hge].
  all: try (rewrite Z.mul_pow2_bits_low by lia; reflexivity).
  all: rewrite <- (Z.mod_small lo (2 ^ k)) by lia.
  all: rewrite Z.mod_pow2_bits_high by lia; apply andb_false_r.
Qed.

Lemma lor_const (c hi lo k : Z) :
  c = hi * 2 ^ k -> 0 <= k -> 0 <= lo < 2 ^ k -> Z.lor c lo = c + lo.
Proof. intros ->. apply lor_shifted. Qed.

Lemma land_mask (a m k : Z) : m = Z.ones k -> 0 <= k -> Z.land a m = a mod 2 ^ k.
Proof. intros -> Hk. apply Z.land_ones, Hk. Qed.

Ltac bits_to_arith :=
  repeat match goal with
  | |- context [Z.land ?a 0x3F] => rewrite (land_mask a 0x3F 6) by (reflexivity || lia)
  | |- context [Z.land ?a 0x1F] => rewrite (land_mask a 0x1F 5) by (reflexivity || lia)
  | |- context [Z.land ?a 0x0F] => rewrite (land_mask a 0x0F 4) by (reflexivity || lia)
  | |- context [Z.land ?a 0x07] => rewrite (land_mask a 0x07 3) by (reflexivity || lia)
  | |- context [Z.shiftl ?a ?n] => rewrite (Z.shiftl_mul_pow2 a n) by lia
  | |- context [Z.shiftr ?a ?n] => rewrite (Z.shiftr_div_pow2 a n) by lia
  end.

(** The rune a well-formed encoding of two, three or four bytes stands for. *)
Lemma rune2_arith b0 b1 :
  0xC2 <= b0 <= 0xDF -> 0x80 <= b1 <= 0xBF ->
  Z.lor (Z.shiftl (Z.land b0 mask2) 6) (Z.land b1 maskx)
  = (b0 - 192) * 64 + (b1 - 128).
Proof.
  intros H0 H1. unfold mask2, maskx. bits_to_arith.
  rewrite (lor_shifted _ (b1 mod 2 ^ 6) 6) by (try lia; apply Z.mod_pos_bound; lia).
  change (2 ^ 5) with 32. change (2 ^ 6) with 64. Z.div_mod_to_equations. lia.
Qed.

Lemma rune3_arith b0 b1 b2 :
  0xE0 <= b0 <= 0xEF -> 0x80 <= b1 <= 0xBF -> 0x80 <= b2 <= 0xBF ->
  Z.lor (Z.lor (Z.shiftl (Z.land b0 mask3) 12) (Z.shiftl (Z.land b1 maskx) 6))
        (Z.land b2 maskx)
  = (b0 - 224) * 4096 + (b1 - 128) * 64 + (b2 - 128).
Proof.
  intros H0 H1 H2. unfold mask3, maskx. bits_to_arith.
  assert (E0 : b0 mod 2 ^ 4 = b0 - 224) by (change (2 ^ 4) with 16; Z.div_mod_to_equations; lia).
  assert (E1 : b1 mod 2 ^ 6 = b1 - 128) by (change (2 ^ 6) with 64; Z.div_mod_to_equations; lia).
  assert (E2 : b2 mod 2 ^ 6 = b2 - 128) by (change (2 ^ 6) with 64; Z.div_mod_to_equations; lia).
  rewrite E0, E1, E2.
  rewrite (lor_shifted _ ((b1 - 128) * 2 ^ 6) 12) by lia.
  replace ((b0 - 224) * 2 ^ 12 + (b1 - 128) * 2 ^ 6)
    with (((b0 - 224) * 64 + (b1 - 128)) * 2 ^ 6) by lia.
  rewrite (lor_shifted _ (b2 - 128) 6) by lia. lia.
Qed.

Lemma rune4_arith b0 b1 b2 b3 :
  0xF0 <= b0 <= 0xF4 -> 0x80 <= b1 <= 0xBF -> 0x80 <= b2 <= 0xBF ->
  0x80 <= b3 <= 0xBF ->
  Z.lor (Z.lor (Z.lor (Z.shiftl (Z.land b0 mask4) 18)
                      (Z.shiftl (Z.land b1 maskx) 12))
               (Z.shiftl (Z.land b2 maskx) 6))
        (Z.land b3 maskx)
  = (b0 - 240) * 262144 + (b1 - 128) * 4096 + (b2 - 128) * 64 + (b3 - 128).
Proof.
  intros H0 H1 H2 H3. unfold mask4, maskx. bits_to_arith.
  assert (E0 : b0 mod 2 ^ 3 = b0 - 240) by (change (2 ^ 3) with 8; Z.div_mod_to_equations; lia).
  assert (E1 : b1 mod 2 ^ 6 = b1 - 128) by (change (2 ^ 6) with 64; Z.div_mod_to_equations; lia).
  assert (E2 : b2 mod 2 ^ 6 = b2 - 128) by (change (2 ^ 6) with 64; Z.div_mod_to_equations; lia).
  assert (E3 : b3 mod 2 ^ 6 = b3 - 128) by (change (2 ^ 6) with 64; Z.div_mod_to_equations; lia).
  rewrite E0, E1, E2, E3.
  rewrite (lor_shifted _ ((b1 - 128) * 2 ^ 12) 18) by lia.
  replace ((b0 - 240) * 2 ^ 18 + (b1 - 128) * 2 ^ 12)
    with (((b0 - 240) * 64 + (b1 - 128)) * 2 ^ 12) by lia.
  rewrite (lor_shifted _ ((b2 - 128) * 2 ^ 6) 12) by lia.
  replace (((b0 - 240) * 64 + (b1 - 128)) * 2 ^ 12 + (b2 - 128) * 2 ^ 6)
    with ((((b0 - 240) * 64 + (b1 - 128)) * 64 + (b2 - 128)) * 2 ^ 6) by lia.
  rewrite (lor_shifted _ (b3 - 128) 6) by lia. lia.
Qed.

(** [encode] on the ranges of one to four bytes. *)
Lemma encode1 r : 0 <= r <= 0x7F -> encode r = [r].
Proof.
  intros H. unfold encode, rune1Max.
  rewrite (Z.mod_small r (2 ^ 32)) by lia.
  destruct (Z.leb_spec r 127); [|lia].
  rewrite Z.mod_small by lia. reflexivity.
Qed.

Lemma encode2 h l :
  2 <= h < 32 -> 0 <= l < 64 -> encode (h * 64 + l) = [192 + h; 128 + l].
Proof.
  intros Hh Hl. unfold encode, rune1Max, rune2Max, t2, tx, maskx.
  rewrite (Z.mod_small _ (2 ^ 32)) by lia.
  destruct (Z.leb_spec (h * 64 + l) 127); [lia|].
  destruct (Z.leb_spec (h * 64 + l) 2047); [|lia].
  bits_to_arith. change (2 ^ 6) with 64.
  assert (E1 : (h * 64 + l) / 64 mod 256 = h) by (Z.div_mod_to_equations; lia).
  assert (E2 : ((h * 64 + l) mod 256) mod 64 = l) by (Z.div_mod_to_equations; lia).
  rewrite E1, E2.
  rewrite (lor_const 192 3 h 6), (lor_const 128 2 l 6) by (reflexivity || lia).
  reflexivity.
Qed.

Lemma encode3 h m l :
  0 <= h < 16 -> 0 <= m < 64 -> 0 <= l < 64 ->
  2048 <= h * 4096 + m * 64 + l ->
  ~ (0xD800 <= h * 4096 + m * 64 + l <= 0xDFFF) ->
  encode (h * 4096 + m * 64 + l) = [224 + h; 128 + m; 128 + l].
Proof.
  intros Hh Hm Hl Hlow Hsur.
  unfold encode, rune1Max, rune2Max, rune3Max, MaxRune, surrogateMin,
    surrogateMax, t3, tx, maskx.
  set (r := h * 4096 + m * 64 + l) in *.
  assert (Hr : 0 <= r < 65536) by (unfold r; lia).
  rewrite (Z.mod_small r (2 ^ 32)) by lia.
  destruct (Z.leb_spec r 127); [lia|].
  destruct (Z.leb_spec r 2047); [lia|].
  destruct (Z.ltb_spec 1114111 r); [lia|].
  assert (Hs : (55296 <=? r) && (r <=? 57343) = false).
  { destruct (Z.leb_spec 55296 r), (Z.leb_spec r 57343); try reflexivity. lia. }
  rewrite Hs. cbn [orb].
  destruct (Z.leb_spec r 65535); [|lia].
  bits_to_arith. change (2 ^ 6) with 64. change (2 ^ 12) with 4096.
  assert (E0 : r / 4096 mod 256 = h) by (unfold r; Z.div_mod_to_equations; lia).
  assert (E1 : (r / 64 mod 256) mod 64 = m) by (unfold r; Z.div_mod_to_equations; lia).
  assert (E2 : (r mod 256) mod 64 = l) by (unfold r; Z.div_mod_to_equations; lia).
  rewrite E0, E1, E2.
  rewrite (lor_const 224 14 h 4), (lor_const 128 2 m 6), (lor_const 128 2 l 6)
    by (reflexivity || lia).
  reflexivity.
Qed.

Lemma encode4 h a m l :
  0 <= h < 8 -> 0 <= a < 64 -> 0 <= m < 64 -> 0 <= l < 64 ->
  65536 <= h * 262144 + a * 4096 + m * 64 + l <= 0x10FFFF ->
  encode (h * 262144 + a * 4096 + m * 64 + l)
  = [240 + h; 128 + a; 128 + m; 128 + l].
Proof.
  intros Hh Ha Hm Hl Hrange.
  unfold encode, rune1Max, rune2Max, rune3Max, MaxRune, surrogateMin,
    surrogateMax, t4, tx, maskx.
  set (r := h * 262144 + a * 4096 + m * 64 + l) in *.
  rewrite (Z.mod_small r (2 ^ 32)) by lia.
  destruct (Z.leb_spec r 127); [lia|].
  destruct (Z.leb_spec r 2047); [lia|].
  destruct (Z.ltb_spec 1114111 r); [lia|].
  assert (Hs : (55296 <=? r) && (r <=? 57343) = false).
  { destruct (Z.leb_spec 55296 r), (Z.leb_spec r 57343); try reflexivity. lia. }
  rewrite Hs. cbn [orb].
  destruct (Z.leb_spec r 65535); [lia|].
  bits_to_arith. change (2 ^ 6) with 64. change (2 ^ 12) with 4096.
  change (2 ^ 18) with 262144.
  assert (E0 : r / 262144 mod 256 = h) by (unfold r; Z.div_mod_to_equations; lia).
  assert (E1 : (r / 4096 mod 256) mod 64 = a) by (unfold r; Z.div_mod_to_equations; lia).
  assert (E2 : (r / 64 mod 256) mod 64 = m) by (unfold r; Z.div_mod_to_equations; lia).
  assert (E3 : (r mod 256) mod 64 = l) by (unfold r; Z.div_mod_to_equations; lia).
  rewrite E0, E1, E2, E3.
  rewrite (lor_const 240 30 h 3), (lor_const 128 2 a 6), (lor_const 128 2 m 6),
    (lor_const 128 2 l 6) by (reflexivity || lia).
  reflexivity.
Qed.

Lemma first_spec b :
  is_byte b ->
  (b < 0x80 /\ first b = as_) \/ (0xC2 <= b <= 0xDF /\ first b = s1)
  \/ (b = 0xE0 /\ first b = s2)
  \/ ((0xE1 <= b <= 0xEC \/ 0xEE <= b <= 0xEF) /\ first b = s3)
  \/ (b = 0xED /\ first b = s4) \/ (b = 0xF0 /\ first b = s5)
  \/ (0xF1 <= b <= 0xF3 /\ first b = s6) \/ (b = 0xF4 /\ first b = s7)
  \/ first b = xx.
Proof.
  intros Hb. unfold first.
  repeat match goal with
  | |- context [?a <? ?c] => destruct (Z.ltb_spec a c)
  | |- context [?a =? ?c] => destruct (Z.eqb_spec a c)
  end; intuition lia.
Qed.

Ltac reduce_table x :=
  let hd := eval vm_compute in (as_ <=? x) in
  let b := eval vm_compute in (Z.testbit x 0) in
  change (as_ <=? x) with hd; change (Z.testbit x 0) with b; cbv iota;
  let sz := eval vm_compute in (Z.land x 7) in
  let ar := eval vm_compute in (acceptRanges (Z.shiftr x 4)) in
  change (Z.land x 7) with sz;
  change (acceptRanges (Z.shiftr x 4)) with ar;
  cbn [lo hi];
  repeat match goal with
  | |- context [sz <=? ?k] =>
      let v := eval vm_compute in (sz <=? k) in change (sz <=? k) with v
  end;
  cbv iota.

Ltac split_tests :=
  repeat match goal with
  | |- context [(?a <? ?b) || (?c <? ?d)] =>
      destruct (Z.ltb_spec a b), (Z.ltb_spec c d); cbn [orb]
  | |- context [?a <? ?b] => destruct (Z.ltb_spec a b)
  end.

Lemma decode_sound n b0 b1 b2 b3 r size :
  is_byte b0 -> is_byte b1 -> is_byte b2 -> is_byte b3 -> 1 <= n ->
  decode n b0 b1 b2 b3 = (r, size) ->
  (1 <= size)%nat /\ Z.of_nat size <= n /\ 0 <= r
  /\ ((r = RuneError /\ size = 1%nat)
      \/ encode r = firstn size [b0; b1; b2; b3]).
Proof.
  unfold is_byte. intros H0 H1 H2 H3 Hn.
  unfold decode. destruct (Z.ltb_spec n 1); [lia|].
  destruct (first_spec b0 H0)
    as [[Hr Hf]|[[Hr Hf]|[[Hr Hf]|[[Hr Hf]|[[Hr Hf]|[[Hr Hf]|[[Hr Hf]|[[Hr Hf]|Hf]]]]]]]];
    rewrite Hf.
  - (* ASCII *)
    reduce_table as_. intros [= <- <-]. repeat split; try lia. right. rewrite encode1 by lia. reflexivity.
  - (* two bytes *)
    reduce_table s1. unfold locb, hicb. split_tests; intros [= <- <-];
      try (unfold RuneError; repeat split; lia).
    rewrite rune2_arith by lia. repeat split; try lia.
    right. rewrite encode2 by lia. cbn [firstn]. repeat f_equal; lia.
  - (* E0 *)
    reduce_table s2. unfold locb, hicb. split_tests; intros [= <- <-];
      try (unfold RuneError; repeat split; lia).
    rewrite rune3_arith by lia. repeat split; try lia.
    right. rewrite encode3 by lia. cbn [firstn]. repeat f_equal; lia.
  - (* E1..EC, EE..EF *)
    reduce_table s3. unfold locb, hicb. split_tests; intros [= <- <-];
      try (unfold RuneError; repeat split; lia).
    rewrite rune3_arith by lia. repeat split; try lia.
    right. rewrite encode3 by lia. cbn [firstn]. repeat f_equal; lia.
  - (* ED *)
    reduce_table s4. unfold locb, hicb. split_tests; intros [= <- <-];
      try (unfold RuneError; repeat split; lia).
    rewrite rune3_arith by lia. repeat split; try lia.
    right. rewrite encode3 by lia. cbn [firstn]. repeat f_equal; lia.
  - (* F0 *)
    reduce_table s5. unfold locb, hicb. split_tests; intros [= <- <-];
      try (unfold RuneError; repeat split; lia).
    rewrite rune4_arith by lia. repeat split; try lia.
    right. rewrite encode4 by lia. cbn [firstn]. repeat f_equal; lia.
  - (* F1..F3 *)
    reduce_table s6. unfold locb, hicb. split_tests; intros [= <- <-];
      try (unfold RuneError; repeat split; lia).
    rewrite rune4_arith by lia. repeat split; try lia.
    right. rewrite encode4 by lia. cbn [firstn]. repeat f_equal; lia.
  - (* F4 *)
    reduce_table s7. unfold locb, hicb. split_tests; intros [= <- <-];
      try (unfold RuneError; repeat split; lia).
    rewrite rune4_arith by lia. repeat split; try lia.
    right. rewrite encode4 by lia. cbn [firstn]. repeat f_equal; lia.
  - (* no encoding starts here *)
    reduce_table xx. intros [= <- <-]. unfold RuneError. repeat split; lia.
Qed.
End utf8_facts.

Module gostr_facts.
Import gostr utf8 utf8_facts.

Lemma byte_val_range c : is_byte (byte_val c).
Proof.
  unfold is_byte, byte_val. pose proof (N_ascii_bounded c). lia.
Qed.

Lemma byte_of_val c : byte_of (byte_val c) = c.
Proof.
  unfold byte_of. pose proof (byte_val_range c) as H. unfold is_byte in H.
  rewrite Z.mod_small by exact H.
  unfold byte_val. rewrite N2Z.id. apply ascii_N_embedding.
Qed.

Lemma at_range s i : is_byte (at_ s i).
Proof.
  unfold at_. destruct (String.get i s); [apply byte_val_range|].
  unfold is_byte. lia.
Qed.

Lemma append_cons c a b : (String c a ++ b)%string = String c (a ++ b)%string.
Proof. reflexivity. Qed.

Lemma append_nil b : (EmptyString ++ b)%string = b.
Proof. reflexivity. Qed.

Lemma take_drop n s : (take n s ++ drop n s)%string = s.
Proof.
  revert s. induction n as [|n IH]; intros [|c t]; cbn [take drop];
    rewrite ?append_cons, ?append_nil; try reflexivity.
  f_equal. apply IH.
Qed.

Lemma drop_length n s : String.length (drop n s) = (String.length s - n)%nat.
Proof.
  revert s. induction n as [|n IH]; intros [|c t]; cbn; try reflexivity.
  apply IH.
Qed.

(** The first bytes of a string, read through [at_]. *)
Lemma take_bytes s n :
  (n <= 4)%nat -> (n <= String.length s)%nat ->
  take n s = of_bytes (firstn n [at_ s 0; at_ s 1; at_ s 2; at_ s 3]).
Proof.
  intros H4 Hn.
  destruct s as [|c0 [|c1 [|c2 [|c3 s]]]];
    destruct n as [|[|[|[|[|n]]]]]; cbn [String.length] in Hn; try lia;
    cbn; unfold at_; cbn; rewrite ?byte_of_val; reflexivity.
Qed.

Lemma DecodeRune_sound s r size :
  s <> EmptyString -> DecodeRuneInString s = (r, size) ->
  (1 <= size <= String.length s)%nat /\ 0 <= r
  /\ ((r = RuneError /\ size = 1%nat) \/ AppendRune r = take size s).
Proof.
  intros Hs Hd. unfold DecodeRuneInString in Hd.
  assert (Hlen : 1 <= len s).
  { unfold len. destruct s; [congruence|]. cbn [String.length]. lia. }
  destruct (decode_sound _ _ _ _ _ _ _ (at_range s 0) (at_range s 1)
              (at_range s 2) (at_range s 3) Hlen Hd) as (H1 & H2 & H3 & H4).
  unfold len in H2.
  assert (Hsz : (size <= 4)%nat).
  { revert Hd. unfold decode.
    repeat match goal with
    | |- context [if ?c then _ else _] => destruct c
    end; intros [= <- <-]; lia. }
  repeat split; try lia.
  destruct H4 as [H4|H4]; [left; exact H4|right].
  unfold AppendRune. rewrite H4. symmetry. apply take_bytes; lia.
Qed.

End gostr_facts.

Module SanitizeText_facts.
Import gostr utf8 ir utf8_facts gostr_facts.

Lemma problematic_stripped r : 0 <= r -> problematic r = stripped_control r.
Proof.
  intros Hr. unfold problematic, stripped_control.
  destruct (Z.eqb_spec r 0), (Z.leb_spec 0 r), (Z.ltb_spec r 0x20),
    (Z.eqb_spec r 0x09), (Z.eqb_spec r 0x0A), (Z.eqb_spec r 0x0D);
    cbn; try reflexivity; lia.
Qed.

Lemma is_empty_spec s : is_empty s = true <-> s = EmptyString.
Proof. destruct s; cbn; split; congruence. Qed.

Lemma concat_str_app a b :
  concat_str (a ++ b) = (concat_str a ++ concat_str b)%string.
Proof.
  induction a as [|x a IH]; cbn; [reflexivity|].
  rewrite IH. clear.
  induction x as [|c x IHx]; rewrite ?append_cons, ?append_nil; [reflexivity|].
  f_equal. exact IHx.
Qed.

(** The loop of [SanitizeText] keeps exactly the segments the
    specification keeps. *)
Lemma SanitizeText_loop_spec fuel s :
  (String.length s <= fuel)%nat ->
  SanitizeText_loop fuel s
  = concat_str (map (keep_segment stripped_control) (segments_loop fuel s)).
Proof.
  revert s. induction fuel as [|fuel IH]; intros s Hlen; [reflexivity|].
  cbn [SanitizeText_loop segments_loop].
  destruct (is_empty s) eqn:He; [reflexivity|].
  assert (Hs : s <> EmptyString) by (intros ->; discriminate).
  destruct (DecodeRuneInString s) as [r size] eqn:Hd.
  destruct (DecodeRune_sound s r size Hs Hd) as (Hsz & Hr & Henc).
  destruct ((r =? RuneError) && Nat.eqb size 1) eqn:Herr.
  - cbn [map keep_segment concat_str]. rewrite append_nil.
    apply IH. rewrite drop_length. lia.
  - cbn [map keep_segment concat_str].
    rewrite <- (problematic_stripped r Hr).
    destruct Henc as [[-> ->]|Henc].
    { unfold RuneError in Herr. discriminate. }
    destruct (problematic r).
    + rewrite append_nil. apply IH. rewrite drop_length. lia.
    + rewrite Henc. f_equal. apply IH. rewrite drop_length. lia.
Qed.

(** The segments cut the input without losing or moving a byte. *)
Lemma segments_loop_partition fuel s :
  (String.length s <= fuel)%nat ->
  concat_str (map segment_bytes (segments_loop fuel s)) = s.
Proof.
  revert s. induction fuel as [|fuel IH]; intros s Hlen.
  - destruct s; [reflexivity|cbn in Hlen; lia].
  - cbn [segments_loop].
    destruct (is_empty s) eqn:He; [apply is_empty_spec in He; subst; reflexivity|].
    assert (Hs : s <> EmptyString) by (intros ->; discriminate).
    destruct (DecodeRuneInString s) as [r size] eqn:Hd.
    destruct (DecodeRune_sound s r size Hs Hd) as (Hsz & Hr & Henc).
    destruct ((r =? RuneError) && Nat.eqb size 1);
      cbn [map segment_bytes concat_str]; rewrite IH
        by (rewrite drop_length; lia); apply take_drop.
Qed.

(** On the fast path nothing is to be stripped. *)
Lemma fast_path_spec fuel s :
  (String.length s <= fuel)%nat ->
  valid_loop fuel s = true -> hasProblematicChars_loop fuel s = false ->
  concat_str (map (keep_segment stripped_control) (segments_loop fuel s)) = s.
Proof.
  revert s. induction fuel as [|fuel IH]; intros s Hlen Hv Hp.
  - destruct s; [reflexivity|cbn in Hlen; lia].
  - cbn [segments_loop valid_loop hasProblematicChars_loop] in *.
    destruct (is_empty s) eqn:He; [apply is_empty_spec in He; subst; reflexivity|].
    assert (Hs : s <> EmptyString) by (intros ->; discriminate).
    destruct (DecodeRuneInString s) as [r size] eqn:Hd.
    destruct (DecodeRune_sound s r size Hs Hd) as (Hsz & Hr & Henc).
    destruct ((r =? RuneError) && Nat.eqb size 1); [discriminate|].
    cbn [map keep_segment concat_str].
    rewrite <- (problematic_stripped r Hr).
    destruct (problematic r); [discriminate|].
    rewrite IH by (try rewrite drop_length; try lia; assumption).
    apply take_drop.
Qed.

(** C9 (as amended): [SanitizeText] removes every byte that does not
    start a well-formed UTF-8 encoding and every control character
    below 0x20 other than tab, newline and carriage return (NUL is
    removed); all other characters stay, byte for byte and in order.
    The segments it judges are a partition of the input, so a string
    none of whose segments is removed comes back identical. *)
Theorem C9_SanitizeText_keeps_all_but_invalid_and_controls (s : string) :
  SanitizeText s = sanitize_spec stripped_control s
  /\ concat_str (map segment_bytes (segments s)) = s
  /\ ((forall g, In g (segments s) ->
         keep_segment stripped_control g = segment_bytes g) ->
      SanitizeText s = s)
  /\ stripped_control 0x09 = false /\ stripped_control 0x0A = false
  /\ stripped_control 0x0D = false /\ stripped_control 0 = true
  /\ (forall r, 0x20 <= r -> stripped_control r = false).
Proof.
  assert (Hspec : SanitizeText s = sanitize_spec stripped_control s).
  { unfold SanitizeText, sanitize_spec, segments.
    destruct (is_empty s) eqn:He.
    - apply is_empty_spec in He. subst. reflexivity.
    - cbn [orb]. unfold ValidString, hasProblematicChars.
      destruct (valid_loop (String.length s) s) eqn:Hv; cbn [andb].
      + destruct (hasProblematicChars_loop (String.length s) s) eqn:Hp; cbn [negb].
        * apply SanitizeText_loop_spec. lia.
        * symmetry. apply fast_path_spec; [lia|assumption|assumption].
      + apply SanitizeText_loop_spec. lia. }
  assert (Hpart : concat_str (map segment_bytes (segments s)) = s)
    by (apply segments_loop_partition; lia).
  split; [exact Hspec|]. split; [exact Hpart|]. split.
  { intros Hkeep. rewrite Hspec. unfold sanitize_spec.
    rewrite (map_ext_in _ _ _ Hkeep). exact Hpart. }
  do 4 (split; [reflexivity|]).
  intros r Hr. unfold stripped_control.
  destruct (Z.ltb_spec r 0x20); [lia|]. rewrite andb_false_r. reflexivity.
Qed.

(** C9, the claim as stated, fails: with NUL exempted from stripping
    the string a NUL b would come back unchanged, but the code drops
    the NUL. *)
Lemma C9_counterexample_NUL_is_stripped :
  SanitizeText samples.nul_between = "ab"%string
  /\ sanitize_spec stripped_control_keeping_NUL samples.nul_between = samples.nul_between
  /\ SanitizeText samples.nul_between <> samples.nul_between.
Proof. vm_compute. repeat split; discriminate. Qed.

End SanitizeText_facts.

(** ** The thought-signature cache *)

Module cache_facts.
Import gostr cache.

Lemma is_empty_true s : is_empty s = true <-> s = EmptyString.
Proof. destruct s; cbn; split; congruence. Qed.

(** What the checks of a write and of [HasValidThoughtSignature] accept,
    on the trimmed signature. *)
Lemma checks_accept sig :
  (if is_empty sig then false
   else if String.eqb sig skipThoughtSignatureLiteral then true
   else minThoughtSignatureLength <=? len sig) = true
  <-> acceptable sig.
Proof.
  unfold acceptable. destruct (is_empty sig) eqn:He.
  - apply is_empty_true in He. subst. split; [discriminate|].
    intros [H|H]; [discriminate|]. vm_compute in H. congruence.
  - destruct (String.eqb sig skipThoughtSignatureLiteral) eqn:Hq.
    + apply String.eqb_eq in Hq. tauto.
    + apply String.eqb_neq in Hq. rewrite Z.leb_le. tauto.
Qed.

(** C6 (as amended): the check is made on the signature with leading
    and trailing white space removed: it succeeds exactly when the
    trimmed signature is the sentinel or has 50 bytes or more; the
    empty string fails it. *)
Theorem C6_HasValidThoughtSignature_on_trimmed (s : string) :
  (HasValidThoughtSignature s = true
   <-> (strings.TrimSpace s = skipThoughtSignatureLiteral
        \/ minThoughtSignatureLength <= len (strings.TrimSpace s)))
  /\ HasValidThoughtSignature EmptyString = false.
Proof.
  split; [|reflexivity].
  unfold HasValidThoughtSignature. apply checks_accept.
Qed.

(** C6, the claim as stated, fails: fifty blanks have length 50 and are
    not accepted, and the sentinel with a blank in front is accepted
    though it is neither the sentinel nor 50 bytes long. *)
Lemma C6_counterexample_blanks :
  ~ (HasValidThoughtSignature samples.blanks50 = true
     <-> (samples.blanks50 = skipThoughtSignatureLiteral
          \/ minThoughtSignatureLength <= len samples.blanks50))
  /\ ~ (HasValidThoughtSignature samples.padded_sentinel = true
        <-> (samples.padded_sentinel = skipThoughtSignatureLiteral
             \/ minThoughtSignatureLength <= len samples.padded_sentinel)).
Proof.
  split.
  - intros [_ H]. assert (Hf : HasValidThoughtSignature samples.blanks50 = false)
      by (vm_compute; reflexivity).
    rewrite H in Hf; [discriminate|]. right. vm_compute. discriminate.
  - intros [H _]. destruct H as [H|H].
    + vm_compute. reflexivity.
    + discriminate H.
    + vm_compute in H. apply H. reflexivity.
Qed.

Lemma all_acceptable_empty : all_acceptable ∅.
Proof. intros sid entry H. rewrite lookup_empty in H. discriminate. Qed.

Lemma Cache_rejects now sid sig (c : gmap string thoughtSignatureEntry) :
  strings.TrimSpace sid = EmptyString \/ ~ acceptable (strings.TrimSpace sig) ->
  CacheSessionThoughtSignature now sid sig c = c.
Proof.
  intros H. unfold CacheSessionThoughtSignature. cbv zeta.
  destruct (is_empty (strings.TrimSpace sid)) eqn:Hsid; [reflexivity|].
  destruct H as [H|H]; [rewrite H in Hsid; discriminate|].
  pose proof (checks_accept (strings.TrimSpace sig)) as Hc.
  destruct (is_empty (strings.TrimSpace sig)); [reflexivity|]. cbn [orb].
  destruct (String.eqb (strings.TrimSpace sig) skipThoughtSignatureLiteral).
  - exfalso. apply H, Hc. reflexivity.
  - cbn [negb andb].
    destruct (Z.ltb_spec (len (strings.TrimSpace sig)) minThoughtSignatureLength);
      [reflexivity|].
    exfalso. apply H, Hc. apply Z.leb_le. assumption.
Qed.

Lemma Cache_preserves now sid sig (c : gmap string thoughtSignatureEntry) :
  all_acceptable c -> all_acceptable (CacheSessionThoughtSignature now sid sig c).
Proof.
  intros Hc. unfold CacheSessionThoughtSignature. cbv zeta.
  pose proof (checks_accept (strings.TrimSpace sig)) as Hchk.
  destruct (is_empty (strings.TrimSpace sid)); [exact Hc|].
  destruct (is_empty (strings.TrimSpace sig)); [exact Hc|]. cbn [orb].
  assert (Hstore : acceptable (strings.TrimSpace sig) ->
    all_acceptable (<[strings.TrimSpace sid :=
       {| signature := strings.TrimSpace sig;
          expiresAt := now + thoughtSignatureTTL |}]> c)).
  { intros Hok k entry Hk. destruct (decide (strings.TrimSpace sid = k)) as [Heq|Hne]; [subst k|].
    - rewrite lookup_insert_eq in Hk. injection Hk as <-. exact Hok.
    - rewrite lookup_insert_ne in Hk by exact Hne. eapply Hc, Hk. }
  destruct (String.eqb (strings.TrimSpace sig) skipThoughtSignatureLiteral).
  - cbn [negb andb]. apply Hstore, Hchk. reflexivity.
  - cbn [negb andb].
    destruct (Z.ltb_spec (len (strings.TrimSpace sig)) minThoughtSignatureLength);
      [exact Hc|].
    apply Hstore, Hchk. apply Z.leb_le. assumption.
Qed.

Lemma Get_preserves now sid (c : gmap string thoughtSignatureEntry) :
  all_acceptable c ->
  all_acceptable (snd (GetSessionThoughtSignature now sid c))
  /\ (fst (GetSessionThoughtSignature now sid c) = EmptyString
      \/ acceptable (fst (GetSessionThoughtSignature now sid c))).
Proof.
  intros Hc. unfold GetSessionThoughtSignature. cbv zeta.
  destruct (is_empty (strings.TrimSpace sid)); [split; [exact Hc|left; reflexivity]|].
  destruct (c !! strings.TrimSpace sid) as [entry|] eqn:Hl;
    [|split; [exact Hc|left; reflexivity]].
  destruct (expiresAt entry <? now); cbn [fst snd].
  - split; [|left; reflexivity].
    intros k e Hk. apply lookup_delete_Some in Hk as [_ Hk]. eapply Hc, Hk.
  - split; [exact Hc|right]. eapply Hc, Hl.
Qed.

Lemma run_invariant ops (c : gmap string thoughtSignatureEntry) :
  all_acceptable c ->
  all_acceptable (fst (run ops c))
  /\ Forall (fun r => r = EmptyString \/ acceptable r) (snd (run ops c)).
Proof.
  revert c. induction ops as [|o ops IH]; intros c Hc; cbn [run].
  - split; [exact Hc|constructor].
  - destruct o as [now sid sig|now sid|sid|].
    + apply IH, Cache_preserves, Hc.
    + destruct (Get_preserves now sid c Hc) as [Hc' Hr].
      destruct (GetSessionThoughtSignature now sid c) as [r c'].
      cbn [fst snd] in *. specialize (IH c' Hc').
      destruct (run ops c') as [c'' rs]. cbn [fst snd] in *.
      destruct IH as [IH1 IH2]. split; [exact IH1|]. constructor; assumption.
    + apply IH. intros k e Hk. apply lookup_delete_Some in Hk as [_ Hk].
      eapply Hc, Hk.
    + apply IH, all_acceptable_empty.
Qed.

(** C10: from the empty cache, after any history of writes, reads,
    expiry deletions and clears, at any clock readings, every stored
    signature is the sentinel or at least 50 bytes long, and so is every
    non-empty string a read returned; a write whose trimmed session id
    is empty or whose trimmed signature is anything else leaves the
    cache as it was. *)
Theorem C10_cache_holds_only_acceptable_signatures (ops : list op) :
  (forall sid entry, fst (run ops ∅) !! sid = Some entry ->
     signature entry = skipThoughtSignatureLiteral
     \/ minThoughtSignatureLength <= len (signature entry))
  /\ Forall (fun r => r = EmptyString
                      \/ r = skipThoughtSignatureLiteral
                      \/ minThoughtSignatureLength <= len r) (snd (run ops ∅))
  /\ (forall now sid sig (c : gmap string thoughtSignatureEntry),
        strings.TrimSpace sid = EmptyString
        \/ ~ (strings.TrimSpace sig = skipThoughtSignatureLiteral
              \/ minThoughtSignatureLength <= len (strings.TrimSpace sig)) ->
        CacheSessionThoughtSignature now sid sig c = c).
Proof.
  destruct (run_invariant ops ∅ all_acceptable_empty) as [H1 H2].
  split; [exact H1|]. split; [exact H2|].
  intros now sid sig c H. apply Cache_rejects. exact H.
Qed.

End cache_facts.

(** ** The Gemini parser *)

Module gemini_facts.
Import gostr gjson ir to_ir.

Lemma wrap64_small z : - 2 ^ 63 <= z < 2 ^ 63 -> wrap64 z = z.
Proof. intros H. unfold wrap64. rewrite Z.mod_small; lia. Qed.

(** C5 (as amended): the prompt count stored is the upstream prompt
    count less the cached count, not below zero, plus the thoughts
    count, in Go's 64-bit arithmetic; the cached count is stored in
    [CachedTokens].  For counts between 0 and 2^62 no reduction
    happens. *)
Theorem C5_prompt_tokens_less_cached_plus_thoughts
    `{N : Numbers} (parsed : Result) (u : Usage) :
  parseGeminiUsage parsed = Some u ->
  let meta := Get parsed "usageMetadata" in
  let p := Int (Get meta "promptTokenCount") in
  let c := Int (Get meta "cachedContentTokenCount") in
  let t := Int (Get meta "thoughtsTokenCount") in
  PromptTokens u = wrap64 (Z.max 0 (wrap64 (p - c)) + t)
  /\ CachedTokens u = c
  /\ (0 <= p < 2 ^ 62 -> 0 <= c < 2 ^ 62 -> 0 <= t < 2 ^ 62 ->
      PromptTokens u = Z.max 0 (p - c) + t).
Proof.
  intros H meta p c t. unfold parseGeminiUsage in H. fold meta p c t in H.
  destruct (Exists meta); [|discriminate]. cbn [negb] in H.
  injection H as <-. cbn [PromptTokens CachedTokens].
  assert (E : (if wrap64 (p - c) <? 0 then 0 else wrap64 (p - c))
              = Z.max 0 (wrap64 (p - c))).
  { destruct (Z.ltb_spec (wrap64 (p - c)) 0); lia. }
  rewrite E. split; [reflexivity|]. split; [reflexivity|].
  intros Hp Hc Ht. rewrite (wrap64_small (p - c)) by lia.
  apply wrap64_small. lia.
Qed.

Lemma C5_witness :
  exists u, parseGeminiUsage (Some samples.usage_doc) = Some u
            /\ PromptTokens u = 9 /\ CachedTokens u = 4.
Proof.
  eexists. split; [reflexivity|].
  destruct (C5_prompt_tokens_less_cached_plus_thoughts
              (Some samples.usage_doc) _ eq_refl) as (H1 & H2 & H3).
  split; [exact H1|exact H2].
Defined.

(** C5, the claim as stated, fails: with 10 prompt tokens, 4 of them
    cached, the stored prompt count would be 6; the code stores 9,
    having added the 3 thoughts tokens. *)
Lemma C5_counterexample_thoughts_added :
  match parseGeminiUsage (Some samples.usage_doc) with
  | Some u =>
      PromptTokens u = 9 /\ PromptTokens u <> Z.max 0 (10 - 4)
      /\ CachedTokens u = 4
  | None => False
  end.
Proof. vm_compute. repeat split; discriminate. Qed.

Section chunk.
Context {N : Numbers} {T : Text} {E : Env}.

Lemma partEvents_no_Finish (part : Result) :
  existsb (fun e => EventType_eqb (ev_Type e) EventTypeFinish) (partEvents part)
  = false.
Proof.
  unfold partEvents.
  repeat match goal with
  | |- context [if ?c then _ else _] => destruct c
  | |- context [match parseGeminiInlineImage ?p with _ => _ end] =>
      destruct (parseGeminiInlineImage p)
  end; reflexivity.
Qed.

Lemma parts_no_Finish (parts : list JSON) :
  existsb (fun e => EventType_eqb (ev_Type e) EventTypeFinish)
    (flat_map (fun part => partEvents (Some part)) parts) = false.
Proof.
  induction parts as [|p parts IH]; [reflexivity|].
  cbn [flat_map]. rewrite existsb_app, partEvents_no_Finish, IH. reflexivity.
Qed.

Lemma upper_mapped_some upper :
  MapGeminiFinishReason_upper upper <> FinishReasonNone
  /\ MapGeminiFinishReason_upper' upper <> FinishReasonNone.
Proof.
  unfold MapGeminiFinishReason_upper, MapGeminiFinishReason_upper'.
  split; repeat match goal with
  | |- context [if ?c then _ else _] => destruct c
  end; discriminate.
Qed.

(** A Finish event for exactly the chunks that signal one, whatever
    reason map is plugged in, as long as it never answers "no reason". *)
Lemma ParseGeminiChunkWith_finish (mapReason : string -> FinishReason) rawJSON :
  (forall s, mapReason s <> FinishReasonNone) ->
  hasFinish (ParseGeminiChunkWith mapReason rawJSON) = true
  <-> (ExtractSSEData rawJSON = "[DONE]"%string
       \/ (ExtractSSEData rawJSON <> EmptyString
           /\ exists doc, ParseBytes (ExtractSSEData rawJSON) = Some doc
                          /\ carriesFinishReason doc = true)).
Proof.
  intros Hmap. unfold ParseGeminiChunkWith. cbv zeta.
  set (payload := ExtractSSEData rawJSON).
  destruct (Z.eqb_spec (len payload) 0) as [Hlen|Hlen].
  { assert (payload = EmptyString) as ->.
    { destruct payload; [reflexivity|]. unfold len in Hlen. cbn in Hlen. lia. }
    cbn [hasFinish existsb]. split; [discriminate|].
    intros [Hx|[Hx _]]; [discriminate|congruence]. }
  assert (Hne : payload <> EmptyString).
  { intros Heq. rewrite Heq in Hlen. apply Hlen. reflexivity. }
  destruct (String.eqb payload "[DONE]") eqn:Hdone.
  { apply String.eqb_eq in Hdone. cbn [hasFinish existsb zeroEvent ev_Type EventType_eqb orb]. tauto. }
  apply String.eqb_neq in Hdone.
  destruct (ParseBytes payload) as [doc|] eqn:Hparse.
  2:{ cbn [hasFinish]. split; [discriminate|].
      intros [Hx|(_ & doc & Hx & _)]; [contradiction|discriminate]. }
  destruct (Array (Get (Some doc) "candidates")) as [|candidate rest] eqn:Hc.
  { assert (Hno : carriesFinishReason doc = false)
      by (unfold carriesFinishReason; rewrite Hc; reflexivity).
    cbn [hasFinish existsb FinishReason_eqb negb]. split; [discriminate|].
    intros [Hx|(_ & doc' & Hx & Hy)]; [contradiction|].
    injection Hx as <-. congruence. }
  assert (Hcarry : carriesFinishReason doc
                   = Exists (Get (Some candidate) "finishReason"))
    by (unfold carriesFinishReason; rewrite Hc; reflexivity).
  destruct (Exists (Get (Some candidate) "finishReason")) eqn:Hfr.
  - assert (Hr : FinishReason_eqb
                   (mapReason (String_ (Get (Some candidate) "finishReason")))
                   FinishReasonNone = false).
    { specialize (Hmap (String_ (Get (Some candidate) "finishReason"))).
      destruct (mapReason _); try reflexivity. contradiction. }
    rewrite Hr. cbn [negb hasFinish].
    rewrite existsb_app. cbn [existsb finishEvent ev_Type EventType_eqb].
    rewrite orb_true_r.
    split; [|reflexivity]. intros _. right. split; [exact Hne|].
    exists doc. split; [reflexivity|exact Hcarry].
  - cbn [FinishReason_eqb negb hasFinish]. rewrite parts_no_Finish.
    split; [discriminate|].
    intros [Hx|(_ & doc' & Hx & Hy)]; [contradiction|].
    injection Hx as <-. congruence.
Qed.

(** C1: the events parsed from a chunk contain a Finish event exactly
    when the chunk, after SSE unwrapping, is the terminator [DONE] or
    is a JSON document whose first candidate carries a finishReason;
    this holds for both variants of the reason map.  So a document
    without finishReason yields no Finish event, whatever
    usageMetadata it has. *)
Theorem C1_Finish_iff_explicit_finishReason (rawJSON : string) :
  let signalled :=
    ExtractSSEData rawJSON = "[DONE]"%string
    \/ (ExtractSSEData rawJSON <> EmptyString
        /\ exists doc, ParseBytes (ExtractSSEData rawJSON) = Some doc
                       /\ carriesFinishReason doc = true) in
  (hasFinish (ParseGeminiChunk rawJSON) = true <-> signalled)
  /\ (hasFinish (ParseGeminiChunk' rawJSON) = true <-> signalled)
  /\ (forall doc,
        ParseBytes (ExtractSSEData rawJSON) = Some doc ->
        ExtractSSEData rawJSON <> "[DONE]"%string ->
        carriesFinishReason doc = false ->
        hasFinish (ParseGeminiChunk rawJSON) = false).
Proof.
  cbv zeta.
  assert (H1 := ParseGeminiChunkWith_finish MapGeminiFinishReason rawJSON
                  (fun s => proj1 (upper_mapped_some (ToUpper s)))).
  assert (H2 := ParseGeminiChunkWith_finish MapGeminiFinishReason' rawJSON
                  (fun s => proj2 (upper_mapped_some (ToUpper s)))).
  split; [exact H1|]. split; [exact H2|].
  intros doc Hdoc Hdone Hno.
  destruct (hasFinish (ParseGeminiChunk rawJSON)) eqn:Hf; [|reflexivity].
  apply H1 in Hf. destruct Hf as [Hf|(_ & doc' & Hp & Hc)]; [contradiction|].
  congruence.
Qed.

End chunk.

End gemini_facts.

(** ** Codex: grep argument sanitisation *)

Module codex_facts.
Import gostr gjson ir to_ir.

Section grep.
Context {N : Numbers} {T : Text}.

Lemma member_remove_other key k (m : list (string * JSON)) :
  k <> key -> member k (remove_member key m) = member k m.
Proof.
  intros Hne. induction m as [|[k0 v] m IH]; [reflexivity|].
  cbn [remove_member member].
  destruct (String.eqb k0 key) eqn:E0.
  - apply String.eqb_eq in E0. subst k0.
    destruct (String.eqb key k) eqn:E1; [|reflexivity].
    apply String.eqb_eq in E1. congruence.
  - cbn [member]. rewrite IH. reflexivity.
Qed.

Lemma member_absent key (m : list (string * JSON)) :
  ~ In key (keys m) -> member key m = None.
Proof.
  induction m as [|[k0 v] m IH]; [reflexivity|].
  cbn [keys map fst In member]. intros Hn.
  destruct (String.eqb k0 key) eqn:E0.
  - apply String.eqb_eq in E0. tauto.
  - apply IH. unfold keys. tauto.
Qed.

Lemma member_remove_same key (m : list (string * JSON)) :
  List.NoDup (keys m) -> member key (remove_member key m) = None.
Proof.
  induction m as [|[k0 v] m IH]; [reflexivity|].
  cbn [keys map fst remove_member]. intros Hnd.
  apply List.NoDup_cons_iff in Hnd as [Hnot Hnd].
  destruct (String.eqb k0 key) eqn:E0.
  - apply String.eqb_eq in E0. subst k0. apply member_absent, Hnot.
  - cbn [member]. rewrite E0. apply IH, Hnd.
Qed.

Lemma keys_remove_incl key (m : list (string * JSON)) k :
  In k (keys (remove_member key m)) -> In k (keys m).
Proof.
  induction m as [|[k0 v] m IH]; [tauto|].
  cbn [remove_member]. destruct (String.eqb k0 key).
  - cbn [keys map fst In]. tauto.
  - cbn [keys map fst In]. unfold keys in IH. tauto.
Qed.

Lemma NoDup_remove key (m : list (string * JSON)) :
  List.NoDup (keys m) -> List.NoDup (keys (remove_member key m)).
Proof.
  induction m as [|[k0 v] m IH]; [tauto|].
  cbn [keys map fst remove_member]. intros Hnd.
  apply List.NoDup_cons_iff in Hnd as [Hnot Hnd].
  destruct (String.eqb k0 key); [exact Hnd|].
  cbn [keys map fst]. apply List.NoDup_cons_iff. split; [|apply IH, Hnd].
  intros Hin. apply Hnot. eapply keys_remove_incl, Hin.
Qed.

(** C4 (as amended): for the tools grep and ripgrep_raw_search and an
    argument object with distinct member names.  The values 0, "0",
    "0.0" and the empty string count as zero.  The sanitiser acts
    only on a conflict, that is when -C is present together with -A
    or -B: then a non-zero -C removes -A and -B, and a zero -C is
    itself removed while -A and -B stay; every other member is as
    before.  Without a conflict the arguments come back unchanged,
    a lone zero -C included. *)
Theorem C4_grep_sanitiser_resolves_conflicts
    (toolName : string) (m : list (string * JSON)) :
  toolName = "grep"%string \/ toolName = "ripgrep_raw_search"%string ->
  List.NoDup (keys m) ->
  let args : Result := Some (JObject m) in
  let conflict :=
    Exists (Get args "-C") && (Exists (Get args "-A") || Exists (Get args "-B")) in
  (forall n, isZero (Some (JNumber n)) = (number_Int n =? 0))
  /\ isZero (Some (JString "0")) = true
  /\ isZero (Some (JString "0.0")) = true
  /\ isZero (Some (JString EmptyString)) = true
  /\ (conflict = false -> sanitizeCodexGrepArgs toolName args = args)
  /\ (conflict = true -> isZero (Get args "-C") = false ->
      exists m', sanitizeCodexGrepArgs toolName args = Some (JObject m')
        /\ member "-A" m' = None /\ member "-B" m' = None
        /\ forall k, k <> "-A"%string -> k <> "-B"%string ->
                     member k m' = member k m)
  /\ (conflict = true -> isZero (Get args "-C") = true ->
      exists m', sanitizeCodexGrepArgs toolName args = Some (JObject m')
        /\ member "-C" m' = None
        /\ forall k, k <> "-C"%string -> member k m' = member k m).
Proof.
  intros Htool Hnd args conflict.
  assert (Hknown : String.eqb toolName "grep"
                   || String.eqb toolName "ripgrep_raw_search" = true).
  { destruct Htool as [-> | ->]; reflexivity. }
  split; [intros n; reflexivity|]. do 3 (split; [reflexivity|]).
  unfold sanitizeCodexGrepArgs. fold args. cbv zeta. rewrite Hknown.
  cbn [negb andb]. subst conflict.
  destruct (Exists (Get args "-C")) eqn:HC; cbn [negb andb orb].
  2:{ split; [reflexivity|]. split; discriminate. }
  destruct (Exists (Get args "-A")) eqn:HA; cbn [negb andb orb];
    [|destruct (Exists (Get args "-B")) eqn:HB; cbn [negb andb orb]].
  3:{ split; [reflexivity|]. split; discriminate. }
  all: split; [discriminate|].
  all: split; intros _ Hz; rewrite Hz; cbn [negb].
  all: eexists; (split; [reflexivity|]).
  all: cbn [Delete].
  all: try (split; [|intros k Hk; apply member_remove_other; exact Hk]).
  all: try apply member_remove_same; try exact Hnd.
  all: split; [|split].
  all: try (intros k Hk1 Hk2;
            rewrite member_remove_other by exact Hk2;
            apply member_remove_other; exact Hk1).
  all: try (apply member_remove_same, NoDup_remove, Hnd).
  all: rewrite member_remove_other by discriminate.
  all: apply member_remove_same, Hnd.
Qed.

End grep.

(** Scenario 5 of the specification: with -C 3 the members -A and -B go. *)
Lemma C4_witness :
  sanitizeCodexGrepArgs (T := samples.IntegerText) "grep" (Some samples.grep_args_C3)
  = Some (JObject [("pattern"%string, JString "x"); ("-C"%string, samples.jnum 3)])
  /\ exists m',
       sanitizeCodexGrepArgs (T := samples.IntegerText) "grep"
         (Some samples.grep_args_C3) = Some (JObject m')
       /\ member "-A" m' = None /\ member "-B" m' = None.
Proof.
  split; [reflexivity|].
  destruct (C4_grep_sanitiser_resolves_conflicts (T := samples.IntegerText) "grep"
              [("pattern"%string, JString "x"); ("-C"%string, samples.jnum 3);
               ("-A"%string, samples.jnum 2); ("-B"%string, samples.jnum 0)])
    as (_ & _ & _ & _ & _ & H & _).
  - left. reflexivity.
  - repeat (apply List.NoDup_cons; [cbn; intuition discriminate|]). apply List.NoDup_nil.
  - destruct (H eq_refl eq_refl) as (m' & H1 & H2 & H3 & _).
    exists m'. split; [exact H1|]. split; [exact H2|exact H3].
Defined.

(** C4, the claim as stated, fails: -C is present with the value 0, yet
    it is not deleted when neither -A nor -B accompanies it. *)
Lemma C4_counterexample_lone_zero_C_stays :
  sanitizeCodexGrepArgs (T := samples.IntegerText) "grep"
    (Some samples.grep_args_lone_C0) = Some samples.grep_args_lone_C0
  /\ Exists (Get (Some samples.grep_args_lone_C0) "-C") = true
  /\ isZero (T := samples.IntegerText) (Get (Some samples.grep_args_lone_C0) "-C") = true
  /\ Get (sanitizeCodexGrepArgs (T := samples.IntegerText) "grep"
            (Some samples.grep_args_lone_C0)) "-C" <> None.
Proof. vm_compute. repeat split; discriminate. Qed.

End codex_facts.

(** ** Schema-driven argument fixing: the leading-zero protection *)

Module irfix_facts.
Import gostr irfix.

Section protection.
Context {F : Floats} {L : GoLib}.

(** [strings.ToLower] maps rune by rune: a leading ['0'] stays in
    front of the mapped rest, and only the empty string maps to the
    empty string. *)
Hypothesis ToLower_zero :
  forall s, ToLower (String "0" s) = String "0" (ToLower s).
Hypothesis ToLower_nonempty :
  forall s, ToLower s = EmptyString -> s = EmptyString.

Lemma protected_shape s :
  protected s -> exists c t, s = String "0" (String c t).
Proof.
  intros (Hp & Hne & _). destruct s as [|c0 [|c1 t]]; cbn [strings.HasPrefix] in Hp.
  - discriminate.
  - rewrite andb_true_r in Hp. apply Ascii.eqb_eq in Hp. subst. congruence.
  - rewrite andb_true_r in Hp. apply Ascii.eqb_eq in Hp. subst. eauto.
Qed.

Lemma protected_guard s : protected s -> leadingZeroGuard s = true.
Proof.
  intros Hs. destruct (protected_shape s Hs) as (c & t & ->).
  destruct Hs as (Hp & _ & Hdot). unfold leadingZeroGuard.
  rewrite Hp, Hdot. cbn [negb]. rewrite !andb_true_r.
  apply Z.ltb_lt. unfold len. cbn [String.length]. lia.
Qed.

(** No schema type makes the primitive correction touch a protected
    string. *)
Lemma fixPrimitive_protected lowerType s :
  protected s -> fixPrimitive lowerType (AString s) = AString s.
Proof.
  intros Hs. unfold fixPrimitive. rewrite (protected_guard s Hs).
  destruct (protected_shape s Hs) as (c & t & ->).
  rewrite ToLower_zero.
  destruct (ToLower (String c t)) as [|c' t'] eqn:Hl.
  { apply ToLower_nonempty in Hl. discriminate. }
  repeat match goal with
  | |- context [String.eqb (String "0" (String c' t')) ?w] =>
      change (String.eqb (String "0" (String c' t')) w) with false
  end.
  cbn [orb].
  repeat match goal with
  | |- context [if ?b then _ else _] => destruct b
  end; reflexivity.
Qed.

Lemma fixSingleArg_protected_leaf schema s :
  protected s -> fixSingleArg (AString s) schema = AString s.
Proof.
  intros Hs. cbn [fixSingleArg].
  destruct (index schema "properties") as [[| | | | |props]|];
    try (destruct (String.eqb _ "array");
         [destruct (index schema "items") as [[| | | | |items]|]; reflexivity
         |apply fixPrimitive_protected, Hs]).
  reflexivity.
Qed.

(** Rewriting the values of a map entry by entry does not move them. *)
Lemma index_map_values (g : string -> any -> any) (m : list (string * any)) k :
  index (map (fun kv : string * any => (fst kv, g (fst kv) (snd kv))) m) k
  = option_map (g k) (index m k).
Proof.
  induction m as [|[k0 v] m IH]; [reflexivity|].
  cbn [map fst snd index]. destruct (String.eqb k0 k) eqn:E.
  - apply String.eqb_eq in E. subst. reflexivity.
  - exact IH.
Qed.

Lemma fix_entries_eq props (m : list (string * any)) :
  map (fun kv : string * any =>
         match kv with
         | (k, v) =>
             match index props k with
             | Some (AMap psMap) =>
                 let updated := fixSingleArg v psMap in
                 if is_nil updated then (k, v) else (k, updated)
             | _ => (k, v)
             end
         end) m
  = map (fun kv : string * any => (fst kv, fix_entry props (fst kv) (snd kv))) m.
Proof.
  apply map_ext. intros [k v]. cbn [fst snd]. unfold fix_entry.
  destruct (index props k) as [[| | | | |ps]|]; try reflexivity.
  cbv zeta. destruct (is_nil (fixSingleArg v ps)); reflexivity.
Qed.

Lemma at_path_app v p1 p2 :
  at_path v (p1 ++ p2)
  = match at_path v p1 with Some c => at_path c p2 | None => None end.
Proof.
  revert v. induction p1 as [|[k|i] p1 IH]; intros v; cbn [app at_path]; [reflexivity|..].
  - destruct v as [| | | | |m]; try reflexivity.
    destruct (index m k); [apply IH|reflexivity].
  - destruct v as [| | | |l|]; try reflexivity.
    destruct (nth_error l i); [apply IH|reflexivity].
Qed.

(** *** The descent of [fixSingleArg] and the schema it carries *)

Lemma properties_cases (schema : list (string * any)) :
  (exists props, index schema "properties" = Some (AMap props))
  \/ (forall props, index schema "properties" <> Some (AMap props)).
Proof.
  destruct (index schema "properties") as [[| | | | |props]|];
    try (right; intros ?; discriminate).
  left. exists props. reflexivity.
Qed.

Lemma fixSingleArg_properties val schema props :
  index schema "properties" = Some (AMap props) ->
  fixSingleArg val schema
  = match val with
    | AMap valMap =>
        AMap (map (fun kv : string * any =>
                     (fst kv, fix_entry props (fst kv) (snd kv))) valMap)
    | _ => val
    end.
Proof.
  intros H. destruct val; cbn [fixSingleArg]; rewrite H; try reflexivity.
  rewrite fix_entries_eq. reflexivity.
Qed.

Lemma fixSingleArg_no_properties val schema :
  (forall props, index schema "properties" <> Some (AMap props)) ->
  fixSingleArg val schema
  = if String.eqb (ToLower (typeOf schema)) "array" then
      match index schema "items" with
      | Some (AMap items) =>
          match val with
          | ASlice valArr =>
              ASlice (map (fun item =>
                             let updated := fixSingleArg item items in
                             if is_nil updated then item else updated) valArr)
          | _ => val
          end
      | _ => val
      end
    else fixPrimitive (ToLower (typeOf schema)) val.
Proof.
  intros H. unfold typeOf.
  destruct val; cbn [fixSingleArg];
    destruct (index schema "properties") as [[| | | | |props]|] eqn:Hp;
    try reflexivity; exfalso; apply (H props); reflexivity.
Qed.

Lemma schema_at_key schema props k ps rest :
  index schema "properties" = Some (AMap props) ->
  index props k = Some (AMap ps) ->
  schema_at schema (Key k :: rest) = schema_at ps rest.
Proof. intros H1 H2. cbn [schema_at]. rewrite H1, H2. reflexivity. Qed.

Lemma schema_at_idx schema items i rest :
  (forall props, index schema "properties" <> Some (AMap props)) ->
  String.eqb (ToLower (typeOf schema)) "array" = true ->
  index schema "items" = Some (AMap items) ->
  schema_at schema (Idx i :: rest) = schema_at items rest.
Proof.
  intros H1 H2 H3. cbn [schema_at]. rewrite H2, H3.
  destruct (index schema "properties") as [[| | | | |props]|] eqn:Hp;
    try reflexivity. exfalso. apply (H1 props). reflexivity.
Qed.

Lemma kept_or_rendered_refl v schema path s :
  at_path v path = Some (AString s) -> kept_or_rendered v v schema path s.
Proof. intros H. left. exact H. Qed.

Lemma kept_or_rendered_under_key m m' k c c' schema props ps rest s :
  index schema "properties" = Some (AMap props) ->
  index props k = Some (AMap ps) ->
  index m k = Some c -> index m' k = Some c' ->
  kept_or_rendered c c' ps rest s ->
  kept_or_rendered (AMap m) (AMap m') schema (Key k :: rest) s.
Proof.
  intros Hprops Hps Hm Hm' [H|(p1 & p2 & box & declared & -> & Hp2 & Hb & Hs & Hd & Ha)].
  - left. cbn [at_path]. rewrite Hm'. exact H.
  - right. exists (Key k :: p1), p2, box, declared.
    rewrite (schema_at_key schema props k ps p1 Hprops Hps).
    cbn [at_path]. rewrite Hm, Hm'. repeat split; assumption.
Qed.

Lemma kept_or_rendered_under_idx l l' i c c' schema items rest s :
  (forall props, index schema "properties" <> Some (AMap props)) ->
  String.eqb (ToLower (typeOf schema)) "array" = true ->
  index schema "items" = Some (AMap items) ->
  nth_error l i = Some c -> nth_error l' i = Some c' ->
  kept_or_rendered c c' items rest s ->
  kept_or_rendered (ASlice l) (ASlice l') schema (Idx i :: rest) s.
Proof.
  intros Hno Harr Hitems Hl Hl'
    [H|(p1 & p2 & box & declared & -> & Hp2 & Hb & Hs & Hd & Ha)].
  - left. cbn [at_path]. rewrite Hl'. exact H.
  - right. exists (Idx i :: p1), p2, box, declared.
    rewrite (schema_at_idx schema items i p1 Hno Harr Hitems).
    cbn [at_path]. rewrite Hl, Hl'. repeat split; assumption.
Qed.

(** The primitive correction leaves a container alone, or renders it
    when the type is string. *)
Lemma fixPrimitive_container lowerType v :
  (exists m, v = AMap m) \/ (exists l, v = ASlice l) ->
  fixPrimitive lowerType v = v
  \/ (String.eqb lowerType "string" = true
      /\ fixPrimitive lowerType v = AString (Sprint v)).
Proof.
  intros [[m ->]|[l ->]]; unfold fixPrimitive;
    destruct (String.eqb lowerType "number" || String.eqb lowerType "integer");
    try (left; reflexivity);
    destruct (String.eqb lowerType "boolean"); try (left; reflexivity);
    destruct (String.eqb lowerType "string"); try (left; reflexivity);
    right; split; reflexivity.
Qed.

Lemma container_outcome v schema sel rest s :
  (exists m, v = AMap m) \/ (exists l, v = ASlice l) ->
  at_path v (sel :: rest) = Some (AString s) ->
  kept_or_rendered v (fixPrimitive (ToLower (typeOf schema)) v) schema (sel :: rest) s.
Proof.
  intros Hv Hp.
  destruct (fixPrimitive_container (ToLower (typeOf schema)) v Hv) as [-> | [Hd ->]].
  - left. exact Hp.
  - right. exists [], (sel :: rest), v, schema.
    split; [reflexivity|]. split; [discriminate|]. split; [reflexivity|].
    split; [reflexivity|]. split; [exact Hd|reflexivity].
Qed.

Lemma fixSingleArg_protected path :
  forall val schema s,
    protected s -> at_path val path = Some (AString s) ->
    kept_or_rendered val (fixSingleArg val schema) schema path s.
Proof.
  induction path as [|sel rest IH]; intros val schema s Hs Hp.
  - cbn [at_path] in Hp. injection Hp as ->. left. cbn [at_path].
    rewrite fixSingleArg_protected_leaf by exact Hs. reflexivity.
  - destruct sel as [k|i]; cbn [at_path] in Hp.
    + destruct val as [| | | | |m]; try discriminate.
      destruct (index m k) as [c|] eqn:Hc; [|discriminate].
      assert (Hhere : at_path (AMap m) (Key k :: rest) = Some (AString s)).
      { cbn [at_path]. rewrite Hc. exact Hp. }
      destruct (properties_cases schema) as [[props Hprops]|Hno].
      * rewrite (fixSingleArg_properties _ _ _ Hprops).
        assert (Hc' : index (map (fun kv : string * any =>
                                    (fst kv, fix_entry props (fst kv) (snd kv))) m) k
                      = Some (fix_entry props k c)).
        { rewrite index_map_values, Hc. reflexivity. }
        unfold fix_entry in Hc' |- *.
        destruct (index props k) as [[| | | | |ps]|] eqn:Hps;
          try (left; cbn [at_path]; rewrite Hc'; exact Hp).
        cbv zeta in Hc'. specialize (IH c ps s Hs Hp).
        destruct (is_nil (fixSingleArg c ps)).
        -- left. cbn [at_path]. rewrite Hc'. exact Hp.
        -- exact (kept_or_rendered_under_key m _ k c (fixSingleArg c ps) schema props ps
                    rest s Hprops Hps Hc Hc' IH).
      * rewrite (fixSingleArg_no_properties _ _ Hno).
        destruct (String.eqb (ToLower (typeOf schema)) "array").
        -- destruct (index schema "items") as [[| | | | |items]|];
             apply kept_or_rendered_refl; exact Hhere.
        -- apply container_outcome; [left; eauto|exact Hhere].
    + destruct val as [| | | |l|]; try discriminate.
      destruct (nth_error l i) as [c|] eqn:Hc; [|discriminate].
      assert (Hhere : at_path (ASlice l) (Idx i :: rest) = Some (AString s)).
      { cbn [at_path]. rewrite Hc. exact Hp. }
      destruct (properties_cases schema) as [[props Hprops]|Hno].
      * rewrite (fixSingleArg_properties _ _ _ Hprops).
        apply kept_or_rendered_refl. exact Hhere.
      * rewrite (fixSingleArg_no_properties _ _ Hno).
        destruct (String.eqb (ToLower (typeOf schema)) "array") eqn:Harr.
        -- destruct (index schema "items") as [[| | | | |items]|] eqn:Hitems;
             try (apply kept_or_rendered_refl; exact Hhere).
           specialize (IH c items s Hs Hp).
           apply (kept_or_rendered_under_idx l _ i c
                    (if is_nil (fixSingleArg c items) then c else fixSingleArg c items)
                    schema items rest s Hno Harr Hitems Hc).
           ++ rewrite nth_error_map, Hc. reflexivity.
           ++ destruct (is_nil (fixSingleArg c items));
                [apply kept_or_rendered_refl; exact Hp|exact IH].
        -- apply container_outcome; [right; eauto|exact Hhere].
Qed.

(** C7 (as amended): a string value that begins with ['0'] and is
    neither ["0"] nor of the form ["0.x"] is never turned into a
    number or a boolean, whatever the schema declares and at every
    nesting depth: after [FixToolCallArgs] it is the same string at
    the same position, unless the schema declares an enclosing object
    or array a string, in which case that container as a whole has
    been replaced by its [%v] text.  [declared] is the schema the
    descent has reached at the container, and its type is string. *)
Theorem C7_leading_zero_strings_survive
    (args schema : list (string * any)) (path : list selector) (s : string) :
  protected s ->
  at_path (AMap args) path = Some (AString s) ->
  at_path (AMap (FixToolCallArgs args schema)) path = Some (AString s)
  \/ exists p1 p2 container declared,
       path = p1 ++ p2 /\ p1 <> [] /\ p2 <> []
       /\ at_path (AMap args) p1 = Some container
       /\ ((exists m, container = AMap m) \/ (exists l, container = ASlice l))
       /\ schema_at schema p1 = Some declared
       /\ declares_string declared = true
       /\ at_path (AMap (FixToolCallArgs args schema)) p1
          = Some (AString (Sprint container)).
Proof.
  intros Hs Hp.
  destruct (properties_cases schema) as [[props Hprops]|Hno].
  2:{ left. unfold FixToolCallArgs.
      destruct (index schema "properties") as [[| | | | |props]|] eqn:E;
        try exact Hp. exfalso. apply (Hno props). reflexivity. }
  assert (Hsame : AMap (FixToolCallArgs args schema)
                  = fixSingleArg (AMap args) schema).
  { unfold FixToolCallArgs. cbn [fixSingleArg]. rewrite Hprops. reflexivity. }
  rewrite Hsame.
  destruct (fixSingleArg_protected path (AMap args) schema s Hs Hp)
    as [H|(p1 & p2 & box & declared & Hpath & Hp2 & Hb & Hsch & Hd & Ha)];
    [left; exact H|right].
  exists p1, p2, box, declared. subst path.
  split; [reflexivity|]. split.
  { intros ->. rewrite <- Hsame in Ha. discriminate. }
  split; [exact Hp2|]. split; [exact Hb|]. split.
  { rewrite at_path_app, Hb in Hp. destruct p2 as [|[k|i] p2]; [congruence|..];
      cbn [at_path] in Hp; destruct box; try discriminate; eauto. }
  split; [exact Hsch|]. split; [exact Hd|exact Ha].
Qed.

End protection.

End irfix_facts.

Module irfix_samples.
Import gostr irfix irfix_facts.

Lemma ascii_lower_zero s :
  samples.ascii_lower (String "0" s) = String "0" (samples.ascii_lower s).
Proof. reflexivity. Qed.

Lemma ascii_lower_nonempty s :
  samples.ascii_lower s = EmptyString -> s = EmptyString.
Proof. destruct s; [reflexivity|discriminate]. Qed.

Lemma protected_007 : protected "007".
Proof. repeat split; [discriminate]. Qed.

(** Scenario 4 of the specification: the code 007 under a schema of
    type integer. *)
Lemma C7_witness :
  protected "007"
  /\ at_path (AMap samples.version_args) [Key "code"]
     = Some (AString "007")
  /\ (at_path
        (AMap (FixToolCallArgs (L := samples.IntegerGoLib)
                 samples.version_args samples.version_schema)) [Key "code"]
      = Some (AString "007")
      \/ exists p1 p2 container declared,
           [Key "code"] = p1 ++ p2 /\ p1 <> [] /\ p2 <> []
           /\ at_path (AMap samples.version_args) p1
              = Some container
           /\ ((exists m, container = AMap m) \/ (exists l, container = ASlice l))
           /\ schema_at (L := samples.IntegerGoLib) samples.version_schema p1
              = Some declared
           /\ declares_string (L := samples.IntegerGoLib) declared = true
           /\ at_path
                (AMap (FixToolCallArgs (L := samples.IntegerGoLib)
                         samples.version_args samples.version_schema)) p1
              = Some (AString (Sprint (GoLib := samples.IntegerGoLib) container))).
Proof.
  split; [exact protected_007|]. split; [reflexivity|].
  apply (C7_leading_zero_strings_survive (L := samples.IntegerGoLib)
           ascii_lower_zero ascii_lower_nonempty
           samples.version_args samples.version_schema [Key "code"] "007").
  - exact protected_007.
  - reflexivity.
Defined.

(** C7, the claim as stated, fails: the code 007 sits in an object that
    the schema declares a string; the object is replaced by its text
    and the value is no longer a string of the arguments. *)
Lemma C7_counterexample_container_rendered :
  at_path (AMap samples.nested_args)
    [Key "a"; Key "code"] = Some (AString "007")
  /\ FixToolCallArgs (L := samples.IntegerGoLib)
       samples.nested_args samples.nested_schema
     = [("a"%string, AString "map[code:007]")]
  /\ at_path
       (AMap (FixToolCallArgs (L := samples.IntegerGoLib)
                samples.nested_args samples.nested_schema))
       [Key "a"; Key "code"] <> Some (AString "007").
Proof. vm_compute. repeat split; discriminate. Qed.

End irfix_samples.

(** ** The streaming state machine *)

Module executor_facts.
Import gostr ir from_ir executor.

Lemma wrap64_id z : - 2 ^ 63 <= z < 2 ^ 63 -> wrap64 z = z.
Proof. intros H. unfold wrap64. rewrite Z.mod_small; lia. Qed.

(** *** One iteration *)

Ltac open_step st e :=
  unfold step;
  destruct (mapToolCallID st e) as [idMap toolCall] eqn:Hids;
  destruct (lineariseIndex st e) as [[effectiveIdx indexMap] toolCallIndex] eqn:Hlin.

Ltac step_branches :=
  repeat match goal with
  | |- context [match ev_Type ?e with _ => _ end] => destruct (ev_Type e) eqn:?
  | |- context [if ?b then _ else _] => destruct b eqn:?
  | |- context [match ?o with Some _ => _ | None => _ end] => destruct o eqn:?
  end.

Lemma step_HasContent st e :
  HasContent (fst (step st e)) = carries_content e || HasContent st.
Proof. open_step st e. step_branches; reflexivity. Qed.

Lemma step_FinishSent st e :
  FinishSent (fst (step st e)) = true
  <-> FinishSent st = true
      \/ (ev_Type e = EventTypeFinish /\ carries_content e || HasContent st = true).
Proof.
  open_step st e.
  destruct (ev_Type e) eqn:Ht;
    try (step_branches; cbn [fst FinishSent];
         (split; [intros H; left; exact H|intros [H|[H _]]; [exact H|discriminate H]])).
  destruct (FinishSent st) eqn:Hf; cbn [fst FinishSent].
  - split; [left|]; reflexivity.
  - destruct (carries_content e || HasContent st); cbn [negb fst FinishSent].
    + split; [right; split|]; reflexivity.
    + split; [discriminate|]. intros [H|[_ H]]; discriminate.
Qed.

(** What is handed to the chunk builder has the type of the event that
    came in. *)
Lemma step_Emit_type st e st' e' idx :
  step st e = (st', Emit e' idx) -> ev_Type e' = ev_Type e.
Proof.
  open_step st e. step_branches; intros [= <- <- <-]; cbn; congruence.
Qed.

(** A Finish is let through only once, and only with content seen. *)
Lemma step_Finish_emitted st e st' e' idx :
  ev_Type e = EventTypeFinish -> step st e = (st', Emit e' idx) ->
  FinishSent st = false /\ carries_content e || HasContent st = true
  /\ FinishSent st' = true.
Proof.
  intros Ht. open_step st e. rewrite Ht.
  destruct (FinishSent st); [discriminate|].
  destruct (carries_content e || HasContent st); [|discriminate].
  cbn [negb]. intros [= <- <- <-]. repeat split.
Qed.

Lemma step_Finish_dropped st e :
  ev_Type e = EventTypeFinish ->
  (FinishSent st = true -> snd (step st e) = Skip)
  /\ (carries_content e || HasContent st = false -> snd (step st e) = Skip)
  /\ (FinishSent st = false -> carries_content e || HasContent st = true ->
      exists e' idx, snd (step st e) = Emit e' idx /\ ev_Type e' = EventTypeFinish).
Proof.
  intros Ht. open_step st e. rewrite Ht. repeat split.
  - intros ->. reflexivity.
  - intros ->. destruct (FinishSent st); reflexivity.
  - intros -> ->. cbn [negb snd]. eexists _, _. split; [reflexivity|exact Ht].
Qed.

(** The chunk builder writes a finish reason for Finish events only. *)
Lemma ToOpenAIChunk_finish e model messageID idx c :
  ToOpenAIChunk e model messageID idx = ChunkBytes c ->
  is_finish_chunk c = true <-> ev_Type e = EventTypeFinish.
Proof.
  unfold ToOpenAIChunk, is_finish_chunk.
  destruct (ev_Type e); try discriminate;
    try destruct (ev_ToolCall e); try destruct (ev_Image e);
    intros [= <-]; cbn; split; congruence.
Qed.

(** *** One call, and a stream of calls *)

Lemma count_finish_app a b :
  count_finish (a ++ b) = (count_finish a + count_finish b)%nat.
Proof. unfold count_finish. rewrite filter_app, length_app. reflexivity. Qed.

Lemma count_finish_one c :
  count_finish [c] = if is_finish_chunk c then 1%nat else 0%nat.
Proof.
  unfold count_finish. cbn. destruct (is_finish_chunk c) eqn:E.
  - rewrite decide_True by reflexivity. reflexivity.
  - rewrite decide_False by discriminate. reflexivity.
Qed.

(** The chunks a call hands back are those it started with and then
    some; among the new ones at most one is a finish chunk, none if a
    finish was sent before the call, and one only if content has been
    seen by the end of the call. *)
Lemma openai_loop_finish model messageID events :
  forall st acc st' r,
    openai_loop model messageID events st acc = (st', r) ->
    (FinishSent st = true -> FinishSent st' = true)
    /\ (HasContent st' = true ->
        HasContent st = true \/ existsb carries_content events = true)
    /\ forall chunks, r = Chunks chunks ->
         exists new, chunks = acc ++ new
           /\ (count_finish new <= 1)%nat
           /\ (FinishSent st = true -> count_finish new = 0%nat)
           /\ (count_finish new = 1%nat ->
               FinishSent st' = true
               /\ (HasContent st = true \/ existsb carries_content events = true)).
Proof.
  induction events as [|e events IH]; intros st acc st' r Hrun; cbn [openai_loop] in Hrun.
  - injection Hrun as <- <-. split; [tauto|]. split; [tauto|].
    intros chunks [= <-]. exists []. rewrite app_nil_r.
    change (count_finish []) with 0%nat.
    split; [reflexivity|]. split; [lia|]. split; [reflexivity|discriminate].
  - pose proof (step_HasContent st e) as Hhc.
    pose proof (step_FinishSent st e) as Hfs.
    destruct (step st e) as [st1 out] eqn:Hstep. cbn [fst] in Hhc, Hfs.
    cbn [existsb].
    assert (Hcontent : forall st2 : UnifiedStreamState,
      (HasContent st2 = true ->
         HasContent st1 = true \/ existsb carries_content events = true) ->
      HasContent st2 = true ->
      HasContent st = true \/ carries_content e || existsb carries_content events = true).
    { intros st2 H H2. destruct (H H2) as [H3|H3].
      - rewrite Hhc in H3. apply orb_true_iff in H3 as [H3|H3]; [right|left; exact H3].
        rewrite H3. reflexivity.
      - right. rewrite H3. apply orb_true_r. }
    destruct out as [|e' idx|].
    + (* continue *)
      destruct (IH _ _ _ _ Hrun) as (I1 & I2 & I3).
      split; [intros H; apply I1, Hfs; left; exact H|].
      split; [apply Hcontent, I2|].
      intros chunks Hr. destruct (I3 chunks Hr) as (new & -> & N1 & N2 & N3).
      exists new. split; [reflexivity|]. split; [exact N1|].
      split; [intros H; apply N2, Hfs; left; exact H|].
      intros H. destruct (N3 H) as [N4 N5]. split; [exact N4|].
      destruct N5 as [N5|N5]; [|right; rewrite N5; apply orb_true_r].
      rewrite Hhc in N5. apply orb_true_iff in N5 as [N5|N5]; [right|left; exact N5].
      rewrite N5. reflexivity.
    + (* a call of the chunk builder *)
      pose proof (step_Emit_type _ _ _ _ _ Hstep) as Hty.
      destruct (ToOpenAIChunk e' model messageID idx) as [c| |] eqn:Hc.
      * destruct (IH _ _ _ _ Hrun) as (I1 & I2 & I3).
        split; [intros H; apply I1, Hfs; left; exact H|].
        split; [apply Hcontent, I2|].
        intros chunks Hr. destruct (I3 chunks Hr) as (new & -> & N1 & N2 & N3).
        exists (c :: new). rewrite <- app_assoc. split; [reflexivity|].
        change (c :: new) with ([c] ++ new).
        rewrite count_finish_app, count_finish_one.
        pose proof (ToOpenAIChunk_finish _ _ _ _ _ Hc) as Hfc. rewrite Hty in Hfc.
        destruct (is_finish_chunk c) eqn:Hfin.
        -- assert (Hf : ev_Type e = EventTypeFinish) by (apply Hfc; reflexivity).
           destruct (step_Finish_emitted _ _ _ _ _ Hf Hstep) as (F1 & F2 & F3).
           rewrite (N2 F3). split; [lia|]. split; [congruence|].
           intros _. split; [apply I1, F3|].
           apply orb_true_iff in F2 as [F2|F2]; [right|left; exact F2].
           rewrite F2. reflexivity.
        -- cbn [Nat.add]. split; [exact N1|].
           split; [intros H; apply N2, Hfs; left; exact H|].
           intros H. destruct (N3 H) as [N4 N5]. split; [exact N4|].
           destruct N5 as [N5|N5]; [|right; rewrite N5; apply orb_true_r].
           rewrite Hhc in N5. apply orb_true_iff in N5 as [N5|N5]; [right|left; exact N5].
           rewrite N5. reflexivity.
      * destruct (IH _ _ _ _ Hrun) as (I1 & I2 & I3).
        split; [intros H; apply I1, Hfs; left; exact H|].
        split; [apply Hcontent, I2|].
        intros chunks Hr. destruct (I3 chunks Hr) as (new & -> & N1 & N2 & N3).
        exists new. split; [reflexivity|]. split; [exact N1|].
        split; [intros H; apply N2, Hfs; left; exact H|].
        intros H. destruct (N3 H) as [N4 N5]. split; [exact N4|].
        destruct N5 as [N5|N5]; [|right; rewrite N5; apply orb_true_r].
        rewrite Hhc in N5. apply orb_true_iff in N5 as [N5|N5]; [right|left; exact N5].
        rewrite N5. reflexivity.
      * injection Hrun as <- <-.
        split; [intros H; apply Hfs; left; exact H|].
        split; [apply Hcontent; tauto|]. discriminate.
    + injection Hrun as <- <-.
      split; [intros H; apply Hfs; left; exact H|].
      split; [apply Hcontent; tauto|]. discriminate.
Qed.


Section streams.
Context {O : OtherTargets}.
Variables to model messageID : string.
Hypothesis openai_target : to = "openai"%string \/ to = "cline"%string.

Lemma convert_openai events st :
  convertUnifiedEventsToChunks events to model messageID st
  = match events with
    | [] => (st, Chunks [])
    | _ => openai_loop model messageID events st []
    end.
Proof.
  unfold convertUnifiedEventsToChunks.
  destruct events; [reflexivity|].
  destruct openai_target as [-> | ->]; reflexivity.
Qed.

Lemma convert_finish events st st' r :
  convertUnifiedEventsToChunks events to model messageID st = (st', r) ->
  (FinishSent st = true -> FinishSent st' = true)
  /\ (HasContent st' = true ->
      HasContent st = true \/ existsb carries_content events = true)
  /\ forall chunks, r = Chunks chunks ->
       (count_finish chunks <= 1)%nat
       /\ (FinishSent st = true -> count_finish chunks = 0%nat)
       /\ (count_finish chunks = 1%nat ->
           FinishSent st' = true
           /\ (HasContent st = true \/ existsb carries_content events = true)).
Proof.
  rewrite convert_openai. intros Hrun.
  assert (Hloop : openai_loop model messageID events st [] = (st', r)).
  { destruct events; [exact Hrun|exact Hrun]. }
  destruct (openai_loop_finish _ _ _ _ _ _ _ Hloop) as (I1 & I2 & I3).
  split; [exact I1|]. split; [exact I2|].
  intros chunks Hr. destruct (I3 chunks Hr) as (new & Hn & N). cbn [app] in Hn.
  subst new. exact N.
Qed.

Lemma stream_finish batches :
  forall st st' rs,
    stream to model messageID batches st = (st', rs) ->
    (count_finish (emitted rs) <= 1)%nat
    /\ (FinishSent st = true -> count_finish (emitted rs) = 0%nat)
    /\ (count_finish (emitted rs) = 1%nat ->
        HasContent st = true \/ existsb carries_content (concat batches) = true).
Proof.
  induction batches as [|b batches IH]; intros st st' rs Hrun; cbn [stream] in Hrun.
  - injection Hrun as <- <-. cbn. repeat split; try lia; discriminate.
  - destruct (convertUnifiedEventsToChunks b to model messageID st) as [st1 r] eqn:Hb.
    destruct (convert_finish _ _ _ _ Hb) as (C1 & C2 & C3).
    cbn [concat]. rewrite existsb_app.
    assert (Hrest : forall rs' : list conv_result,
      stream to model messageID batches st1 = (st', rs') ->
      (count_finish (emitted rs') <= 1)%nat
      /\ (FinishSent st = true -> count_finish (emitted rs') = 0%nat)
      /\ (count_finish (emitted rs') = 1%nat ->
          HasContent st = true
          \/ existsb carries_content b || existsb carries_content (concat batches) = true)).
    { intros rs' Hr. destruct (IH _ _ _ Hr) as (R1 & R2 & R3).
      split; [exact R1|]. split; [intros H; apply R2, C1, H|].
      intros H. destruct (R3 H) as [R|R]; [|right; rewrite R; apply orb_true_r].
      destruct (C2 R) as [R'|R']; [left; exact R'|right; rewrite R'; reflexivity]. }
    destruct r as [chunks| |].
    + destruct (stream to model messageID batches st1) as [st2 rs'] eqn:Hs.
      injection Hrun as <- <-. cbn [emitted]. rewrite count_finish_app.
      destruct (C3 chunks eq_refl) as (K1 & K2 & K3).
      destruct (IH _ _ _ Hs) as (R1 & R2 & R3).
      destruct (Hrest _ eq_refl) as (_ & _ & R3').
      destruct (Nat.eq_dec (count_finish chunks) 1%nat) as [E|E].
      * destruct (K3 E) as [K4 K5]. rewrite (R2 K4), E.
        split; [lia|]. split; [intros H; specialize (K2 H); lia|].
        intros _. destruct K5 as [K5|K5]; [left; exact K5|right; rewrite K5; reflexivity].
      * assert (E0 : count_finish chunks = 0%nat) by lia. rewrite E0. cbn [Nat.add].
        split; [exact R1|]. split; [intros H; apply R2, C1, H|exact R3'].
    + destruct (stream to model messageID batches st1) as [st2 rs'] eqn:Hs.
      injection Hrun as <- <-. cbn [emitted]. apply Hrest. reflexivity.
    + injection Hrun as <- <-. cbn. repeat split; try lia; discriminate.
Qed.

End streams.

(** *** The machine event by event *)

Lemma after_facts events :
  forall st0 st,
    after events st0 = Some st ->
    HasContent st = existsb carries_content events || HasContent st0
    /\ (FinishSent st0 = true -> FinishSent st = true)
    /\ (FinishSent st = false -> finish_emits events st0 = 0%nat).
Proof.
  induction events as [|e events IH]; intros st0 st Hrun; cbn [after] in Hrun.
  - injection Hrun as <-. cbn. tauto.
  - cbn [finish_emits existsb].
    pose proof (step_HasContent st0 e) as Hhc.
    pose proof (step_FinishSent st0 e) as Hfs.
    destruct (step st0 e) as [st1 out] eqn:Hstep. cbn [fst] in Hhc, Hfs.
    assert (Hnext : after events st1 = Some st) by (destruct out; [exact Hrun|exact Hrun|discriminate]).
    destruct (IH _ _ Hnext) as (I1 & I2 & I3).
    split; [rewrite I1, Hhc, orb_assoc, (orb_comm (existsb _ _)); reflexivity|].
    split; [intros H; apply I2, Hfs; left; exact H|].
    intros Hf. destruct out as [|e' idx|]; [apply I3, Hf| |discriminate].
    rewrite (I3 Hf), Nat.add_0_r.
    destruct (EventType_eqb (ev_Type e') EventTypeFinish) eqn:Ht; [|reflexivity].
    assert (Hty : ev_Type e = EventTypeFinish).
    { rewrite <- (step_Emit_type _ _ _ _ _ Hstep). destruct (ev_Type e'); try discriminate.
      reflexivity. }
    destruct (step_Finish_emitted _ _ _ _ _ Hty Hstep) as (_ & _ & F).
    rewrite (I2 F) in Hf. discriminate.
Qed.


Lemma after_no_finish events :
  forall st0 st,
    after events st0 = Some st -> FinishSent st0 = false ->
    finish_emits events st0 = 0%nat -> FinishSent st = false.
Proof.
  induction events as [|e events IH]; intros st0 st Hrun Hf0 Hn; cbn [after] in Hrun.
  - injection Hrun as <-. exact Hf0.
  - cbn [finish_emits] in Hn.
    pose proof (step_FinishSent st0 e) as Hfs.
    destruct (step st0 e) as [st1 out] eqn:Hstep. cbn [fst] in Hfs.
    assert (Hnext : after events st1 = Some st)
      by (destruct out; [exact Hrun|exact Hrun|discriminate]).
    destruct (FinishSent st1) eqn:Hf1.
    + exfalso. apply proj1 in Hfs. destruct (Hfs eq_refl) as [H|[Hty Hc]]; [congruence|].
      destruct (step_Finish_dropped st0 e Hty) as (_ & _ & D).
      destruct (D Hf0 Hc) as (e' & idx & Hout & Hty').
      rewrite Hstep in Hout. cbn [snd] in Hout. subst out.
      rewrite Hty' in Hn. cbn in Hn. lia.
    + eapply IH; [exact Hnext|exact Hf1|].
      destruct out as [|e' idx|]; [exact Hn|lia|discriminate].
Qed.

(** C2 (as amended): over one state, for the OpenAI / Cline target, a
    stream yields at most one finish chunk, and none when no event
    carried content.  Event by event: a Finish that arrives after a
    finish was sent is dropped; a Finish that arrives before any content
    (its own included) is dropped; a Finish handed to the chunk builder
    has content at or before it and no Finish handed over before it; and
    the first Finish that arrives with content seen is handed over. *)
Theorem C2_at_most_one_Finish_and_never_before_content
    {O : OtherTargets} (to model messageID : string)
    (batches : list (list UnifiedEvent)) :
  to = "openai"%string \/ to = "cline"%string ->
  let rs := snd (stream to model messageID batches NewOpenAIStreamState) in
  (finish_chunks rs <= 1)%nat
  /\ (existsb carries_content (concat batches) = false -> finish_chunks rs = 0%nat)
  /\ forall events st e,
       after events NewOpenAIStreamState = Some st ->
       ev_Type e = EventTypeFinish ->
       (FinishSent st = true -> snd (step st e) = Skip)
       /\ (existsb carries_content (events ++ [e]) = false -> snd (step st e) = Skip)
       /\ (forall e' idx, snd (step st e) = Emit e' idx ->
             existsb carries_content (events ++ [e]) = true
             /\ finish_emits events NewOpenAIStreamState = 0%nat)
       /\ (finish_emits events NewOpenAIStreamState = 0%nat ->
           existsb carries_content (events ++ [e]) = true ->
           exists e' idx, snd (step st e) = Emit e' idx
                          /\ ev_Type e' = EventTypeFinish).
Proof.
  intros Hto rs.
  destruct (stream to model messageID batches NewOpenAIStreamState) as [st' rs0] eqn:Hs.
  destruct (stream_finish to model messageID Hto batches _ _ _ Hs) as (S1 & _ & S3).
  subst rs. cbn [snd]. change (finish_chunks rs0) with (count_finish (emitted rs0)).
  split; [exact S1|]. split.
  { intros Hnone. destruct (Nat.eq_dec (count_finish (emitted rs0)) 1%nat) as [E|E]; [|lia].
    destruct (S3 E) as [H|H]; [discriminate|congruence]. }
  intros events st e Hafter Hty.
  destruct (after_facts events _ _ Hafter) as (A1 & _ & A3).
  cbn [HasContent NewOpenAIStreamState] in A1. rewrite orb_false_r in A1.
  assert (Hseen : existsb carries_content (events ++ [e])
                  = carries_content e || HasContent st).
  { rewrite existsb_app, A1. cbn [existsb]. rewrite orb_false_r. apply orb_comm. }
  rewrite Hseen.
  destruct (step_Finish_dropped st e Hty) as (D1 & D2 & D3).
  split; [exact D1|]. split; [exact D2|]. split.
  - intros e' idx Hout. destruct (step st e) as [st1 out] eqn:Hstep.
    cbn [snd] in Hout. subst out.
    destruct (step_Finish_emitted _ _ _ _ _ Hty Hstep) as (F1 & F2 & _).
    split; [exact F2|apply A3, F1].
  - intros Hn Hc. apply D3; [|exact Hc].
    eapply after_no_finish; [exact Hafter|reflexivity|exact Hn].
Qed.

End executor_facts.

Module executor_samples.
Import gostr ir from_ir executor executor_facts.

(** Scenario 7 of the specification, each event in a call of its own:
    one finish chunk. *)
Lemma C2_witness :
  finish_chunks
    (snd (stream (H := samples.OpenAIOnly) "openai" "m" "id"
            [[samples.token_hi]; [samples.tool_event EventTypeToolCall 0];
             [samples.finish_stop]; [samples.finish_stop]]
            NewOpenAIStreamState)) = 1%nat
  /\ (finish_chunks
        (snd (stream (H := samples.OpenAIOnly) "openai" "m" "id"
                [[samples.token_hi]; [samples.tool_event EventTypeToolCall 0];
                 [samples.finish_stop]; [samples.finish_stop]]
                NewOpenAIStreamState)) <= 1)%nat.
Proof.
  split; [reflexivity|].
  apply (C2_at_most_one_Finish_and_never_before_content (O := samples.OpenAIOnly)
           "openai" "m" "id").
  left. reflexivity.
Defined.

(** C2, the claim as stated, fails: a stream need not yield exactly one
    finish chunk.  When the only event is a Finish, it is dropped and the
    stream has none. *)
Lemma C2_counterexample_no_Finish_emitted :
  finish_chunks
    (snd (stream (H := samples.OpenAIOnly) "openai" "m" "id"
            [[samples.finish_stop]] NewOpenAIStreamState)) = 0%nat
  /\ finish_chunks
       (snd (stream (H := samples.OpenAIOnly) "openai" "m" "id"
               [[samples.finish_stop]] NewOpenAIStreamState)) <> 1%nat.
Proof. split; [reflexivity|discriminate]. Qed.

End executor_samples.

(** *** Linear tool-call indices *)

Module index_facts.
Import gostr ir from_ir executor executor_facts.

Lemma position_bounds x l k :
  position x l = Some k -> 0 <= k < Z.of_nat (length l).
Proof.
  revert k. induction l as [|y l IH]; intros k; cbn [position length]; [discriminate|].
  destruct (x =? y).
  - intros [= <-]. lia.
  - destruct (position x l) as [k'|]; [|discriminate].
    intros [= <-]. specialize (IH k' eq_refl). lia.
Qed.

Lemma position_app x l y :
  position x (l ++ [y])
  = match position x l with
    | Some k => Some k
    | None => if x =? y then Some (Z.of_nat (length l)) else None
    end.
Proof.
  induction l as [|z l IH]; cbn [app position length].
  - destruct (x =? y); reflexivity.
  - destruct (x =? z); [reflexivity|]. rewrite IH.
    destruct (position x l); [reflexivity|].
    destruct (x =? y); [|reflexivity]. f_equal. lia.
Qed.

Lemma position_None x l : position x l = None <-> existsb (Z.eqb x) l = false.
Proof.
  induction l as [|y l IH]; cbn [position existsb]; [tauto|].
  destruct (x =? y); cbn [orb]; [split; discriminate|].
  destruct (position x l); [|tauto].
  split; [discriminate|]. intros H. apply IH in H. discriminate.
Qed.

Lemma sightings_from_app seen events e :
  sightings_from seen (events ++ [e]) = next_seen (sightings_from seen events) e.
Proof.
  revert seen. induction events as [|x events IH]; intros seen; cbn [app sightings_from].
  - unfold next_seen. destruct (_ && _); reflexivity.
  - destruct (_ && _); apply IH.
Qed.

Lemma sightings_from_length seen events :
  (length seen <= length (sightings_from seen events) <= length seen + length events)%nat.
Proof.
  revert seen. induction events as [|x events IH]; intros seen; cbn [sightings_from length].
  - lia.
  - destruct (_ && _).
    + specialize (IH (seen ++ [ev_ToolCallIndex x])). rewrite length_app in IH.
      cbn [length] in IH. lia.
    + specialize (IH seen). lia.
Qed.

Lemma sightings_from_empty seen events :
  sightings_from seen events = []
  <-> seen = []
      /\ existsb (fun x => EventType_eqb (ev_Type x) EventTypeToolCall) events = false.
Proof.
  revert seen. induction events as [|x events IH]; intros seen;
    cbn [sightings_from existsb].
  - tauto.
  - destruct (EventType_eqb (ev_Type x) EventTypeToolCall) eqn:Ht; cbn [andb orb].
    + destruct (existsb (Z.eqb (ev_ToolCallIndex x)) seen) eqn:Hin; cbn [negb].
      * rewrite IH. split; [|intros [_ H]; discriminate].
        intros [-> _]. discriminate.
      * rewrite IH. split; [|intros [_ H]; discriminate].
        intros [H _]. destruct seen; discriminate.
    + apply IH.
Qed.

Lemma next_seen_NoDup seen e : List.NoDup seen -> List.NoDup (next_seen seen e).
Proof.
  intros Hnd. unfold next_seen.
  destruct (EventType_eqb (ev_Type e) EventTypeToolCall); cbn [andb]; [|exact Hnd].
  destruct (existsb (Z.eqb (ev_ToolCallIndex e)) seen) eqn:Hin; cbn [negb]; [exact Hnd|].
  apply List.NoDup_app; [exact Hnd|repeat constructor; intros []|].
  intros x Hx [<-|[]].
  assert (Ht : existsb (Z.eqb (ev_ToolCallIndex e)) seen = true).
  { apply existsb_exists. exists (ev_ToolCallIndex e). split; [exact Hx|apply Z.eqb_refl]. }
  congruence.
Qed.

Lemma sightings_NoDup events : List.NoDup (sightings events).
Proof.
  unfold sightings. induction events as [|e events IH] using rev_ind.
  - constructor.
  - rewrite sightings_from_app. apply next_seen_NoDup, IH.
Qed.

Lemma position_In x l k : position x l = Some k -> In x l.
Proof.
  revert k. induction l as [|y l IH]; intros k; cbn [position]; [discriminate|].
  destruct (Z.eqb_spec x y) as [->|_]; [left; reflexivity|].
  destruct (position x l) as [k'|]; [|discriminate].
  intros _. right. eapply IH. reflexivity.
Qed.

(** In a list without repetition every place is the position of its
    element. *)
Lemma position_nth l k :
  List.NoDup l -> 0 <= k < Z.of_nat (length l) ->
  exists x, position x l = Some k.
Proof.
  intros Hnd. revert k. induction Hnd as [|y l Hy Hnd IH]; intros k Hk;
    cbn [length] in Hk; [lia|].
  destruct (Z.eq_dec k 0) as [->|Hne].
  - exists y. cbn [position]. rewrite Z.eqb_refl. reflexivity.
  - destruct (IH (k - 1)) as (x & Hx); [lia|].
    exists x. cbn [position].
    destruct (Z.eqb_spec x y) as [->|_].
    + exfalso. apply Hy. eapply position_In, Hx.
    + rewrite Hx. f_equal. lia.
Qed.

(** What step 3 computes. *)
Lemma step_index st e :
  OutputIndexMap (fst (step st e)) = snd (fst (lineariseIndex st e))
  /\ ToolCallIndex (fst (step st e)) = snd (lineariseIndex st e)
  /\ forall e' idx, snd (step st e) = Emit e' idx ->
       idx = fst (fst (lineariseIndex st e)).
Proof.
  open_step st e. cbn [fst snd].
  step_branches; cbn [fst snd OutputIndexMap ToolCallIndex]; repeat split;
    try (intros e' idx; intros [= <- <-]; reflexivity); intros; discriminate.
Qed.

Lemma lineariseIndex_tracks st e seen :
  tracks st seen -> Z.of_nat (length seen) < 2 ^ 63 - 1 ->
  let '(idx, indexMap, toolCallIndex) := lineariseIndex st e in
  let u := ev_ToolCallIndex e in
  (forall u', indexMap !! u' = position u' (next_seen seen e))
  /\ toolCallIndex = Z.of_nat (length (next_seen seen e))
  /\ (is_tool_event (ev_Type e) = true ->
      match position u seen with
      | Some k => idx = k
      | None =>
          (ev_Type e = EventTypeToolCall /\ idx = Z.of_nat (length seen))
          \/ (ev_Type e = EventTypeToolCallDelta /\ idx = u)
      end).
Proof.
  intros [Hmap Htci] Hlen. unfold lineariseIndex, next_seen. cbv zeta.
  pose proof (position_None (ev_ToolCallIndex e) seen) as Hnone.
  rewrite (Hmap (ev_ToolCallIndex e)).
  destruct (position (ev_ToolCallIndex e) seen) as [k|] eqn:Hpos.
  - assert (Hin : existsb (Z.eqb (ev_ToolCallIndex e)) seen = true).
    { destruct (existsb _ seen); [reflexivity|]. apply proj2 in Hnone.
      discriminate (Hnone eq_refl). }
    rewrite Hin. cbn [negb]. rewrite andb_false_r.
    destruct (is_tool_event (ev_Type e)); repeat split; auto; discriminate.
  - rewrite (proj1 Hnone eq_refl). cbn [negb]. rewrite andb_true_r.
    unfold is_tool_event.
    destruct (ev_Type e) eqn:Ht; cbn [EventType_eqb orb]; repeat split; auto;
      try discriminate.
    + intros u'. rewrite position_app.
      destruct (Z.eqb_spec u' (ev_ToolCallIndex e)) as [->|Hne].
      * rewrite lookup_insert_eq, Hpos, Htci. reflexivity.
      * rewrite lookup_insert_ne by congruence. rewrite Hmap.
        destruct (position u' seen); reflexivity.
    + rewrite length_app. cbn [length]. rewrite Htci. rewrite wrap64_id; lia.
Qed.

Lemma step_tracks st e seen :
  tracks st seen -> Z.of_nat (length seen) < 2 ^ 63 - 1 ->
  tracks (fst (step st e)) (next_seen seen e).
Proof.
  intros Ht Hlen. pose proof (lineariseIndex_tracks st e seen Ht Hlen) as H.
  destruct (step_index st e) as (S1 & S2 & _).
  destruct (lineariseIndex st e) as [[idx indexMap] tci]. cbn [fst snd] in S1, S2.
  destruct H as (H1 & H2 & _). split.
  - intros u. rewrite S1. apply H1.
  - rewrite S2. exact H2.
Qed.

Lemma after_tracks events :
  forall st,
    after events NewOpenAIStreamState = Some st ->
    Z.of_nat (length events) < 2 ^ 63 - 1 ->
    tracks st (sightings events).
Proof.
  unfold sightings. induction events as [|e events IH] using rev_ind; intros st Hrun Hlen.
  - injection Hrun as <-. split; [intros u; apply lookup_empty|reflexivity].
  - rewrite length_app in Hlen. cbn [length] in Hlen.
    assert (Hsplit : exists st1, after events NewOpenAIStreamState = Some st1
                                 /\ fst (step st1 e) = st).
    { clear -Hrun. revert Hrun. generalize NewOpenAIStreamState.
      induction events as [|x events IHe]; intros st0 Hrun; cbn [app after] in *.
      - exists st0. split; [reflexivity|].
        destruct (step st0 e) as [st1 []]; cbn [fst]; congruence.
      - destruct (step st0 x) as [st1 []]; try discriminate; apply IHe, Hrun. }
    destruct Hsplit as (st1 & Hst1 & <-).
    rewrite sightings_from_app. apply step_tracks.
    + apply IH; [exact Hst1|lia].
    + pose proof (sightings_from_length [] events) as Hl. cbn [length] in Hl. lia.
Qed.

End index_facts.

(** *** Finish reasons and linear indices, as the stream sees them *)

Module stream_facts.
Import gostr ir from_ir executor executor_facts index_facts.

(** *** What a stream hands back, read off the events *)

Lemma built_app model messageID a b :
  built model messageID (a ++ b) = built model messageID a ++ built model messageID b.
Proof.
  induction a as [|[e idx] a IH]; [reflexivity|]. cbn [app built].
  destruct (ToOpenAIChunk e model messageID idx); rewrite IH; reflexivity.
Qed.

Lemma after_app a : forall b st,
  after (a ++ b) st
  = match after a st with Some st1 => after b st1 | None => None end.
Proof.
  induction a as [|e a IH]; intros b st; [reflexivity|]. cbn [app after].
  destruct (step st e) as [st1 [|e' idx|]]; try apply IH. reflexivity.
Qed.

Lemma outputs_app a : forall b st,
  outputs (a ++ b) st
  = outputs a st ++ match after a st with Some st1 => outputs b st1 | None => [] end.
Proof.
  induction a as [|e a IH]; intros b st; [reflexivity|]. cbn [app outputs after].
  destruct (step st e) as [st1 [|e' idx|]]; [apply IH| |reflexivity].
  rewrite IH. reflexivity.
Qed.

(** A call of the loop that returns its chunks has run the state
    machine over all its events and returns what the chunk builder made
    of the events handed to it. *)
Lemma loop_built model messageID events :
  forall st acc st' chunks,
    openai_loop model messageID events st acc = (st', Chunks chunks) ->
    after events st = Some st'
    /\ chunks = acc ++ built model messageID (outputs events st).
Proof.
  induction events as [|e events IH]; intros st acc st' chunks Hrun;
    cbn [openai_loop after outputs] in *.
  - injection Hrun as <- <-. rewrite app_nil_r. split; reflexivity.
  - destruct (step st e) as [st1 [|e' idx|]]; [apply IH, Hrun| |discriminate].
    cbn [built]. destruct (ToOpenAIChunk e' model messageID idx) as [c| |];
      [|apply IH, Hrun|discriminate].
    destruct (IH _ _ _ _ Hrun) as [Ha ->]. split; [exact Ha|].
    rewrite <- app_assoc. reflexivity.
Qed.

Lemma count_finish_built model messageID events :
  forall st, count_finish (built model messageID (outputs events st))
             = finish_emits events st.
Proof.
  induction events as [|e events IH]; intros st; [reflexivity|].
  cbn [outputs finish_emits].
  destruct (step st e) as [st1 [|e' idx|]]; [apply IH| |reflexivity].
  cbn [built].
  destruct (ToOpenAIChunk e' model messageID idx) as [c| |] eqn:Hc.
  - change (c :: built model messageID (outputs events st1))
      with ([c] ++ built model messageID (outputs events st1)).
    rewrite count_finish_app, count_finish_one, IH.
    pose proof (ToOpenAIChunk_finish _ _ _ _ _ Hc) as Hf.
    assert (Heq : is_finish_chunk c = EventType_eqb (ev_Type e') EventTypeFinish).
    { destruct (is_finish_chunk c).
      - rewrite (proj1 Hf eq_refl). reflexivity.
      - destruct (ev_Type e'); try reflexivity.
        pose proof (proj2 Hf eq_refl). discriminate. }
    rewrite Heq. reflexivity.
  - rewrite IH. unfold ToOpenAIChunk in Hc.
    destruct (ev_Type e'); try discriminate;
      try (destruct (ev_ToolCall e'); discriminate);
      try (destruct (ev_Image e'); discriminate); reflexivity.
  - rewrite IH. unfold ToOpenAIChunk in Hc.
    destruct (ev_Type e'); try discriminate;
      try (destruct (ev_ToolCall e'); discriminate);
      try (destruct (ev_Image e'); discriminate); reflexivity.
Qed.

Lemma finish_emits_sent events :
  forall st, FinishSent st = true -> finish_emits events st = 0%nat.
Proof.
  induction events as [|e events IH]; intros st Hs; [reflexivity|].
  cbn [finish_emits].
  assert (Hs1 : FinishSent (fst (step st e)) = true).
  { apply step_FinishSent. left. exact Hs. }
  destruct (step st e) as [st1 [|e' idx|]] eqn:Hstep; cbn [fst] in Hs1;
    [apply IH, Hs1| |reflexivity].
  rewrite (IH _ Hs1).
  destruct (EventType_eqb (ev_Type e') EventTypeFinish) eqn:Et; [|reflexivity].
  assert (Hty : ev_Type e = EventTypeFinish).
  { rewrite <- (step_Emit_type _ _ _ _ _ Hstep). destruct (ev_Type e'); try discriminate.
    reflexivity. }
  destruct (step_Finish_emitted _ _ _ _ _ Hty Hstep) as [Hf _]. congruence.
Qed.

Lemma count_finish_none chunks :
  count_finish chunks = 0%nat -> forall c, In c chunks -> is_finish_chunk c = false.
Proof.
  induction chunks as [|x chunks IH]; intros H c Hin; [destruct Hin|].
  change (x :: chunks) with ([x] ++ chunks) in H.
  rewrite count_finish_app, count_finish_one in H.
  destruct (is_finish_chunk x) eqn:Ex; [discriminate|].
  destruct Hin as [<-|Hin]; [exact Ex|apply IH; [exact H|exact Hin]].
Qed.

Section streams.
Context {O : OtherTargets}.
Variables to model messageID : string.
Hypothesis openai_target : to = "openai"%string \/ to = "cline"%string.

(** A stream whose calls all returned: the chunks handed back are what
    the chunk builder made of the events the state machine let through,
    over the events of all calls in order. *)
Lemma stream_built batches :
  forall st st' rs,
    stream to model messageID batches st = (st', rs) ->
    forallb returned rs = true ->
    after (concat batches) st = Some st'
    /\ emitted rs = built model messageID (outputs (concat batches) st).
Proof.
  induction batches as [|b batches IH]; intros st st' rs Hrun Hret;
    cbn [stream concat] in *.
  - injection Hrun as <- <-. split; reflexivity.
  - rewrite (convert_openai to model messageID openai_target) in Hrun.
    assert (Hb : exists st1 r,
               openai_loop model messageID b st [] = (st1, r)
               /\ (match r with
                   | ConvPanic => (st1, [ConvPanic])
                   | _ => let '(st2, rs') := stream to model messageID batches st1 in
                          (st2, r :: rs')
                   end) = (st', rs)).
    { destruct b as [|e b].
      - exists st, (Chunks []). split; [reflexivity|exact Hrun].
      - destruct (openai_loop model messageID (e :: b) st []) as [st1 r].
        exists st1, r. split; [reflexivity|]. destruct r; exact Hrun. }
    destruct Hb as (st1 & r & Hloop & Hrest).
    destruct r as [chunks| |]; [| |injection Hrest as <- <-; discriminate].
    2:{ destruct (stream to model messageID batches st1) as [st2 rs'].
        injection Hrest as <- <-. discriminate. }
    destruct (stream to model messageID batches st1) as [st2 rs'] eqn:Hs.
    injection Hrest as <- <-. cbn [forallb returned andb emitted] in *.
    destruct (loop_built _ _ _ _ _ _ _ Hloop) as [Ha ->]. cbn [app].
    destruct (IH _ _ _ Hs Hret) as [Ha' ->].
    rewrite after_app, Ha, outputs_app, Ha, built_app. split; [exact Ha'|reflexivity].
Qed.

End streams.

(** C3 (as amended), on the chunks a stream hands back.  The calls of
    the stream all returned, and [e] is a Finish event with the reason
    Stop that is let through: no finish was sent for the events before
    it and content was seen.  Then the stream holds exactly one finish
    chunk, and its [finish_reason] is tool_calls when an event of type
    ToolCall was processed before [e], and stop when none was, tool-call
    deltas or not. *)
Theorem C3_Stop_becomes_ToolCalls_after_tool_calls
    {O : OtherTargets} (to model messageID : string)
    (batches : list (list UnifiedEvent))
    (events rest : list UnifiedEvent) (e : UnifiedEvent) :
  to = "openai"%string \/ to = "cline"%string ->
  forallb returned (snd (stream to model messageID batches NewOpenAIStreamState))
  = true ->
  concat batches = events ++ e :: rest ->
  Z.of_nat (length events) < 2 ^ 63 - 1 ->
  ev_Type e = EventTypeFinish ->
  ev_FinishReason e = FinishReasonStop ->
  finish_emits events NewOpenAIStreamState = 0%nat ->
  existsb carries_content (events ++ [e]) = true ->
  let chunks := emitted (snd (stream to model messageID batches NewOpenAIStreamState)) in
  count_finish chunks = 1%nat
  /\ forall c, In c chunks -> is_finish_chunk c = true ->
       finish_reason c
       = Some (if existsb is_ToolCall events then "tool_calls"%string
               else "stop"%string).
Proof.
  intros Hto Hret Hcat Hlen Hty Hstop Hnone Hcontent chunks. subst chunks.
  destruct (stream to model messageID batches NewOpenAIStreamState) as [st' rs] eqn:Hrun.
  cbn [snd] in *.
  destruct (stream_built to model messageID Hto batches _ _ _ Hrun Hret) as [Hafter ->].
  rewrite Hcat in *. rewrite after_app in Hafter.
  destruct (after events NewOpenAIStreamState) as [st|] eqn:Hev; [|discriminate].
  destruct (after_tracks events st Hev Hlen) as [_ Htci].
  assert (Hpos : (0 <? ToolCallIndex st) = existsb is_ToolCall events).
  { rewrite Htci. pose proof (sightings_from_empty [] events) as He.
    fold (sightings events) in He. unfold is_ToolCall.
    destruct (existsb _ events).
    - apply Z.ltb_lt. destruct (sightings events); [|cbn [length]; lia].
      destruct (proj1 He eq_refl) as [_ H]. discriminate.
    - rewrite (proj2 He (conj eq_refl eq_refl)). reflexivity. }
  assert (Hsent : FinishSent st = false).
  { eapply after_no_finish; [exact Hev|reflexivity|exact Hnone]. }
  assert (Hhas : carries_content e || HasContent st = true).
  { destruct (after_facts events _ _ Hev) as [Hc _]. rewrite Hc.
    rewrite existsb_app in Hcontent. cbn [existsb] in Hcontent.
    rewrite orb_false_r in Hcontent. cbn [HasContent NewOpenAIStreamState].
    rewrite orb_false_r. rewrite orb_comm. exact Hcontent. }
  destruct (step st e) as [st2 out] eqn:Hstep.
  assert (Hout : exists e' idx,
             out = Emit e' idx /\ ev_Type e' = EventTypeFinish
             /\ ev_FinishReason e'
                = (if existsb is_ToolCall events
                   then FinishReasonToolCalls else FinishReasonStop)
             /\ FinishSent st2 = true).
  { revert Hstep. open_step st e. rewrite Hty.
    unfold lineariseIndex in Hlin. rewrite Hty in Hlin. cbn in Hlin.
    injection Hlin as <- <- <-. rewrite Hsent, Hhas. cbn [negb].
    intros [= <- <-]. eexists _, _. split; [reflexivity|].
    cbn [set_Finish ev_Type ev_FinishReason set_ToolCall FinishSent].
    split; [exact Hty|]. split; [|reflexivity]. unfold finishReasonFor.
    cbn [set_ToolCall ev_FinishReason]. rewrite Hstop, Hpos.
    cbn [FinishReason_eqb]. rewrite andb_true_r.
    destruct (existsb is_ToolCall events); reflexivity. }
  destruct Hout as (e' & idx & -> & Hty' & Hfr & Hsent2).
  rewrite outputs_app, Hev. cbn [outputs]. rewrite Hstep.
  assert (Hc : exists c,
             ToOpenAIChunk e' model messageID idx = ChunkBytes c
             /\ is_finish_chunk c = true
             /\ finish_reason c
                = Some (if existsb is_ToolCall events then "tool_calls"%string
                        else "stop"%string)).
  { unfold ToOpenAIChunk. rewrite Hty'. eexists. split; [reflexivity|].
    cbn [is_finish_chunk finish_reason]. split; [reflexivity|]. rewrite Hfr.
    destruct (existsb is_ToolCall events); reflexivity. }
  destruct Hc as (c & Hc & Hfin & Hreason).
  rewrite built_app. cbn [built]. rewrite Hc.
  assert (H0 : count_finish (built model messageID (outputs events NewOpenAIStreamState))
               = 0%nat).
  { rewrite count_finish_built. exact Hnone. }
  assert (H2 : count_finish (built model messageID (outputs rest st2)) = 0%nat).
  { rewrite count_finish_built. apply finish_emits_sent, Hsent2. }
  split.
  - change (c :: built model messageID (outputs rest st2))
      with ([c] ++ built model messageID (outputs rest st2)).
    rewrite !count_finish_app, count_finish_one, H0, H2, Hfin. reflexivity.
  - intros c0 Hin Hf. apply in_app_or in Hin as [Hin|[<-|Hin]].
    + rewrite (count_finish_none _ H0 c0 Hin) in Hf. discriminate.
    + exact Hreason.
    + rewrite (count_finish_none _ H2 c0 Hin) in Hf. discriminate.
Qed.

(** X27 (the linear index the state machine computes): the index
    computed for a tool-call event and passed to the chunk builder.  The
    upstream indices announced by ToolCall events, in the order of their
    first sighting, are numbered 0, 1, 2, ... without gaps: a ToolCall
    event with an upstream index not sighted before gets the next free
    number, and every later ToolCall or ToolCallDelta event with a
    sighted upstream index gets the number of that index.  A
    ToolCallDelta whose upstream index no ToolCall event announced keeps
    its upstream index. *)
Theorem linear_indices_number_first_sightings
    (events : list UnifiedEvent) (e : UnifiedEvent) (st st' : UnifiedStreamState)
    (e' : UnifiedEvent) (idx : Z) :
  Z.of_nat (length events) < 2 ^ 63 - 1 ->
  after events NewOpenAIStreamState = Some st ->
  is_tool_event (ev_Type e) = true ->
  step st e = (st', Emit e' idx) ->
  let u := ev_ToolCallIndex e in
  let seen := sightings events in
  (forall k, position u seen = Some k -> idx = k)
  /\ (position u seen = None -> ev_Type e = EventTypeToolCall ->
      idx = Z.of_nat (length seen) /\ sightings (events ++ [e]) = seen ++ [u])
  /\ (position u seen = None -> ev_Type e = EventTypeToolCallDelta -> idx = u)
  /\ (forall k, 0 <= k < Z.of_nat (length seen) <-> exists v, position v seen = Some k).
Proof.
  intros Hlen Hafter Htool Hstep u seen.
  pose proof (after_tracks events st Hafter Hlen) as Htr.
  assert (Hseen : Z.of_nat (length seen) < 2 ^ 63 - 1).
  { pose proof (sightings_from_length [] events) as Hl. cbn [length] in Hl.
    unfold seen, sightings. lia. }
  pose proof (lineariseIndex_tracks st e seen Htr Hseen) as Hlin.
  destruct (step_index st e) as (_ & _ & Hidx).
  specialize (Hidx e' idx). rewrite Hstep in Hidx. specialize (Hidx eq_refl).
  destruct (lineariseIndex st e) as [[idx0 indexMap] tci]. cbn [fst] in Hidx. subst idx0.
  destruct Hlin as (_ & _ & Hcase). specialize (Hcase Htool). fold u in Hcase.
  split; [|split; [|split]].
  - intros k Hk. rewrite Hk in Hcase. exact Hcase.
  - intros Hnone Hty. rewrite Hnone in Hcase.
    destruct Hcase as [[_ H]|[H _]]; [|congruence].
    split; [exact H|]. unfold sightings. rewrite sightings_from_app.
    fold (sightings events). fold seen. unfold next_seen. rewrite Hty. cbn [EventType_eqb].
    fold u. rewrite (proj1 (position_None u seen) Hnone). reflexivity.
  - intros Hnone Hty. rewrite Hnone in Hcase.
    destruct Hcase as [[H _]|[_ H]]; [congruence|exact H].
  - intros k. split.
    + apply position_nth, sightings_NoDup.
    + intros [v Hv]. eapply position_bounds, Hv.
Qed.

End stream_facts.

Module stream_samples.
Import gostr ir from_ir executor stream_facts.

(** Scenario 7 of the specification: after a token and a tool call, the
    Stop of the finish event goes out as tool_calls, in the one finish
    chunk of the stream. *)
Lemma C3_witness :
  map finish_reason
    (emitted (snd (stream (H := samples.OpenAIOnly) "openai" "m" "id"
                     [[samples.token_hi]; [samples.tool_event EventTypeToolCall 0];
                      [samples.finish_stop]]
                     NewOpenAIStreamState)))
  = [None; None; Some "tool_calls"%string]
  /\ count_finish
       (emitted (snd (stream (H := samples.OpenAIOnly) "openai" "m" "id"
                        [[samples.token_hi]; [samples.tool_event EventTypeToolCall 0];
                         [samples.finish_stop]]
                        NewOpenAIStreamState))) = 1%nat
  /\ forall c,
       In c (emitted (snd (stream (H := samples.OpenAIOnly) "openai" "m" "id"
                             [[samples.token_hi];
                              [samples.tool_event EventTypeToolCall 0];
                              [samples.finish_stop]]
                             NewOpenAIStreamState))) ->
       is_finish_chunk c = true ->
       finish_reason c = Some "tool_calls"%string.
Proof.
  split; [reflexivity|].
  apply (C3_Stop_becomes_ToolCalls_after_tool_calls (O := samples.OpenAIOnly)
           "openai" "m" "id"
           [[samples.token_hi]; [samples.tool_event EventTypeToolCall 0];
            [samples.finish_stop]]
           [samples.token_hi; samples.tool_event EventTypeToolCall 0] []
           samples.finish_stop).
  - left. reflexivity.
  - reflexivity.
  - reflexivity.
  - reflexivity.
  - reflexivity.
  - reflexivity.
  - reflexivity.
  - reflexivity.
Defined.

(** C3, the claim as stated, fails: tool-call deltas alone do not
    count.  A ToolCallDelta event is a tool-call event and goes out as a
    tool-call chunk, yet the Stop of the Finish behind it goes out as
    stop: only events of type ToolCall advance [ToolCallIndex]. *)
Lemma C3_counterexample_deltas_do_not_count :
  is_tool_event (ev_Type (samples.tool_event EventTypeToolCallDelta 0)) = true
  /\ map finish_reason
       (emitted (snd (stream (H := samples.OpenAIOnly) "openai" "m" "id"
                        [[samples.tool_event EventTypeToolCallDelta 0];
                         [samples.finish_stop]]
                        NewOpenAIStreamState)))
     = [None; Some "stop"%string]
  /\ Some "stop"%string <> Some "tool_calls"%string.
Proof. split; [reflexivity|]. split; [reflexivity|discriminate]. Qed.

(** Upstream indices 7 then 3: the second sighting gets the number 1. *)
Lemma linear_indices_number_first_sightings_witness :
  exists st st' e',
    after [samples.tool_event EventTypeToolCall 7] NewOpenAIStreamState = Some st
    /\ step st (samples.tool_event EventTypeToolCall 3) = (st', Emit e' 1)
    /\ sightings [samples.tool_event EventTypeToolCall 7;
                  samples.tool_event EventTypeToolCall 3] = [7; 3].
Proof.
  eexists _, _, _. split; [reflexivity|]. split; [reflexivity|].
  refine (proj2 (proj1 (proj2 (linear_indices_number_first_sightings
            [samples.tool_event EventTypeToolCall 7]
            (samples.tool_event EventTypeToolCall 3) _ _ _ 1 _ eq_refl eq_refl
            eq_refl)) eq_refl eq_refl)).
  reflexivity.
Defined.

(** A ToolCallDelta at upstream index 5 that no ToolCall event announced
    is the first tool-call chunk of its stream, and it goes out with the
    index 5. *)
Remark unannounced_delta_keeps_upstream_index :
  (exists st' e',
     step NewOpenAIStreamState (samples.tool_event EventTypeToolCallDelta 5)
     = (st', Emit e' 5))
  /\ emitted (snd (stream (H := samples.OpenAIOnly) "openai" "m" "id"
                     [[samples.tool_event EventTypeToolCallDelta 5]]
                     NewOpenAIStreamState))
     = [ {| chunk_id := "id"; chunk_model := "m";
            system_fingerprint := EmptyString;
            choice_delta := DeltaToolCall 5 EmptyString EmptyString
                              (Args samples.call_f);
            finish_reason := None; logprobs := None;
            content_filter_results := None; usage := None |} ].
Proof. split; [eexists _, _; reflexivity|reflexivity]. Qed.

(** C8: the indices on the chunks.  Two tool calls announced at the
    upstream indices 7 and 3: the state machine numbers them 0 and 1 and
    passes these numbers to the chunk builder, but the chunks go out
    with the indices 7 and 3.  [ToOpenAIChunk] does not use its
    parameter [chunkIndex]; [buildToolCallDelta] writes the event's own
    [ToolCallIndex], which the OpenAI / Cline loop leaves as it came,
    while the loop of the Gemini providers sets it to the linear index
    before the call ([wrapper.indexAndEmit]). *)
Lemma C8_chunks_carry_upstream_indices :
  map snd (outputs [samples.tool_event EventTypeToolCall 7;
                    samples.tool_event EventTypeToolCall 3]
             NewOpenAIStreamState) = [0; 1]
  /\ map choice_delta
       (emitted (snd (stream (H := samples.OpenAIOnly) "openai" "m" "id"
                        [[samples.tool_event EventTypeToolCall 7];
                         [samples.tool_event EventTypeToolCall 3]]
                        NewOpenAIStreamState)))
     = [DeltaToolCall 7 "call_1" "f" (Args samples.call_f);
        DeltaToolCall 3 "call_1" "f" (Args samples.call_f)]
  /\ map (fun o => ev_ToolCallIndex (fst o))
       (wrapper.outputs [samples.tool_event EventTypeToolCall 7;
                         samples.tool_event EventTypeToolCall 3]
          wrapper.NewAntigravityStreamState) = [0; 1].
Proof. split; [reflexivity|]. split; reflexivity. Qed.

End stream_samples.

(** * Part II, continued: the helpers around the translators *)

(** ** Slices, search and trimming of byte strings *)

Module strings_facts.
Import gostr utf8 strings gostr_facts.

Lemma length_app a b :
  String.length (a ++ b)%string = (String.length a + String.length b)%nat.
Proof.
  induction a as [|c a IH]; rewrite ?append_cons, ?append_nil; cbn [String.length];
    [reflexivity|]. rewrite IH. reflexivity.
Qed.

Lemma app_assoc a b c : ((a ++ b) ++ c)%string = (a ++ b ++ c)%string.
Proof.
  induction a as [|x a IH]; rewrite ?append_cons, ?append_nil; [reflexivity|].
  f_equal. exact IH.
Qed.

Lemma app_empty_r a : (a ++ EmptyString)%string = a.
Proof.
  induction a as [|x a IH]; rewrite ?append_cons, ?append_nil; [reflexivity|].
  f_equal. exact IH.
Qed.

Lemma take_all s : take (String.length s) s = s.
Proof. induction s as [|c s IH]; cbn; [reflexivity|]. f_equal. exact IH. Qed.

Lemma take_app a b : take (String.length a) (a ++ b)%string = a.
Proof.
  induction a as [|c a IH]; rewrite ?append_cons, ?append_nil; cbn [String.length take].
  - destruct b; reflexivity.
  - f_equal. exact IH.
Qed.

Lemma drop_app a b : drop (String.length a) (a ++ b)%string = b.
Proof.
  induction a as [|c a IH]; rewrite ?append_cons, ?append_nil; cbn [String.length drop];
    [reflexivity|exact IH].
Qed.

Lemma drop_drop n m s : drop n (drop m s) = drop (m + n) s.
Proof.
  revert s. induction m as [|m IH]; intros s; cbn [drop Nat.add]; [reflexivity|].
  destruct s as [|c s]; [destruct n; reflexivity|]. apply IH.
Qed.

Lemma drop_cons n c t : drop (S n) (String c t) = drop n t.
Proof. reflexivity. Qed.

Lemma drop_0 s : drop 0 s = s.
Proof. reflexivity. Qed.

Lemma at_cons_S c s i : at_ (String c s) (S i) = at_ s i.
Proof. reflexivity. Qed.

(** The last byte of a concatenation is the last byte of its second
    part. *)
Lemma at_last_app a b :
  b <> EmptyString ->
  at_ (a ++ b)%string (String.length (a ++ b)%string - 1)
  = at_ b (String.length b - 1).
Proof.
  intros Hb. induction a as [|c a IH]; rewrite ?append_cons, ?append_nil; [reflexivity|].
  cbn [String.length]. rewrite Nat.sub_succ, Nat.sub_0_r.
  assert (Hl : (String.length (a ++ b)%string
                = S (String.length (a ++ b)%string - 1))%nat).
  { rewrite length_app. destruct b; [congruence|]. cbn [String.length]. lia. }
  rewrite Hl at 1. rewrite at_cons_S. exact IH.
Qed.

(** *** TrimSpace *)

Lemma TrimSpace_skip c t :
  asciiSpace (byte_val c) = true -> TrimSpace (String c t) = TrimSpace t.
Proof.
  intros Hc. cbn [TrimSpace].
  assert (Hlt : (RuneSelf <=? byte_val c) = false).
  { unfold asciiSpace in Hc. unfold RuneSelf.
    destruct (Z.leb_spec 128 (byte_val c)); [|reflexivity].
    repeat match type of Hc with
    | context [?a =? ?b] => destruct (Z.eqb_spec a b); [lia|]
    end. discriminate. }
  rewrite Hlt, Hc. reflexivity.
Qed.

(** A string that begins and ends with printable ASCII has nothing to
    trim. *)
Lemma TrimSpace_bounded s : ascii_bounded s -> TrimSpace s = s.
Proof.
  intros (Hne & H0 & Hl). destruct s as [|c t]; [congruence|].
  unfold printable in H0, Hl.
  apply andb_true_iff in H0 as [H0a H0b]. apply andb_true_iff in Hl as [Hla Hlb].
  apply negb_true_iff in H0b, Hlb.
  cbn [TrimSpace]. change (at_ (String c t) 0) with (byte_val c) in H0a, H0b.
  assert (E : (RuneSelf <=? byte_val c) = false) by lia. rewrite E, H0b.
  cbn [String.length TrimSpace_stop]. cbn [String.length] in Hla, Hlb.
  rewrite Nat.sub_succ, Nat.sub_0_r in Hla, Hlb.
  assert (E' : (RuneSelf <=? at_ (String c t) (String.length t)) = false) by lia.
  rewrite E', Hlb. apply (take_all (String c t)).
Qed.

Lemma ascii_bounded_app a b :
  a <> EmptyString -> printable (at_ a 0) = true -> ascii_bounded b ->
  ascii_bounded (a ++ b)%string.
Proof.
  intros Ha Ha0 (Hb & _ & Hbl). destruct a as [|c a]; [congruence|].
  split; [rewrite append_cons; discriminate|]. split; [exact Ha0|].
  rewrite at_last_app by exact Hb. exact Hbl.
Qed.

Lemma ascii_bounded_nonempty s : ascii_bounded s -> is_empty s = false.
Proof. intros [H _]. destruct s; [congruence|reflexivity]. Qed.

(** *** Index *)

Lemma HasPrefix_app p r : HasPrefix (p ++ r)%string p = true.
Proof.
  induction p as [|c p IH]; rewrite ?append_cons, ?append_nil; cbn [HasPrefix].
  - destruct r; reflexivity.
  - rewrite Ascii.eqb_refl. exact IH.
Qed.

Lemma HasPrefix_spec s p :
  HasPrefix s p = true <-> exists r, s = (p ++ r)%string.
Proof.
  split.
  - revert s. induction p as [|c p IH]; intros s H.
    + exists s. reflexivity.
    + destruct s as [|d s]; [discriminate|]. cbn [HasPrefix] in H.
      apply andb_true_iff in H as [Hc Hp]. apply Ascii.eqb_eq in Hc. subst d.
      destruct (IH s Hp) as [r ->]. exists r. reflexivity.
  - intros [r ->]. apply HasPrefix_app.
Qed.

Lemma Index_bound s sub i :
  Index s sub = Some i -> (i + String.length sub <= String.length s)%nat.
Proof.
  revert i. induction s as [|c s IH]; intros i; cbn [Index].
  - destruct (HasPrefix EmptyString sub) eqn:Hp; [|discriminate].
    intros [= <-]. destruct sub; [cbn; lia|discriminate].
  - destruct (HasPrefix (String c s) sub) eqn:Hp.
    + intros [= <-]. apply HasPrefix_spec in Hp as [r Hr]. rewrite Hr, length_app. lia.
    + destruct (Index s sub) as [j|] eqn:Hj; [|discriminate].
      intros [= <-]. specialize (IH j eq_refl). cbn [String.length]. lia.
Qed.

(** What [Index] returns is an instance, and the first one. *)
Lemma Index_Some s sub i :
  Index s sub = Some i <->
  HasPrefix (drop i s) sub = true
  /\ (i <= String.length s)%nat
  /\ forall j, (j < i)%nat -> HasPrefix (drop j s) sub = false.
Proof.
  revert i. induction s as [|c s IH]; intros i; cbn [Index].
  - destruct (HasPrefix EmptyString sub) eqn:Hp.
    + split.
      * intros [= <-]. cbn [drop String.length]. repeat split; [exact Hp|lia|lia].
      * intros (_ & Hi & _). cbn in Hi. f_equal. lia.
    + split; [discriminate|]. intros (H & _ & _).
      destruct i; cbn [drop] in H; congruence.
  - destruct (HasPrefix (String c s) sub) eqn:Hp.
    + split.
      * intros [= <-]. cbn [drop]. repeat split; [exact Hp|lia|lia].
      * intros (_ & _ & Hmin). destruct i as [|i]; [reflexivity|].
        specialize (Hmin O ltac:(lia)). cbn [drop] in Hmin. congruence.
    + destruct i as [|i].
      * split.
        -- destruct (Index s sub); discriminate.
        -- intros (H & _ & _). cbn [drop] in H. congruence.
      * specialize (IH i). destruct (Index s sub) as [j|] eqn:Hj; cbn [option_map].
        -- split.
           ++ intros [= ->]. destruct IH as [IH _]. destruct (IH eq_refl) as (A & B & C).
              cbn [drop String.length]. repeat split; [exact A|lia|].
              intros [|k] Hk; cbn [drop]; [exact Hp|apply C; lia].
           ++ intros (A & B & C). cbn [drop String.length] in A, B.
              destruct IH as [_ IH]. f_equal. symmetry.
              assert (E : Some j = Some i); [|congruence].
              apply IH. repeat split; [exact A|lia|].
              intros k Hk. apply (C (S k)). lia.
        -- split; [discriminate|]. intros (A & B & C).
           cbn [drop String.length] in A, B. destruct IH as [_ IH].
           assert (E : @None nat = Some i); [|discriminate].
           apply IH. repeat split; [exact A|lia|].
           intros k Hk. apply (C (S k)). lia.
Qed.

Lemma Index_None s sub :
  Index s sub = None <->
  forall j, (j <= String.length s)%nat -> HasPrefix (drop j s) sub = false.
Proof.
  induction s as [|c s IH]; cbn [Index].
  - destruct (HasPrefix EmptyString sub) eqn:Hp.
    + split; [discriminate|]. intros H. specialize (H O ltac:(cbn; lia)).
      cbn [drop] in H. congruence.
    + split; [|reflexivity]. intros _ j Hj. cbn in Hj.
      replace j with O by lia. exact Hp.
  - destruct (HasPrefix (String c s) sub) eqn:Hp.
    + split; [discriminate|]. intros H. specialize (H O ltac:(lia)).
      cbn [drop] in H. congruence.
    + destruct (Index s sub) as [j|] eqn:Hj; cbn [option_map].
      * split; [discriminate|]. intros H. destruct IH as [_ IH].
        assert (E : Some j = @None nat); [|discriminate].
        apply IH. intros k Hk. apply (H (S k)). cbn [String.length]. lia.
      * split; [|reflexivity]. intros _ [|k] Hk; cbn [drop]; [exact Hp|].
        destruct IH as [IH _]. apply IH; [reflexivity|]. cbn [String.length] in Hk. lia.
Qed.

Lemma drop_app_lt j a b :
  (j <= String.length a)%nat -> drop j (a ++ b)%string = (drop j a ++ b)%string.
Proof.
  revert a. induction j as [|j IH]; intros a Hj; [reflexivity|].
  destruct a as [|c a]; [cbn in Hj; lia|].
  rewrite append_cons. cbn [drop]. apply IH. cbn in Hj. lia.
Qed.

(** The first instance in [a ++ sub ++ r] is the one written, when no
    instance begins inside [a]. *)
Lemma Index_app a sub r :
  (forall j, (j < String.length a)%nat ->
     HasPrefix (drop j a ++ sub ++ r)%string sub = false) ->
  Index (a ++ sub ++ r)%string sub = Some (String.length a).
Proof.
  intros H. apply Index_Some. repeat split.
  - rewrite drop_app. apply HasPrefix_app.
  - rewrite length_app. lia.
  - intros j Hj. rewrite drop_app_lt by lia. apply H. exact Hj.
Qed.

(** A single byte that does not occur in [a]. *)
Lemma Index_byte a c r :
  Index a (String c EmptyString) = None ->
  Index (a ++ String c r)%string (String c EmptyString) = Some (String.length a).
Proof.
  intros H. apply (Index_app a (String c EmptyString) r).
  intros j Hj.
  pose proof (proj1 (Index_None a _) H j ltac:(lia)) as Hd.
  pose proof (drop_length j a) as Hl.
  destruct (drop j a) as [|d t]; [cbn in Hl; lia|].
  rewrite append_cons. cbn [HasPrefix] in *.
  destruct (Ascii.eqb c d); [|reflexivity].
  destruct t; discriminate.
Qed.

(** A prefix test that reaches across a concatenation. *)
Lemma HasPrefix_split x y p :
  (String.length x < String.length p)%nat ->
  HasPrefix (x ++ y)%string p = true ->
  x = take (String.length x) p /\ HasPrefix y (drop (String.length x) p) = true.
Proof.
  revert p. induction x as [|c x IH]; intros p Hlen H.
  - rewrite append_nil in H. cbn [String.length take drop]. destruct p; split; assumption || reflexivity.
  - destruct p as [|d p]; [cbn in Hlen; lia|].
    rewrite append_cons in H. cbn [HasPrefix] in H.
    apply andb_true_iff in H as [Hc H]. apply Ascii.eqb_eq in Hc. subst d.
    cbn [String.length] in Hlen.
    destruct (IH p ltac:(lia) H) as [E1 E2].
    cbn [String.length take drop]. split; [f_equal; exact E1|exact E2].
Qed.

Lemma HasPrefix_short p r q :
  (String.length q <= String.length p)%nat ->
  HasPrefix (p ++ r)%string q = HasPrefix p q.
Proof.
  revert q. induction p as [|c p IH]; intros q Hlen.
  - destruct q; [|cbn in Hlen; lia]. rewrite append_nil. destruct r; reflexivity.
  - destruct q as [|d q]; [reflexivity|]. rewrite append_cons. cbn [HasPrefix].
    rewrite IH by (cbn in Hlen; lia). reflexivity.
Qed.

Lemma HasPrefix_trans s p q :
  HasPrefix s p = true -> HasPrefix p q = true -> HasPrefix s q = true.
Proof.
  intros H1 H2. apply HasPrefix_spec in H1 as [r1 ->].
  apply HasPrefix_spec in H2 as [r2 ->]. rewrite app_assoc. apply HasPrefix_app.
Qed.

Lemma HasPrefix_length s p : HasPrefix s p = true -> (String.length p <= String.length s)%nat.
Proof. intros H. apply HasPrefix_spec in H as [r ->]. rewrite length_app. lia. Qed.

(** An instance of [p] that begins inside [x] and ends behind it makes
    a proper suffix of [p] a prefix of [p]. *)
Lemma straddle x p r :
  (String.length x < String.length p)%nat ->
  HasPrefix (x ++ p ++ r)%string p = true ->
  x = take (String.length x) p /\ HasPrefix p (drop (String.length x) p) = true.
Proof.
  intros Hlen H. destruct (HasPrefix_split x _ p Hlen H) as [E1 E2].
  split; [exact E1|]. rewrite HasPrefix_short in E2; [exact E2|].
  rewrite drop_length. lia.
Qed.

Lemma Contains_false s sub :
  Contains s sub = false <-> Index s sub = None.
Proof. unfold Contains. destruct (Index s sub); split; congruence. Qed.

Lemma Contains_longer s p q :
  Contains s q = false -> HasPrefix p q = true -> Contains s p = false.
Proof.
  intros Hc Hp. apply Contains_false in Hc. apply Contains_false.
  destruct (Index s p) as [i|] eqn:Ei; [exfalso|reflexivity].
  apply Index_Some in Ei as (A & B & _).
  pose proof (proj1 (Index_None _ _) Hc i B) as HX.
  rewrite (HasPrefix_trans _ _ _ A Hp) in HX. discriminate HX.
Qed.

(** *** Replace *)

Lemma replace_loop_absent fuel s old new :
  Index s old = None -> replace_loop fuel s old new = s.
Proof. intros H. destruct fuel; cbn [replace_loop]; rewrite ?H; reflexivity. Qed.

Lemma ReplaceAll_absent s old new :
  Index s old = None -> ReplaceAll s old new = s.
Proof.
  intros H. unfold ReplaceAll. destruct (String.eqb old new); [reflexivity|].
  apply replace_loop_absent. exact H.
Qed.

End strings_facts.

(** ** internal/registry: provider prefixes *)

Module registry_facts.
Import gostr utf8 strings registry gostr_facts strings_facts.

Section labels.
Context {U : CaseTables}.

Ltac by_cases p :=
  repeat match goal with
  | |- context [String.eqb p ?k] =>
      destruct (String.eqb_spec p k) as [->|?]; cbn [orb]
  end.

Lemma label_of_id p :
  ToLower p = p -> TrimSpace p = p -> Index p " " = None ->
  p <> "openai-compatibility"%string ->
  labelToProviderID (providerIDToLabel p) = p.
Proof.
  intros Hlow Htrim Hsp Hoc. unfold providerIDToLabel. rewrite Hlow.
  by_cases p; try reflexivity; try congruence.
  unfold labelToProviderID. rewrite Htrim, Hlow.
  by_cases p; try congruence; try discriminate Hsp.
  rewrite ReplaceAll_absent by exact Hsp. exact Hlow.
Qed.

(** The label of an identifier is itself printable from end to end and
    free of the closing bracket. *)
Lemma label_shape p :
  ToLower p = p -> ascii_bounded p -> Index p "]" = None ->
  ascii_bounded (providerIDToLabel p) /\ Index (providerIDToLabel p) "]" = None.
Proof.
  intros Hlow Hb Hbr. unfold providerIDToLabel. rewrite Hlow.
  by_cases p; try (split; [repeat split; discriminate|reflexivity]).
  split; assumption.
Qed.

(** X1 (provider label round trip): a provider id in lower case, without
    blanks inside or around it, comes back from its display label:
    [labelToProviderID (providerIDToLabel p) = p].  This covers the ids
    with a label of their own (gemini-cli, aistudio, ...) and every other
    id, which is its own label.  The one id excluded,
    openai-compatibility, shares the label of openai and comes back as
    openai. *)
Theorem provider_label_round_trip (p : string) :
  ToLower p = p -> TrimSpace p = p -> Index p " " = None ->
  p <> "openai-compatibility"%string ->
  labelToProviderID (providerIDToLabel p) = p
  /\ labelToProviderID (providerIDToLabel "openai-compatibility") = "openai"%string.
Proof.
  intros Hlow Htrim Hsp Hoc. split; [|reflexivity].
  apply label_of_id; assumption.
Qed.

(** X2 (model id prefix round trip): a model id formatted with a provider
    prefix parses back to the same model id and provider id.  The provider
    id is in lower case and has no blank and no closing bracket; provider
    and model id begin and end with printable ASCII. *)
Theorem model_id_prefix_round_trip (p m : string) :
  ascii_bounded p -> ascii_bounded m -> ToLower p = p ->
  Index p " " = None -> Index p "]" = None ->
  p <> "openai-compatibility"%string ->
  ParseProviderPrefixedModelID (formatProviderPrefixedModelID p m) = (m, p).
Proof.
  intros Hp Hm Hlow Hsp Hbr Hoc.
  pose proof (label_of_id p Hlow (TrimSpace_bounded p Hp) Hsp Hoc) as Hid.
  destruct (label_shape p Hlow Hp Hbr) as [HL HLbr].
  unfold formatProviderPrefixedModelID.
  rewrite (TrimSpace_bounded p Hp), (TrimSpace_bounded m Hm).
  pose proof (ascii_bounded_nonempty p Hp) as Ep.
  pose proof (ascii_bounded_nonempty m Hm) as Em.
  rewrite Ep, Em. cbn [orb].
  set (L := providerIDToLabel p) in *.
  unfold ParseProviderPrefixedModelID.
  assert (Hall : ascii_bounded ("[" ++ L ++ "] " ++ m)%string).
  { apply ascii_bounded_app; [discriminate|reflexivity|].
    apply ascii_bounded_app; [apply HL|apply HL|].
    apply ascii_bounded_app; [discriminate|reflexivity|exact Hm]. }
  rewrite (TrimSpace_bounded _ Hall).
  rewrite append_cons, append_nil. cbn [is_empty HasPrefix negb].
  change (Ascii.eqb "[" "[") with true. cbn [andb].
  assert (Hidx : Index (String "[" (L ++ "] " ++ m)) "]" = Some (S (String.length L))).
  { change (String "[" (L ++ "] " ++ m))%string
      with (String "[" L ++ String "]" (String " " m))%string.
    apply (Index_byte (String "[" L) "]" (String " " m)).
    cbn [Index HasPrefix]. change (Ascii.eqb "]" "[") with false. cbn [andb].
    rewrite HLbr. reflexivity. }
  assert (HP : HasPrefix (L ++ "] " ++ m)%string EmptyString = true)
    by (destruct (L ++ "] " ++ m)%string; reflexivity).
  rewrite HP, Hidx. cbn [negb].
  assert (HLlen : (1 <= String.length L)%nat).
  { destruct HL as [HL0 _]. destruct L; [congruence|cbn; lia]. }
  assert (Hmlen : (1 <= String.length m)%nat).
  { destruct m; [discriminate|cbn; lia]. }
  assert (E1 : (S (String.length L) <=? 1)%nat = false) by (apply Nat.leb_gt; lia).
  assert (E2 : (String.length (String "[" (L ++ "] " ++ m))
                <=? S (String.length L) + 1)%nat = false).
  { apply Nat.leb_gt. cbn [String.length]. rewrite !length_app.
    cbn [String.length]. lia. }
  rewrite E1, E2. cbn [orb].
  replace (S (String.length L) + 1)%nat with (S (S (String.length L))) by lia.
  rewrite !drop_cons, drop_0, Nat.sub_succ, Nat.sub_0_r.
  rewrite take_app.
  assert (Hd : drop (S (String.length L)) (L ++ "] " ++ m)%string = String " " m).
  { replace (S (String.length L)) with (String.length L + 1)%nat by lia.
    rewrite <- (drop_drop 1 (String.length L)), drop_app. reflexivity. }
  rewrite Hd, (TrimSpace_skip " " m) by reflexivity.
  rewrite (TrimSpace_bounded m Hm), Em, (TrimSpace_bounded L HL), Hid.
  reflexivity.
Qed.

End labels.

Lemma provider_label_round_trip_witness :
  labelToProviderID (U := samples.ASCIICase)
    (providerIDToLabel (U := samples.ASCIICase) "aistudio") = "aistudio"%string.
Proof.
  apply (provider_label_round_trip (U := samples.ASCIICase) "aistudio");
    [reflexivity|reflexivity|reflexivity|discriminate].
Defined.

Lemma model_id_prefix_round_trip_witness :
  formatProviderPrefixedModelID (U := samples.ASCIICase) "gemini-cli" "gemini-2.5-pro"
  = "[Gemini CLI] gemini-2.5-pro"%string
  /\ ParseProviderPrefixedModelID (U := samples.ASCIICase)
       (formatProviderPrefixedModelID (U := samples.ASCIICase)
          "gemini-cli" "gemini-2.5-pro")
     = ("gemini-2.5-pro"%string, "gemini-cli"%string).
Proof.
  split; [reflexivity|].
  apply (model_id_prefix_round_trip (U := samples.ASCIICase));
    try reflexivity; try discriminate; repeat split; discriminate.
Defined.

End registry_facts.

(** ** Thought signatures carried in tool call IDs *)

Module toolid_facts.
Import gostr utf8 strings gostr_facts strings_facts helpers.


Lemma thought_first id sig :
  Contains id "__thought" = false ->
  Index (id ++ ThoughtSignatureSeparator ++ sig)%string ThoughtSignatureSeparator
  = Some (String.length id).
Proof.
  intros Hc. apply Contains_false in Hc. pose proof (proj1 (Index_None _ _) Hc) as HX.
  apply Index_app. intros j Hj.
  destruct (HasPrefix (drop j id ++ ThoughtSignatureSeparator ++ sig) _) eqn:E;
    [exfalso|reflexivity].
  specialize (HX j ltac:(lia)).
  pose proof (drop_length j id) as Hl.
  set (x := drop j id) in *.
  destruct (Nat.lt_ge_cases (String.length x) (String.length ThoughtSignatureSeparator))
    as [Hlt|Hge].
  - destruct (straddle x _ sig Hlt E) as [Ex Eb].
    remember (String.length x) as k eqn:Hk.
    assert (Hk1 : (1 <= k)%nat) by lia.
    cbn in Hlt.
    do 11 (destruct k as [|k]; [first [lia | discriminate Eb | rewrite Ex in HX; discriminate HX]|]).
    lia.
  - rewrite HasPrefix_short in E by exact Hge.
    rewrite (HasPrefix_trans x ThoughtSignatureSeparator "__thought" E eq_refl) in HX.
    discriminate HX.
Qed.

(** X3 (tool id with embedded signature, separator [__thought__]): a
    tool call ID that does not contain [__thought] comes back from
    encoding and decoding together with its signature, whatever the
    signature is; with an empty signature the ID goes through both ways
    unchanged. *)
Theorem thought_sep_round_trip (id sig : string) :
  Contains id "__thought" = false ->
  DecodeToolIDAndSignature (EncodeToolIDWithSignature id sig) = (id, sig).
Proof.
  intros Hc. pose proof (thought_first id sig Hc) as Hi.
  unfold EncodeToolIDWithSignature, DecodeToolIDAndSignature.
  destruct sig as [|c sig]; cbn [is_empty].
  - rewrite (Contains_longer id ThoughtSignatureSeparator _ Hc eq_refl).
    rewrite orb_true_r. reflexivity.
  - set (sg := String c sig) in *.
    unfold Contains, SplitN2. rewrite Hi. cbn [negb].
    assert (He : is_empty (id ++ ThoughtSignatureSeparator ++ sg)%string = false).
    { destruct id; reflexivity. }
    rewrite He. cbn [orb].
    rewrite take_app. rewrite <- drop_drop, drop_app, drop_app. reflexivity.
Qed.

Lemma marker_first id sig :
  Contains id "|sig:" = false ->
  Index (id ++ "|sig:" ++ sig)%string "|sig:" = Some (String.length id).
Proof.
  intros Hc. apply Contains_false in Hc. pose proof (proj1 (Index_None _ _) Hc) as HX.
  apply Index_app. intros j Hj.
  destruct (HasPrefix (drop j id ++ "|sig:" ++ sig) _) eqn:E; [exfalso|reflexivity].
  specialize (HX j ltac:(lia)).
  pose proof (drop_length j id) as Hl.
  set (x := drop j id) in *.
  destruct (Nat.lt_ge_cases (String.length x) (String.length "|sig:")) as [Hlt|Hge].
  - destruct (straddle x _ sig Hlt E) as [Ex Eb].
    remember (String.length x) as k eqn:Hk.
    assert (Hk1 : (1 <= k)%nat) by lia.
    cbn in Hlt.
    do 5 (destruct k as [|k]; [first [lia | discriminate Eb]|]).
    lia.
  - rewrite HasPrefix_short in E by exact Hge. congruence.
Qed.

Lemma sig_pair id sig :
  ascii_bounded id -> ascii_bounded sig -> Contains id "|sig:" = false ->
  ir.DecodeToolIDAndSignature (id ++ "|sig:" ++ sig)%string = (id, sig).
Proof.
  intros Hid Hsig Hc. unfold ir.DecodeToolIDAndSignature.
  assert (Hall : ascii_bounded (id ++ "|sig:" ++ sig)%string).
  { apply ascii_bounded_app; [apply Hid|apply Hid|].
    apply ascii_bounded_app; [discriminate|reflexivity|exact Hsig]. }
  rewrite (TrimSpace_bounded _ Hall), (ascii_bounded_nonempty _ Hall).
  rewrite (marker_first id sig Hc).
  rewrite take_app, <- drop_drop, drop_app.
  change (drop (String.length "|sig:") ("|sig:" ++ sig)%string) with sig.
  rewrite (TrimSpace_bounded _ Hid), (TrimSpace_bounded _ Hsig). reflexivity.
Qed.

(** X4 (tool id with embedded signature, marker [|sig:]): for an ID and
    a signature that begin and end with printable ASCII, the ID free of
    the marker, decoding the encoded ID gives both back; an empty ID comes
    back as [tool], and without a signature the ID is passed through. *)
Theorem sig_marker_round_trip (id sig : string) :
  ascii_bounded id -> ascii_bounded sig -> Contains id "|sig:" = false ->
  ir.DecodeToolIDAndSignature (ir.EncodeToolIDWithSignature id sig) = (id, sig)
  /\ ir.DecodeToolIDAndSignature (ir.EncodeToolIDWithSignature EmptyString sig)
     = ("tool"%string, sig)
  /\ ir.DecodeToolIDAndSignature (ir.EncodeToolIDWithSignature id EmptyString)
     = (id, EmptyString).
Proof.
  intros Hid Hsig Hc. unfold ir.EncodeToolIDWithSignature.
  rewrite (TrimSpace_bounded _ Hid), (TrimSpace_bounded _ Hsig).
  rewrite (ascii_bounded_nonempty _ Hid), (ascii_bounded_nonempty _ Hsig).
  change (TrimSpace EmptyString) with EmptyString. cbn [is_empty].
  split; [apply sig_pair; assumption|]. split.
  - apply (sig_pair "tool" sig); [repeat split; discriminate|exact Hsig|reflexivity].
  - unfold ir.DecodeToolIDAndSignature.
    rewrite (TrimSpace_bounded _ Hid), (ascii_bounded_nonempty _ Hid).
    apply Contains_false in Hc. rewrite Hc. reflexivity.
Qed.
Lemma thought_sep_round_trip_witness :
  EncodeToolIDWithSignature "call_f1" "c2lnbmF0dXJl" = "call_f1__thought__c2lnbmF0dXJl"%string
  /\ DecodeToolIDAndSignature (EncodeToolIDWithSignature "call_f1" "c2lnbmF0dXJl")
     = ("call_f1"%string, "c2lnbmF0dXJl"%string).
Proof.
  split; [reflexivity|]. apply (thought_sep_round_trip "call_f1" "c2lnbmF0dXJl").
  reflexivity.
Defined.

Lemma sig_marker_round_trip_witness :
  ir.DecodeToolIDAndSignature (ir.EncodeToolIDWithSignature " call_f1" "c2lnbmF0dXJl ")
  = ("call_f1"%string, "c2lnbmF0dXJl"%string).
Proof.
  change (ir.EncodeToolIDWithSignature " call_f1" "c2lnbmF0dXJl ")
    with (ir.EncodeToolIDWithSignature "call_f1" "c2lnbmF0dXJl").
  apply (sig_marker_round_trip "call_f1" "c2lnbmF0dXJl");
    [repeat split; discriminate|repeat split; discriminate|reflexivity].
Defined.

End toolid_facts.

(** ** Function names for the Gemini API *)

Module normalize_facts.
Import gostr utf8 strings helpers utf8_facts gostr_facts strings_facts.

Lemma isAllowed_range r : isAllowed r = true -> 0 <= r <= 0x7A.
Proof. unfold isAllowed. lia. Qed.

Lemma byte_val_of b : is_byte b -> byte_val (byte_of b) = b.
Proof.
  unfold is_byte, byte_val, byte_of. intros Hb. rewrite Z.mod_small by exact Hb.
  rewrite N_ascii_embedding; [lia|]. lia.
Qed.

(** What one rune contributes: a single allowed byte. *)
Lemma written_byte r :
  exists b, (if isAllowed r then AppendRune r else "_"%string) = String (byte_of b) EmptyString
            /\ isAllowed b = true /\ is_byte b.
Proof.
  destruct (isAllowed r) eqn:Hr.
  - exists r. pose proof (isAllowed_range r Hr). unfold AppendRune.
    rewrite encode1 by lia. unfold is_byte. repeat split; [exact Hr|lia|lia].
  - exists 0x5F. unfold is_byte. repeat split; lia.
Qed.

Lemma all_bytes_app f a b :
  all_bytes f (a ++ b)%string = all_bytes f a && all_bytes f b.
Proof.
  induction a as [|c a IH]; rewrite ?append_cons, ?append_nil; cbn [all_bytes];
    [reflexivity|]. rewrite IH, andb_assoc. reflexivity.
Qed.

Lemma all_bytes_take f n s : all_bytes f s = true -> all_bytes f (take n s) = true.
Proof.
  revert s. induction n as [|n IH]; intros [|c s] H; cbn [take all_bytes]; try reflexivity.
  cbn [all_bytes] in H. apply andb_true_iff in H as [H1 H2].
  rewrite H1, (IH s H2). reflexivity.
Qed.

Lemma take_length_le n s : (String.length (take n s) <= n)%nat.
Proof.
  revert s. induction n as [|n IH]; intros [|c s]; cbn [take String.length]; try lia.
  specialize (IH s). lia.
Qed.

Lemma normalize_loop_props fuel s i :
  0 <= i ->
  len (normalize_loop fuel s i) <= Z.max 1 (MaxFunctionNameLength - i)
  /\ all_bytes isAllowed (normalize_loop fuel s i) = true.
Proof.
  revert s i. induction fuel as [|fuel IH]; intros s i Hi; cbn [normalize_loop].
  - unfold len. cbn. split; [lia|reflexivity].
  - destruct (is_empty s) eqn:He; [unfold len; cbn; split; [lia|reflexivity]|].
    assert (Hs : s <> EmptyString) by (intros ->; discriminate).
    destruct (DecodeRuneInString s) as [r size] eqn:Hd.
    destruct (DecodeRune_sound s r size Hs Hd) as (Hsz & _ & _).
    destruct (written_byte r) as (b & -> & Hb & Hbb).
    unfold MaxFunctionNameLength in *.
    destruct (Z.leb_spec (64 - 1) i).
    + unfold len. cbn [String.length all_bytes]. rewrite byte_val_of by exact Hbb.
      rewrite Hb. split; [lia|reflexivity].
    + destruct (IH (drop size s) (i + Z.of_nat size) ltac:(lia)) as [IH1 IH2].
      rewrite append_cons, append_nil. unfold len in *. cbn [String.length all_bytes].
      rewrite byte_val_of by exact Hbb. rewrite Hb, IH2. split; [lia|reflexivity].
Qed.

Lemma normalize_loop_nonempty fuel s i :
  s <> EmptyString -> is_empty (normalize_loop (S fuel) s i) = false.
Proof.
  intros Hs. cbn [normalize_loop]. destruct s as [|c s]; [congruence|]. cbn [is_empty].
  destruct (DecodeRuneInString (String c s)) as [r size].
  destruct (written_byte r) as (b & -> & _).
  destruct (_ <=? i); reflexivity.
Qed.

(** X5 (function name normalization): whatever the input, the
    normalized name is not empty, at most 64 bytes long, begins with a
    letter or an underscore, and consists of letters, digits, underscore,
    period and hyphen only. *)
Theorem NormalizeFunctionName_conforms (name : string) :
  let n := NormalizeFunctionName name in
  n <> EmptyString
  /\ len n <= MaxFunctionNameLength
  /\ startsName (at_ n 0) = true
  /\ all_bytes isAllowed n = true.
Proof.
  cbv zeta. unfold NormalizeFunctionName.
  destruct (is_empty name) eqn:He; [repeat split; discriminate|].
  destruct (normalize_loop_props (String.length name) name 0 ltac:(lia)) as [Hlen Hall].
  set (nz := normalize_loop (String.length name) name 0) in *.
  destruct (is_empty nz) eqn:Hz; [repeat split; discriminate|].
  assert (Hnz : nz <> EmptyString) by (intros E; rewrite E in Hz; discriminate).
  unfold MaxFunctionNameLength in *.
  destruct (startsName (at_ nz 0)) eqn:Hst; cbn [negb].
  - repeat split; [exact Hnz|lia|exact Hst|exact Hall].
  - assert (HU : all_bytes isAllowed ("_" ++ nz)%string = true)
      by (rewrite all_bytes_app, Hall; reflexivity).
    destruct (Z.ltb_spec 64 (len ("_" ++ nz)%string)).
    + repeat split.
      * discriminate.
      * unfold len. pose proof (take_length_le (Z.to_nat 64) ("_" ++ nz)%string). lia.
      * apply all_bytes_take. exact HU.
    + repeat split; [discriminate|assumption|exact HU].
Qed.
End normalize_facts.

(** ** SanitizeText: what comes out *)

Module sanitize_more.
Import gostr utf8 ir utf8_facts gostr_facts strings_facts SanitizeText_facts.

(** A well-formed encoding is decoded from its own bytes alone: what
    follows it, and how much, does not matter. *)
Ltac prefix_case tbl :=
  reduce_table tbl; unfold locb, hicb; split_tests; intros [= <- <-];
  try (exfalso; match goal with H : ~ _ |- _ => apply H end; split; reflexivity);
  try lia;
  repeat match goal with
  | E : (_ <= _)%nat -> _ |- _ => first [specialize (E ltac:(lia)) | clear E]
  end; subst; try lia; try reflexivity.

Lemma decode_prefix n b0 b1 b2 b3 r size n' c1 c2 c3 :
  is_byte b0 -> 1 <= n ->
  decode n b0 b1 b2 b3 = (r, size) ->
  ~ (r = RuneError /\ size = 1%nat) ->
  Z.of_nat size <= n' ->
  ((2 <= size)%nat -> c1 = b1) -> ((3 <= size)%nat -> c2 = b2) ->
  ((4 <= size)%nat -> c3 = b3) ->
  decode n' b0 c1 c2 c3 = (r, size).
Proof.
  unfold is_byte. intros H0 Hn Hd Hne Hn' E1 E2 E3. revert Hd.
  unfold decode. destruct (Z.ltb_spec n 1); [lia|].
  destruct (first_spec b0 H0)
    as [[Hr Hf]|[[Hr Hf]|[[Hr Hf]|[[Hr Hf]|[[Hr Hf]|[[Hr Hf]|[[Hr Hf]|[[Hr Hf]|Hf]]]]]]]];
    rewrite Hf.
  - reduce_table as_. intros [= <- <-]. destruct (Z.ltb_spec n' 1); [lia|reflexivity].
  - prefix_case s1.
  - prefix_case s2.
  - prefix_case s3.
  - prefix_case s4.
  - prefix_case s5.
  - prefix_case s6.
  - prefix_case s7.
  - reduce_table xx. intros [= <- <-]. exfalso. apply Hne. split; reflexivity.
Qed.

Lemma take_length n s :
  (n <= String.length s)%nat -> String.length (take n s) = n.
Proof.
  revert s. induction n as [|n IH]; intros [|c s] H; cbn [take String.length] in *;
    try lia. rewrite IH by lia. reflexivity.
Qed.

Lemma at_take_app k n s t :
  (k < n)%nat -> (n <= String.length s)%nat -> at_ (take n s ++ t)%string k = at_ s k.
Proof.
  revert n s. induction k as [|k IH]; intros [|n] [|c s] Hk Hn;
    cbn [String.length] in Hn; try lia; cbn [take]; rewrite append_cons.
  - reflexivity.
  - rewrite !at_cons_S. apply IH; lia.
Qed.

Lemma DecodeRune_prefix s r size t :
  s <> EmptyString -> DecodeRuneInString s = (r, size) ->
  ~ (r = RuneError /\ size = 1%nat) ->
  DecodeRuneInString (take size s ++ t)%string = (r, size).
Proof.
  intros Hs Hd Hne. destruct (DecodeRune_sound s r size Hs Hd) as (Hsz & _ & _).
  unfold DecodeRuneInString in *.
  rewrite (at_take_app 0 size s t) by lia.
  apply (decode_prefix (len s) (at_ s 0) (at_ s 1) (at_ s 2) (at_ s 3)); try assumption.
  - apply at_range.
  - unfold len. lia.
  - unfold len. rewrite length_app, take_length by lia. lia.
  - intros H. apply at_take_app; lia.
  - intros H. apply at_take_app; lia.
  - intros H. apply at_take_app; lia.
Qed.

(** Fuel beyond the length changes nothing. *)
Lemma valid_loop_fuel f1 f2 s :
  (String.length s <= f1)%nat -> (String.length s <= f2)%nat ->
  valid_loop f1 s = valid_loop f2 s.
Proof.
  revert f2 s. induction f1 as [|f1 IH]; intros f2 s H1 H2.
  - destruct s; [|cbn in H1; lia]. destruct f2; reflexivity.
  - destruct f2 as [|f2]; [destruct s; [reflexivity|cbn in H2; lia]|].
    cbn [valid_loop]. destruct (is_empty s) eqn:He; [reflexivity|].
    assert (Hs : s <> EmptyString) by (intros ->; discriminate).
    destruct (DecodeRuneInString s) as [r size] eqn:Hd.
    destruct (DecodeRune_sound s r size Hs Hd) as (Hsz & _ & _).
    destruct ((r =? RuneError) && Nat.eqb size 1); [reflexivity|].
    apply IH; rewrite drop_length; lia.
Qed.

Lemma problematic_loop_fuel f1 f2 s :
  (String.length s <= f1)%nat -> (String.length s <= f2)%nat ->
  hasProblematicChars_loop f1 s = hasProblematicChars_loop f2 s.
Proof.
  revert f2 s. induction f1 as [|f1 IH]; intros f2 s H1 H2.
  - destruct s; [|cbn in H1; lia]. destruct f2; reflexivity.
  - destruct f2 as [|f2]; [destruct s; [reflexivity|cbn in H2; lia]|].
    cbn [hasProblematicChars_loop]. destruct (is_empty s) eqn:He; [reflexivity|].
    assert (Hs : s <> EmptyString) by (intros ->; discriminate).
    destruct (DecodeRuneInString s) as [r size] eqn:Hd.
    destruct (DecodeRune_sound s r size Hs Hd) as (Hsz & _ & _).
    destruct (problematic r); [reflexivity|].
    apply IH; rewrite drop_length; lia.
Qed.

(** What the loop of [SanitizeText] writes is well-formed UTF-8 without
    problematic characters. *)
Lemma SanitizeText_loop_clean fuel s :
  ValidString (SanitizeText_loop fuel s) = true
  /\ hasProblematicChars (SanitizeText_loop fuel s) = false.
Proof.
  revert s. induction fuel as [|fuel IH]; intros s; cbn [SanitizeText_loop];
    [split; reflexivity|].
  destruct (is_empty s) eqn:He; [split; reflexivity|].
  assert (Hs : s <> EmptyString) by (intros ->; discriminate).
  destruct (DecodeRuneInString s) as [r size] eqn:Hd.
  destruct (DecodeRune_sound s r size Hs Hd) as (Hsz & Hr & Henc).
  destruct ((r =? RuneError) && Nat.eqb size 1) eqn:Herr; [apply IH|].
  destruct (problematic r) eqn:Hp; [apply IH|].
  destruct Henc as [[-> ->]|Henc]; [discriminate Herr|].
  destruct (IH (drop size s)) as [IHv IHp].
  set (o := SanitizeText_loop fuel (drop size s)) in *.
  assert (Hne : ~ (r = RuneError /\ size = 1%nat)).
  { intros [-> ->]. discriminate Herr. }
  pose proof (DecodeRune_prefix s r size o Hs Hd Hne) as Hd'.
  rewrite Henc.
  assert (Hl : String.length (take size s ++ o)%string = S (size - 1 + String.length o)).
  { rewrite length_app, take_length by lia. lia. }
  assert (Hdrop : drop size (take size s ++ o)%string = o).
  { rewrite <- (take_length size s) at 1 by lia. apply drop_app. }
  assert (Hemp : is_empty (take size s ++ o)%string = false).
  { destruct (take size s ++ o)%string; [cbn in Hl; lia|reflexivity]. }
  unfold ValidString, hasProblematicChars. rewrite Hl.
  cbn [valid_loop hasProblematicChars_loop]. rewrite Hemp, Hd', Herr, Hp, Hdrop.
  split.
  - rewrite (valid_loop_fuel _ (String.length o)) by lia. exact IHv.
  - rewrite (problematic_loop_fuel _ (String.length o)) by lia. exact IHp.
Qed.

(** X6 (sanitised text is clean): whatever the input, the result of
    [SanitizeText] is well-formed UTF-8, holds none of the characters
    [hasProblematicChars] looks for, and is left as it is by a second
    pass. *)
Theorem SanitizeText_output_is_clean (s : string) :
  ValidString (SanitizeText s) = true
  /\ hasProblematicChars (SanitizeText s) = false
  /\ SanitizeText (SanitizeText s) = SanitizeText s.
Proof.
  assert (H : ValidString (SanitizeText s) = true
              /\ hasProblematicChars (SanitizeText s) = false).
  { unfold SanitizeText.
    destruct (is_empty s) eqn:He.
    - apply is_empty_spec in He. subst. split; reflexivity.
    - cbn [orb]. destruct (ValidString s) eqn:Hv; cbn [andb];
        [|apply SanitizeText_loop_clean].
      destruct (hasProblematicChars s) eqn:Hp; cbn [negb];
        [apply SanitizeText_loop_clean|]. split; assumption. }
  destruct H as [Hv Hp]. split; [exact Hv|]. split; [exact Hp|].
  unfold SanitizeText at 1. rewrite Hv, Hp. cbn [negb andb].
  rewrite orb_true_r. reflexivity.
Qed.
End sanitize_more.

(** ** The thought-signature cache: writes and reads *)

Module cache_more.
Import gostr cache cache_facts.

Lemma valid_spec sig :
  HasValidThoughtSignature sig = true ->
  is_empty (strings.TrimSpace sig) = false
  /\ (negb (String.eqb (strings.TrimSpace sig) skipThoughtSignatureLiteral)
      && (len (strings.TrimSpace sig) <? minThoughtSignatureLength)) = false.
Proof.
  unfold HasValidThoughtSignature. cbv zeta.
  destruct (is_empty (strings.TrimSpace sig)); [discriminate|].
  destruct (String.eqb _ skipThoughtSignatureLiteral); [split; reflexivity|].
  intros H. split; [reflexivity|]. cbn [negb andb]. lia.
Qed.

Lemma invalid_spec sig :
  HasValidThoughtSignature sig = false ->
  is_empty (strings.TrimSpace sig) = true
  \/ (negb (String.eqb (strings.TrimSpace sig) skipThoughtSignatureLiteral)
      && (len (strings.TrimSpace sig) <? minThoughtSignatureLength)) = true.
Proof.
  unfold HasValidThoughtSignature. cbv zeta.
  destruct (is_empty (strings.TrimSpace sig)); [left; reflexivity|].
  destruct (String.eqb _ skipThoughtSignatureLiteral); [discriminate|].
  intros H. right. cbn [negb andb]. lia.
Qed.

(** X7 (cache round trip): after a write with a non-blank session id and
    a signature that passes [HasValidThoughtSignature], a read of that
    session returns the trimmed signature and leaves the cache alone as
    long as the clock has not passed the write time plus two hours;
    later it returns the empty string and deletes the entry. *)
Theorem cached_signature_read_back now now' sid sig (c : gmap string thoughtSignatureEntry) :
  strings.TrimSpace sid <> EmptyString ->
  HasValidThoughtSignature sig = true ->
  let c' := CacheSessionThoughtSignature now sid sig c in
  GetSessionThoughtSignature now' sid c'
  = if now' <=? now + thoughtSignatureTTL
    then (strings.TrimSpace sig, c')
    else (EmptyString, delete (strings.TrimSpace sid) c').
Proof.
  intros Hsid Hv. cbv zeta.
  destruct (valid_spec sig Hv) as [H1 H2].
  assert (Hs : is_empty (strings.TrimSpace sid) = false).
  { destruct (strings.TrimSpace sid); [congruence|reflexivity]. }
  unfold CacheSessionThoughtSignature, GetSessionThoughtSignature. cbv zeta.
  rewrite Hs, H1, H2. cbn [orb]. rewrite lookup_insert_eq. cbn [expiresAt signature].
  destruct (Z.leb_spec now' (now + thoughtSignatureTTL));
    destruct (Z.ltb_spec (now + thoughtSignatureTTL) now'); try lia; reflexivity.
Qed.

(** X8 (the write gate is the validity check): for a non-blank session
    id, a write stores the trimmed signature with a fresh expiry exactly
    when [HasValidThoughtSignature] accepts the signature; otherwise the
    cache is unchanged, the previous entry of the session included.  No
    write touches another session. *)
Theorem write_gate_is_validity_check now sid sig (c : gmap string thoughtSignatureEntry) :
  strings.TrimSpace sid <> EmptyString ->
  let c' := CacheSessionThoughtSignature now sid sig c in
  c' !! strings.TrimSpace sid
  = (if HasValidThoughtSignature sig
     then Some {| signature := strings.TrimSpace sig;
                  expiresAt := now + thoughtSignatureTTL |}
     else c !! strings.TrimSpace sid)
  /\ (forall k, k <> strings.TrimSpace sid -> c' !! k = c !! k)
  /\ (HasValidThoughtSignature sig = false -> c' = c).
Proof.
  intros Hsid. cbv zeta.
  assert (Hs : is_empty (strings.TrimSpace sid) = false).
  { destruct (strings.TrimSpace sid); [congruence|reflexivity]. }
  unfold CacheSessionThoughtSignature. cbv zeta. rewrite Hs. cbn [orb].
  destruct (HasValidThoughtSignature sig) eqn:Hv.
  - destruct (valid_spec sig Hv) as [H1 H2]. rewrite H1, H2.
    split; [apply lookup_insert_eq|]. split; [|discriminate].
    intros k Hk. apply lookup_insert_ne. congruence.
  - destruct (invalid_spec sig Hv) as [H|H].
    + rewrite H. repeat split; reflexivity.
    + destruct (is_empty (strings.TrimSpace sig)); [repeat split; reflexivity|].
      rewrite H. repeat split; reflexivity.
Qed.
Lemma cached_signature_read_back_witness :
  GetSessionThoughtSignature 5 "s1"
    (CacheSessionThoughtSignature 0 "s1" skipThoughtSignatureLiteral ∅)
  = (skipThoughtSignatureLiteral,
     CacheSessionThoughtSignature 0 "s1" skipThoughtSignatureLiteral ∅).
Proof.
  exact (cached_signature_read_back 0 5 "s1" skipThoughtSignatureLiteral ∅
           ltac:(discriminate) eq_refl).
Defined.

Lemma write_gate_is_validity_check_witness :
  CacheSessionThoughtSignature 0 "s1" "too short" ∅ = ∅.
Proof.
  apply (write_gate_is_validity_check 0 "s1" "too short" ∅ ltac:(discriminate)).
  reflexivity.
Defined.

End cache_more.

(** ** The streaming state machine: headers, usage, errors *)

Module executor_more.
Import gostr ir from_ir executor executor_facts.

(** *** Tool call headers *)

Lemma step_header_kept st e k :
  ToolCallSentHeader st !! k = Some true ->
  ToolCallSentHeader (fst (step st e)) !! k = Some true.
Proof.
  intros Hk. open_step st e. step_branches; cbn [fst ToolCallSentHeader]; try exact Hk.
  all: destruct (decide (effectiveIdx = k)) as [->|Hne];
    [apply lookup_insert_eq|rewrite lookup_insert_ne by exact Hne; exact Hk].
Qed.

Lemma step_ToolCall_marks st e st' e' idx :
  step st e = (st', Emit e' idx) -> ev_Type e = EventTypeToolCall ->
  ToolCallSentHeader st' !! idx = Some true.
Proof.
  intros Hs Ht. revert Hs. open_step st e. rewrite Ht.
  destruct (ToolCallSentHeader st !! effectiveIdx) as [[|]|] eqn:Hh; cbn [default].
  - destruct toolCall; [|discriminate]. intros [= <- <- <-]. exact Hh.
  - intros [= <- <- <-]. apply lookup_insert_eq.
  - intros [= <- <- <-]. apply lookup_insert_eq.
Qed.

Lemma step_ToolCall_stripped st e st' e' idx :
  ToolCallSentHeader st !! idx = Some true ->
  step st e = (st', Emit e' idx) -> ev_Type e = EventTypeToolCall ->
  headerless e'.
Proof.
  intros Hh Hs Ht. revert Hs. open_step st e. rewrite Ht.
  destruct (default false (ToolCallSentHeader st !! effectiveIdx)) eqn:Hd.
  - destruct toolCall; [|discriminate]. intros [= <- <- <-].
    unfold headerless. cbn. split; reflexivity.
  - intros [= <- <- <-]. rewrite Hh in Hd. discriminate.
Qed.

Lemma step_Delta_stripped st e st' e' idx :
  step st e = (st', Emit e' idx) -> ev_Type e = EventTypeToolCallDelta ->
  headerless e'.
Proof.
  intros Hs Ht. revert Hs. open_step st e. rewrite Ht.
  destruct toolCall; [|discriminate]. intros [= <- <- <-].
  unfold headerless. cbn. split; reflexivity.
Qed.

Lemma outputs_marked events :
  forall st k e2,
    ToolCallSentHeader st !! k = Some true ->
    In (e2, k) (outputs events st) -> ev_Type e2 = EventTypeToolCall ->
    headerless e2.
Proof.
  induction events as [|e events IH]; intros st k e2 Hh Hin Ht; cbn [outputs] in Hin;
    [contradiction|].
  pose proof (step_header_kept st e k Hh) as Hk.
  destruct (step st e) as [st1 [|e' idx|]] eqn:Hs; cbn [fst] in Hk.
  - eapply IH; eassumption.
  - destruct Hin as [[= -> ->]|Hin]; [|eapply IH; eassumption].
    eapply step_ToolCall_stripped; [exact Hh|exact Hs|].
    rewrite <- (step_Emit_type _ _ _ _ _ Hs). exact Ht.
  - contradiction.
Qed.

(** X9 (tool call headers are sent once): among the events one state
    hands to the chunk builder, a ToolCallDelta never carries an ID or a
    name, and once a ToolCall event went out for a linear index every
    later ToolCall event for that index goes out with ID and name
    emptied. *)
Theorem tool_call_header_sent_once (events : list UnifiedEvent) (st : UnifiedStreamState) :
  (forall e idx, In (e, idx) (outputs events st) ->
     ev_Type e = EventTypeToolCallDelta -> headerless e)
  /\ (forall pre e1 k post,
        outputs events st = pre ++ (e1, k) :: post ->
        ev_Type e1 = EventTypeToolCall ->
        forall e2, In (e2, k) post -> ev_Type e2 = EventTypeToolCall ->
        headerless e2).
Proof.
  split.
  - revert st. induction events as [|e events IH]; intros st e0 idx0 Hin Ht;
      cbn [outputs] in Hin; [contradiction|].
    destruct (step st e) as [st1 [|e' idx|]] eqn:Hs.
    + eapply IH; eassumption.
    + destruct Hin as [[= -> ->]|Hin]; [|eapply IH; eassumption].
      eapply step_Delta_stripped; [exact Hs|].
      rewrite <- (step_Emit_type _ _ _ _ _ Hs). exact Ht.
    + contradiction.
  - revert st. induction events as [|e events IH]; intros st pre e1 k post Ho Ht1 e2 Hin Ht2;
      cbn [outputs] in Ho.
    + destruct pre; discriminate.
    + destruct (step st e) as [st1 [|e' idx|]] eqn:Hs.
      * eapply IH; eassumption.
      * destruct pre as [|p pre].
        -- cbn [app] in Ho. injection Ho as -> -> Hpost.
           apply (outputs_marked events st1 k e2); [|rewrite Hpost; exact Hin|exact Ht2].
           eapply step_ToolCall_marks; [exact Hs|].
           rewrite <- (step_Emit_type _ _ _ _ _ Hs). exact Ht1.
        -- cbn [app] in Ho. injection Ho as _ Hrest. eapply IH; eassumption.
      * destruct pre; discriminate.
Qed.

(** *** Reasoning tokens estimated from the text seen *)

Lemma step_accum st e :
  ReasoningCharsAccum (fst (step st e))
  = if EventType_eqb (ev_Type e) EventTypeReasoning && negb (is_empty (ev_Reasoning e))
    then wrap64 (ReasoningCharsAccum st + len (ev_Reasoning e))
    else ReasoningCharsAccum st.
Proof. open_step st e. step_branches; reflexivity. Qed.

Lemma len_nonneg s : 0 <= len s.
Proof. unfold len. lia. Qed.

Lemma len_empty s : is_empty s = true -> len s = 0.
Proof. destruct s; [reflexivity|discriminate]. Qed.

Lemma reasoning_bytes_nonneg events : 0 <= reasoning_bytes events.
Proof.
  induction events as [|e events IH]; cbn [reasoning_bytes]; [lia|].
  pose proof (len_nonneg (ev_Reasoning e)). destruct (EventType_eqb _ _); lia.
Qed.

Lemma after_accum events :
  forall st0 st,
    after events st0 = Some st ->
    0 <= ReasoningCharsAccum st0 ->
    ReasoningCharsAccum st0 + reasoning_bytes events < 2 ^ 63 ->
    ReasoningCharsAccum st = ReasoningCharsAccum st0 + reasoning_bytes events.
Proof.
  induction events as [|e events IH]; intros st0 st Hrun H0 Hb; cbn [after] in Hrun.
  - injection Hrun as <-. cbn. lia.
  - cbn [reasoning_bytes] in *.
    pose proof (step_accum st0 e) as Ha.
    pose proof (reasoning_bytes_nonneg events) as Hn.
    pose proof (len_nonneg (ev_Reasoning e)) as Hl.
    destruct (step st0 e) as [st1 out] eqn:Hstep. cbn [fst] in Ha.
    assert (Hnext : after events st1 = Some st)
      by (destruct out; [exact Hrun|exact Hrun|discriminate]).
    destruct (EventType_eqb (ev_Type e) EventTypeReasoning) eqn:Ht; cbn [andb] in Ha.
    + destruct (is_empty (ev_Reasoning e)) eqn:He; cbn [negb] in Ha.
      * rewrite (len_empty _ He) in *. rewrite (IH _ _ Hnext); rewrite Ha; lia.
      * rewrite wrap64_id in Ha by lia. rewrite (IH _ _ Hnext); rewrite Ha; lia.
    + rewrite (IH _ _ Hnext); rewrite Ha; lia.
Qed.

Lemma reasoning_is_content events :
  0 < reasoning_bytes events -> existsb carries_content events = true.
Proof.
  induction events as [|e events IH]; cbn [reasoning_bytes existsb]; [lia|].
  intros H. destruct (carries_content e) eqn:Hc; [reflexivity|]. cbn [orb].
  apply IH. unfold carries_content in Hc.
  apply orb_false_iff in Hc as [Hc _]. apply orb_false_iff in Hc as [_ Hc].
  apply negb_false_iff in Hc. rewrite (len_empty _ Hc) in H.
  destruct (EventType_eqb _ _); lia.
Qed.

(** X10 (reasoning tokens are estimated from the text): when a Finish
    event without a thoughts-token count is let through after n > 0 bytes
    of reasoning text, its usage goes out with ThoughtsTokenCount
    (n + 2) / 3, the least count t with n <= 3 t. *)
Theorem reasoning_tokens_estimated (events : list UnifiedEvent)
    (st : UnifiedStreamState) (fin : UnifiedEvent) :
  after events NewOpenAIStreamState = Some st ->
  FinishSent st = false ->
  ev_Type fin = EventTypeFinish ->
  match ev_Usage fin with Some u => ThoughtsTokenCount u = 0 | None => True end ->
  0 < reasoning_bytes events -> reasoning_bytes events + 2 < 2 ^ 63 ->
  exists st' e idx u,
    step st fin = (st', Emit e idx)
    /\ ev_Usage e = Some u
    /\ ThoughtsTokenCount u = (reasoning_bytes events + 2) / 3
    /\ 3 * ThoughtsTokenCount u - 2 <= reasoning_bytes events <= 3 * ThoughtsTokenCount u.
Proof.
  intros Hrun Hfs Ht Hu Hpos Hb.
  pose proof (after_accum events _ _ Hrun ltac:(cbn; lia) ltac:(cbn; lia)) as Hacc.
  cbn [ReasoningCharsAccum NewOpenAIStreamState] in Hacc. rewrite Z.add_0_l in Hacc.
  destruct (after_facts events _ _ Hrun) as (Hhc & _ & _).
  rewrite (reasoning_is_content events Hpos) in Hhc. cbn [orb] in Hhc.
  set (n := reasoning_bytes events) in *.
  assert (Hq : Z.quot (wrap64 (n + 2)) 3 = (n + 2) / 3).
  { rewrite wrap64_id by lia. apply Z.quot_div_nonneg; lia. }
  assert (Hceil : 3 * ((n + 2) / 3) - 2 <= n <= 3 * ((n + 2) / 3)).
  { pose proof (Z.div_mod (n + 2) 3 ltac:(lia)). pose proof (Z.mod_pos_bound (n + 2) 3 ltac:(lia)). lia. }
  unfold step.
  destruct (mapToolCallID st fin) as [idMap toolCall] eqn:Hids.
  destruct (lineariseIndex st fin) as [[effectiveIdx indexMap] toolCallIndex] eqn:Hlin.
  rewrite Ht, Hfs, Hhc, orb_true_r. cbn [negb].
  assert (Hr : (EventType_eqb EventTypeFinish EventTypeReasoning
                && negb (is_empty (ev_Reasoning fin))) = false) by reflexivity.
  rewrite Hr, Hacc.
  unfold usageFor. cbn [set_ToolCall ev_Usage].
  destruct (Z.ltb_spec 0 n); [|lia].
  destruct (ev_Usage fin) as [u|] eqn:Eu.
  - rewrite Hu. cbn [Z.eqb]. eexists _, _, _, _. split; [reflexivity|].
    cbn [set_Finish ev_Usage set_ThoughtsTokenCount ThoughtsTokenCount].
    rewrite Hq. split; [reflexivity|]. split; [reflexivity|exact Hceil].
  - cbn [zeroUsage ThoughtsTokenCount Z.eqb]. eexists _, _, _, _. split; [reflexivity|].
    cbn [set_Finish ev_Usage set_ThoughtsTokenCount ThoughtsTokenCount].
    rewrite Hq. split; [reflexivity|]. split; [reflexivity|exact Hceil].
Qed.

(** *** Errors and panics of a call *)

Lemma step_plain st e :
  ev_Type e <> EventTypeFinish -> ev_Type e <> EventTypeToolCall ->
  ev_Type e <> EventTypeToolCallDelta ->
  exists st' e' idx, step st e = (st', Emit e' idx).
Proof.
  intros H1 H2 H3. open_step st e.
  destruct (ev_Type e); try congruence; eexists _, _, _; reflexivity.
Qed.

Lemma step_Skip_type st e st' :
  step st e = (st', Skip) -> ev_Type e = EventTypeFinish.
Proof.
  open_step st e. step_branches; intros [= <-]; try discriminate; reflexivity.
Qed.

Lemma ToOpenAIChunk_error e model messageID idx :
  ToOpenAIChunk e model messageID idx = ChunkErr <-> ev_Type e = EventTypeError.
Proof.
  unfold ToOpenAIChunk.
  destruct (ev_Type e); try destruct (ev_ToolCall e); try destruct (ev_Image e);
    split; congruence.
Qed.

Lemma openai_loop_error model messageID events :
  forall st acc stf,
    after events st = Some stf ->
    (snd (openai_loop model messageID events st acc) = ConvError
     <-> existsb (fun e => EventType_eqb (ev_Type e) EventTypeError) events = true)
    /\ snd (openai_loop model messageID events st acc) <> ConvPanic.
Proof.
  induction events as [|e events IH]; intros st acc stf Hrun;
    cbn [after openai_loop existsb] in *.
  - cbn. split; [split; discriminate|discriminate].
  - destruct (step st e) as [st1 [|e' idx|]] eqn:Hs; [| |discriminate].
    + rewrite (step_Skip_type _ _ _ Hs). cbn [EventType_eqb orb]. eapply IH, Hrun.
    + pose proof (step_Emit_type _ _ _ _ _ Hs) as Hty.
      pose proof (ToOpenAIChunk_error e' model messageID idx) as He.
      rewrite Hty in He.
      destruct (ToOpenAIChunk e' model messageID idx) as [c| |] eqn:Hc.
      * assert (Hne : EventType_eqb (ev_Type e) EventTypeError = false).
        { destruct (ev_Type e); try reflexivity. destruct He as [_ He].
          specialize (He eq_refl). discriminate. }
        rewrite Hne. cbn [orb]. eapply IH, Hrun.
      * assert (Hne : EventType_eqb (ev_Type e) EventTypeError = false).
        { destruct (ev_Type e); try reflexivity. destruct He as [_ He].
          specialize (He eq_refl). discriminate. }
        rewrite Hne. cbn [orb]. eapply IH, Hrun.
      * destruct He as [He _]. rewrite (He eq_refl). cbn.
        split; [split; reflexivity|discriminate].
Qed.

Section calls.
Context {O : OtherTargets}.

(** X11 (an Error event fails the call): for the OpenAI and Cline
    targets, a call whose events run without panic returns an error, and
    with it none of its chunks, exactly when one of the events is of type
    Error. *)
Theorem error_event_fails_the_call (to model messageID : string)
    (events : list UnifiedEvent) (st stf : UnifiedStreamState) :
  to = "openai"%string \/ to = "cline"%string ->
  after events st = Some stf ->
  let r := snd (convertUnifiedEventsToChunks events to model messageID st) in
  (r = ConvError
   <-> existsb (fun e => EventType_eqb (ev_Type e) EventTypeError) events = true)
  /\ r <> ConvPanic.
Proof.
  intros Hto Hrun. cbv zeta. rewrite (convert_openai to model messageID Hto).
  destruct events as [|e events].
  - cbn. split; [split; discriminate|discriminate].
  - apply (openai_loop_error model messageID (e :: events) st [] stf Hrun).
Qed.

End calls.

(** *** The Gemini parser in front of the converter *)

Section gemini.
Context {N : gjson.Numbers} {T : gjson.Text} {E : to_ir.Env} {O : OtherTargets}.

Lemma partEvents_safe part e :
  In e (to_ir.partEvents part) ->
  ev_Type e <> EventTypeError /\ ev_Type e <> EventTypeToolCallDelta
  /\ (ev_Type e = EventTypeToolCall -> ev_ToolCall e <> None).
Proof.
  unfold to_ir.partEvents.
  repeat match goal with
  | |- context [if ?b then _ else _] => destruct b
  | |- context [match ?o with Some _ => _ | None => _ end] => destruct o
  end; cbn [In]; intros H; try contradiction;
    destruct H as [<-|[]]; cbn; repeat split; congruence.
Qed.

Lemma parsed_safe mapReason raw events e :
  to_ir.ParseGeminiChunkWith mapReason raw = to_ir.Events events -> In e events ->
  ev_Type e <> EventTypeError /\ ev_Type e <> EventTypeToolCallDelta
  /\ (ev_Type e = EventTypeToolCall -> ev_ToolCall e <> None).
Proof.
  unfold to_ir.ParseGeminiChunkWith.
  destruct (len (to_ir.ExtractSSEData raw) =? 0); [intros [= <-] []|].
  destruct (String.eqb (to_ir.ExtractSSEData raw) "[DONE]").
  { intros [= <-] [<-|[]]. cbn. repeat split; congruence. }
  destruct (to_ir.ParseBytes (to_ir.ExtractSSEData raw)) as [doc|]; [|discriminate].
  set (parts := fun candidate : gjson.Result =>
         flat_map (fun part => to_ir.partEvents (Some part))
           (gjson.Array (gjson.Get (gjson.Get candidate "content") "parts"))).
  assert (Hparts : forall c, In e (parts c) ->
    ev_Type e <> EventTypeError /\ ev_Type e <> EventTypeToolCallDelta
    /\ (ev_Type e = EventTypeToolCall -> ev_ToolCall e <> None)).
  { intros c Hin. apply in_flat_map in Hin as (part & _ & Hin).
    eapply partEvents_safe, Hin. }
  destruct (gjson.Array (gjson.Get (Some doc) "candidates")) as [|candidate rest].
  - cbn. intros [= <-] [].
  - fold (parts (Some candidate)).
    destruct (negb (FinishReason_eqb _ FinishReasonNone)); intros [= <-] Hin.
    + apply in_app_iff in Hin as [Hin|[<-|[]]]; [eapply Hparts, Hin|].
      cbn. repeat split; congruence.
    + eapply Hparts, Hin.
Qed.

Lemma safe_events_run events :
  (forall e, In e events ->
     ev_Type e <> EventTypeError /\ ev_Type e <> EventTypeToolCallDelta
     /\ (ev_Type e = EventTypeToolCall -> ev_ToolCall e <> None)) ->
  forall st, exists stf, after events st = Some stf
    /\ existsb (fun e => EventType_eqb (ev_Type e) EventTypeError) events = false.
Proof.
  induction events as [|e events IH]; intros Hsafe st; cbn [after existsb].
  - exists st. split; reflexivity.
  - destruct (Hsafe e (or_introl eq_refl)) as (H1 & H2 & H3).
    assert (Hne : EventType_eqb (ev_Type e) EventTypeError = false)
      by (destruct (ev_Type e); try reflexivity; congruence).
    rewrite Hne. cbn [orb].
    assert (Hnf : snd (step st e) <> Fault).
    { open_step st e.
      assert (Htc : ev_Type e = EventTypeToolCall -> toolCall <> None).
      { intros Ht. specialize (H3 Ht). unfold mapToolCallID in Hids.
        destruct (ev_ToolCall e); [|congruence].
        repeat match type of Hids with
        | context [if ?b then _ else _] => destruct b
        | context [match ?o with Some _ => _ | None => _ end] => destruct o
        end; injection Hids as <- <-; discriminate. }
      destruct (ev_Type e) eqn:Ht; try congruence; step_branches; cbn [snd];
        try discriminate. exfalso. apply Htc; reflexivity. }
    destruct (step st e) as [st1 out]. cbn [snd] in Hnf.
    destruct (IH (fun e' H => Hsafe e' (or_intror H)) st1) as (stf & Hrun & Hno).
    exists stf. split; [|exact Hno]. destruct out; [exact Hrun|exact Hrun|congruence].
Qed.

(** X12 (a Gemini chunk never breaks the stream): for the OpenAI and
    Cline targets, [TranslateGeminiResponseStream] does not panic on any
    chunk and any state, and it returns an error exactly when the chunk
    is not valid JSON. *)
Theorem gemini_chunks_never_break_the_stream (to raw model msgID : string)
    (st : UnifiedStreamState) :
  to = "openai"%string \/ to = "cline"%string ->
  let r := snd (TranslateGeminiResponseStream to raw model msgID st) in
  r <> ConvPanic
  /\ (r = ConvError <-> to_ir.ParseGeminiChunk raw = to_ir.ParseError).
Proof.
  intros Hto. cbv zeta. unfold TranslateGeminiResponseStream.
  destruct (to_ir.ParseGeminiChunk raw) as [events|] eqn:Hp.
  - rewrite (convert_openai to model msgID Hto).
    destruct (safe_events_run events
                (fun e H => parsed_safe _ raw events e Hp H) st) as (stf & Hrun & Hno).
    destruct (openai_loop_error model msgID events st [] stf Hrun) as [Herr Hpanic].
    destruct events as [|e events].
    + cbn. split; [discriminate|split; discriminate].
    + split; [exact Hpanic|]. split; [|discriminate].
      intros H. apply Herr in H. congruence.
  - cbn. split; [discriminate|split; reflexivity].
Qed.

End gemini.

Lemma reasoning_tokens_estimated_witness :
  exists st st' e idx u,
    after [samples.thinking] NewOpenAIStreamState = Some st
    /\ step st (zeroEvent EventTypeFinish) = (st', Emit e idx)
    /\ ev_Usage e = Some u /\ ThoughtsTokenCount u = 2.
Proof.
  eexists.
  destruct (reasoning_tokens_estimated [samples.thinking] _ (zeroEvent EventTypeFinish)
              eq_refl eq_refl eq_refl I eq_refl eq_refl)
    as (st' & e & idx & u & H1 & H2 & H3 & _).
  exists st', e, idx, u. split; [reflexivity|]. split; [exact H1|].
  split; [exact H2|exact H3].
Defined.

Lemma error_event_fails_the_call_witness :
  snd (convertUnifiedEventsToChunks (H := samples.OpenAIOnly)
         [samples.token_hi; zeroEvent EventTypeError] "openai" "m" "id"
         NewOpenAIStreamState)
  = ConvError.
Proof.
  eapply (error_event_fails_the_call (O := samples.OpenAIOnly) "openai" "m" "id"
            [samples.token_hi; zeroEvent EventTypeError]);
    [left; reflexivity|reflexivity|reflexivity].
Defined.

Lemma gemini_chunks_never_break_the_stream_witness :
  snd (TranslateGeminiResponseStream (H := samples.OpenAIOnly) (E := samples.OneChunk)
         "openai" (samples.compact samples.text_chunk) "m" "id" NewOpenAIStreamState)
  <> ConvPanic.
Proof.
  apply (gemini_chunks_never_break_the_stream (O := samples.OpenAIOnly)
           (E := samples.OneChunk) "openai").
  left. reflexivity.
Defined.

End executor_more.

(** ** Patterns of payload rules *)

Module pattern_facts.
Import gostr strings executor gostr_facts strings_facts.

Lemma drop_all s : drop (String.length s) s = EmptyString.
Proof. induction s as [|c s IH]; [reflexivity|exact IH]. Qed.

Lemma HasSuffix_spec s m :
  HasSuffix s m = true <-> exists a, s = (a ++ m)%string.
Proof.
  unfold HasSuffix. split.
  - intros H. apply andb_true_iff in H as [Hl He]. apply String.eqb_eq in He.
    exists (take (String.length s - String.length m) s).
    pose proof (take_drop (String.length s - String.length m) s) as H.
    rewrite He in H. symmetry. exact H.
  - intros [a ->]. rewrite length_app. apply andb_true_iff. split.
    + apply Nat.leb_le. lia.
    + replace (String.length a + String.length m - String.length m)%nat
        with (String.length a) by lia.
      rewrite drop_app. apply String.eqb_refl.
Qed.

Lemma Contains_spec s m :
  Contains s m = true <-> exists a b, s = (a ++ m ++ b)%string.
Proof.
  unfold Contains. split.
  - destruct (Index s m) as [i|] eqn:Hi; [|discriminate]. intros _.
    apply Index_Some in Hi as (Hp & _ & _). apply HasPrefix_spec in Hp as [b Hb].
    exists (take i s), b. rewrite <- Hb. symmetry. apply take_drop.
  - intros (a & b & ->). destruct (Index _ m) eqn:Hi; [reflexivity|].
    pose proof (proj1 (Index_None _ _) Hi (String.length a)) as H.
    rewrite drop_app, HasPrefix_app in H. rewrite length_app in H.
    specialize (H ltac:(lia)). discriminate.
Qed.

Lemma star_prefix p : HasPrefix p "*" = true <-> exists t, p = String "*" t.
Proof.
  split.
  - intros H. apply HasPrefix_spec in H as [r ->]. exists r. reflexivity.
  - intros [t ->]. destruct t; reflexivity.
Qed.

Lemma star_suffix p : HasSuffix p "*" = true <-> exists t, p = (t ++ "*")%string.
Proof. apply HasSuffix_spec. Qed.

Lemma take_app_minus a b :
  take (String.length (a ++ b)%string - String.length b) (a ++ b)%string = a.
Proof.
  rewrite length_app.
  replace (String.length a + String.length b - String.length b)%nat
    with (String.length a) by lia.
  apply take_app.
Qed.

(** The branches of [matchesPattern] by the shape of the pattern. *)
Lemma matches_both m name :
  matchesPattern ("*" ++ m ++ "*") name = true <-> Contains name m = true.
Proof.
  unfold matchesPattern.
  destruct (String.eqb ("*" ++ m ++ "*") name) eqn:E1.
  - apply String.eqb_eq in E1. subst name. split; [intros _|reflexivity].
    apply Contains_spec. exists "*"%string, "*"%string. reflexivity.
  - assert (E2 : String.eqb ("*" ++ m ++ "*") "*" = false).
    { rewrite append_cons, append_nil. destruct m; reflexivity. }
    rewrite E2. cbn [orb].
    assert (E3 : HasPrefix ("*" ++ m ++ "*") "*" = true) by (apply star_prefix; eexists; reflexivity).
    assert (E4 : HasSuffix ("*" ++ m ++ "*") "*" = true).
    { apply star_suffix. exists ("*" ++ m)%string. rewrite app_assoc. reflexivity. }
    rewrite E3, E4. cbn [andb].
    rewrite (append_cons "*" EmptyString), append_nil, drop_cons, drop_0.
    cbn [String.length].
    replace (S (String.length (m ++ "*")) - 2)%nat
      with (String.length (m ++ "*")%string - String.length "*"%string)%nat
      by (cbn [String.length]; lia).
    rewrite take_app_minus. reflexivity.
Qed.

Lemma matches_refl p : matchesPattern p p = true.
Proof. unfold matchesPattern. rewrite String.eqb_refl. reflexivity. Qed.

Lemma matches_star name : matchesPattern "*" name = true.
Proof. unfold matchesPattern. rewrite orb_true_r. reflexivity. Qed.

Lemma matches_leading m name :
  m <> EmptyString -> HasSuffix m "*" = false ->
  matchesPattern ("*" ++ m) name = true
  <-> ("*" ++ m)%string = name \/ HasSuffix name m = true.
Proof.
  intros Hm Hs. unfold matchesPattern.
  destruct (String.eqb_spec ("*" ++ m) name) as [E1|E1]; [cbn [orb]; tauto|].
  assert (E2 : String.eqb ("*" ++ m) "*" = false).
  { rewrite append_cons, append_nil. destruct m; [congruence|reflexivity]. }
  assert (E3 : HasPrefix ("*" ++ m) "*" = true) by (apply star_prefix; eexists; reflexivity).
  assert (E4 : HasSuffix ("*" ++ m) "*" = false).
  { destruct (HasSuffix ("*" ++ m) "*") eqn:E; [|reflexivity].
    apply star_suffix in E as [t Ht]. rewrite append_cons, append_nil in Ht.
    destruct t as [|c t].
    - rewrite append_nil in Ht. injection Ht as ->. congruence.
    - rewrite append_cons in Ht. injection Ht as _ ->.
      assert (HasSuffix (t ++ "*") "*" = true) by (apply star_suffix; eexists; reflexivity).
      congruence. }
  rewrite E2, E3, E4. cbn [orb andb].
  rewrite (append_cons "*" EmptyString), append_nil, drop_cons, drop_0. tauto.
Qed.

Lemma matches_trailing m name :
  HasPrefix (m ++ "*") "*" = false ->
  matchesPattern (m ++ "*") name = true
  <-> (m ++ "*")%string = name \/ HasPrefix name m = true.
Proof.
  intros Hp. unfold matchesPattern.
  destruct (String.eqb_spec (m ++ "*") name) as [E1|E1]; [cbn [orb]; tauto|].
  assert (E2 : String.eqb (m ++ "*") "*" = false).
  { destruct (String.eqb_spec (m ++ "*") "*") as [E|E]; [|reflexivity].
    rewrite E in Hp. discriminate. }
  assert (E4 : HasSuffix (m ++ "*") "*" = true) by (apply star_suffix; eexists; reflexivity).
  rewrite E2, Hp, E4. cbn [orb andb].
  replace (String.length (m ++ "*") - 1)%nat
    with (String.length (m ++ "*")%string - String.length "*"%string)%nat
    by reflexivity.
  rewrite take_app_minus. tauto.
Qed.

Lemma matches_literal p name :
  HasPrefix p "*" = false -> HasSuffix p "*" = false ->
  matchesPattern p name = true <-> p = name.
Proof.
  intros Hp Hs. unfold matchesPattern. rewrite Hp, Hs. cbn [andb].
  destruct (String.eqb_spec p name) as [E1|E1]; [cbn [orb]; tauto|].
  destruct (String.eqb_spec p "*") as [E2|E2]; [subst; discriminate|].
  cbn [orb]. split; [discriminate|congruence].
Qed.

(** X13 (patterns of payload rules): [matchesPattern] accepts a name
    exactly when the pattern is the name itself, or [*m*] with [m]
    occurring in the name, or [*m] with the name ending in [m], or [m*]
    with the name beginning with [m].  A star is a wildcard at the two
    ends of the pattern only. *)
Theorem matchesPattern_is_a_glob_at_the_ends (pattern name : string) :
  matchesPattern pattern name = true
  <-> pattern = name
      \/ (exists m, pattern = ("*" ++ m ++ "*")%string /\ Contains name m = true)
      \/ (exists m, pattern = ("*" ++ m)%string /\ HasSuffix name m = true)
      \/ (exists m, pattern = (m ++ "*")%string /\ HasPrefix name m = true).
Proof.
  split.
  - intros H.
    destruct (HasPrefix pattern "*") eqn:Hp; destruct (HasSuffix pattern "*") eqn:Hs.
    + apply star_prefix in Hp as [t ->]. apply star_suffix in Hs as [u Hu].
      destruct u as [|c u].
      * rewrite append_nil in Hu. injection Hu as ->.
        right. right. left. exists EmptyString. split; [reflexivity|].
        apply HasSuffix_spec. exists name. symmetry. apply app_empty_r.
      * rewrite append_cons in Hu. injection Hu as <- ->.
        right. left. exists u. split; [reflexivity|].
        apply (matches_both u name). exact H.
    + apply star_prefix in Hp as [t ->].
      destruct t as [|c t]; [discriminate Hs|].
      assert (Ht : HasSuffix (String c t) "*" = false).
      { destruct (HasSuffix (String c t) "*") eqn:E; [|reflexivity].
        apply star_suffix in E as [u Hu].
        assert (HasSuffix (String "*" (String c t)) "*" = true).
        { apply star_suffix. exists (String "*" u). rewrite append_cons.
          f_equal. exact Hu. }
        congruence. }
      apply (matches_leading (String c t) name ltac:(discriminate) Ht) in H.
      destruct H as [H|H]; [left; exact H|].
      right. right. left. exists (String c t). split; [reflexivity|exact H].
    + pose proof Hs as Hs'. apply star_suffix in Hs' as [u ->].
      apply (matches_trailing u name Hp) in H.
      destruct H as [H|H]; [left; exact H|].
      right. right. right. exists u. split; [reflexivity|exact H].
    + left. apply (matches_literal pattern name Hp Hs). exact H.
  - intros [->|[(m & -> & H)|[(m & -> & H)|(m & -> & H)]]].
    + apply matches_refl.
    + apply matches_both. exact H.
    + destruct m as [|c m]; [apply matches_star|].
      destruct (HasSuffix (String c m) "*") eqn:Hs.
      * apply star_suffix in Hs as [u Hu]. rewrite Hu in *.
        apply matches_both. apply HasSuffix_spec in H as [a ->].
        apply Contains_spec. exists a, "*"%string. reflexivity.
      * apply matches_leading; [discriminate|exact Hs|right; exact H].
    + destruct (HasPrefix (m ++ "*") "*") eqn:Hp.
      * apply star_prefix in Hp as [t Ht].
        destruct m as [|c m].
        -- rewrite append_nil. apply matches_star.
        -- rewrite append_cons in Ht. injection Ht as -> <-.
           apply (matches_both m name). apply HasPrefix_spec in H as [b ->].
           apply Contains_spec. exists "*"%string, b. reflexivity.
      * apply matches_trailing; [exact Hp|right; exact H].
Qed.

End pattern_facts.

(** ** The converter of the Gemini providers *)

Module wrapper_facts.
Import gostr ir from_ir wrapper.

Lemma wrap64_same z : - 2 ^ 63 <= z < 2 ^ 63 -> wrap64 z = z.
Proof. intros H. unfold wrap64. rewrite Z.mod_small; lia. Qed.

Ltac open_gstep st e :=
  unfold step, indexAndEmit;
  destruct (trackContent st e) as [hasContent reasoningChars] eqn:Htrack.

Ltac gstep_branches :=
  repeat match goal with
  | |- context [if ?b then _ else _] => destruct b eqn:?
  | |- context [match ?o with Some _ => _ | None => _ end] => destruct o eqn:?
  end.

Lemma tool_calls_cons e events :
  tool_calls (e :: events)
  = (if EventType_eqb (ev_Type e) EventTypeToolCall then 1 else 0) + tool_calls events.
Proof.
  unfold tool_calls. rewrite filter_cons.
  destruct (EventType_eqb (ev_Type e) EventTypeToolCall) eqn:E.
  - rewrite decide_True by reflexivity. cbn [length]. lia.
  - rewrite decide_False by discriminate. lia.
Qed.

Lemma tool_calls_nonneg events : 0 <= tool_calls events.
Proof. unfold tool_calls. lia. Qed.

Lemma indexAndEmit_index st e :
  ToolCallIndex (fst (indexAndEmit st e))
  = if EventType_eqb (ev_Type e) EventTypeToolCall
    then wrap64 (ToolCallIndex st + 1) else ToolCallIndex st.
Proof. unfold indexAndEmit. gstep_branches; reflexivity. Qed.

(** A header is marked at the index handed out, nowhere else. *)
Lemma indexAndEmit_headers st e j :
  ToolCallSentHeader st !! j = None ->
  j <> (if EventType_eqb (ev_Type e) EventTypeToolCall then ToolCallIndex st else 0) ->
  ToolCallSentHeader (fst (indexAndEmit st e)) !! j = None.
Proof.
  intros Hj Hne. unfold indexAndEmit.
  destruct (ev_ToolCall e); [|exact Hj].
  destruct (default false _); cbn [fst ToolCallSentHeader]; [exact Hj|].
  rewrite lookup_insert_ne by congruence. exact Hj.
Qed.

(** What [step] does to the index and the headers is what
    [indexAndEmit] does, when it gets that far. *)
Lemma step_cases st e :
  (ToolCallIndex (fst (step st e)) = ToolCallIndex st
   /\ ToolCallSentHeader (fst (step st e)) = ToolCallSentHeader st
   /\ ev_Type e = EventTypeFinish)
  \/ exists st1 e1,
       ToolCallIndex st1 = ToolCallIndex st
       /\ ToolCallSentHeader st1 = ToolCallSentHeader st
       /\ ev_Type e1 = ev_Type e
       /\ fst (step st e) = fst (indexAndEmit st1 e1).
Proof.
  unfold step. destruct (trackContent st e) as [hasContent reasoningChars].
  destruct (EventType_eqb (ev_Type e) EventTypeFinish) eqn:Ht.
  - assert (Hty : ev_Type e = EventTypeFinish)
      by (destruct (ev_Type e); try discriminate; reflexivity).
    destruct (FinishSent st); [left; repeat split; assumption|].
    destruct (negb hasContent); [left; repeat split; assumption|].
    right.
    match goal with |- context [indexAndEmit ?s ?ev] => exists s, ev end.
    repeat split. destruct (indexAndEmit _ _). reflexivity.
  - right.
    match goal with |- context [indexAndEmit ?s ?ev] => exists s, ev end.
    repeat split. destruct (indexAndEmit _ _). reflexivity.
Qed.

Lemma gstep_index st e :
  ToolCallIndex (fst (step st e))
  = if EventType_eqb (ev_Type e) EventTypeToolCall
    then wrap64 (ToolCallIndex st + 1) else ToolCallIndex st.
Proof.
  destruct (step_cases st e) as [(H1 & _ & Ht)|(st1 & e1 & H1 & _ & Ht & ->)].
  - rewrite H1, Ht. reflexivity.
  - rewrite indexAndEmit_index, Ht, H1. reflexivity.
Qed.

(** The headers marked so far lie below the next index, or at 0. *)
Lemma step_headers st e :
  (EventType_eqb (ev_Type e) EventTypeToolCall = true -> 0 <= ToolCallIndex st < 2 ^ 63 - 1) ->
  (forall j, 0 < j -> ToolCallIndex st <= j -> ToolCallSentHeader st !! j = None) ->
  forall j, 0 < j -> ToolCallIndex (fst (step st e)) <= j ->
    ToolCallSentHeader (fst (step st e)) !! j = None.
Proof.
  intros Hb Hinv j Hj. rewrite gstep_index.
  destruct (step_cases st e) as [(_ & H2 & Ht)|(st1 & e1 & H1 & H2 & Ht & ->)].
  - rewrite H2, Ht. cbn [EventType_eqb]. apply Hinv, Hj.
  - intros Hle. apply indexAndEmit_headers; rewrite ?H2, ?Ht, ?H1.
    + apply Hinv; [exact Hj|].
      destruct (EventType_eqb (ev_Type e) EventTypeToolCall); [|exact Hle].
      rewrite wrap64_same in Hle by (specialize (Hb eq_refl); lia). lia.
    + destruct (EventType_eqb (ev_Type e) EventTypeToolCall); [|lia].
      rewrite wrap64_same in Hle by (specialize (Hb eq_refl); lia). lia.
Qed.

Lemma after_index events :
  forall st,
    0 <= ToolCallIndex st ->
    ToolCallIndex st + tool_calls events < 2 ^ 63 ->
    (forall j, 0 < j -> ToolCallIndex st <= j -> ToolCallSentHeader st !! j = None) ->
    ToolCallIndex (after events st) = ToolCallIndex st + tool_calls events
    /\ (forall j, 0 < j -> ToolCallIndex (after events st) <= j ->
          ToolCallSentHeader (after events st) !! j = None).
Proof.
  induction events as [|e events IH]; intros st H0 Hb Hinv; cbn [after].
  - unfold tool_calls. cbn. split; [lia|exact Hinv].
  - rewrite tool_calls_cons in *. pose proof (tool_calls_nonneg events) as Hn.
    pose proof (gstep_index st e) as Hi.
    assert (Hinv' : forall j, 0 < j -> ToolCallIndex (fst (step st e)) <= j ->
                      ToolCallSentHeader (fst (step st e)) !! j = None).
    { apply step_headers; [|exact Hinv]. intros Ht. rewrite Ht in Hb. lia. }
    destruct (EventType_eqb (ev_Type e) EventTypeToolCall) eqn:Ht.
    + rewrite wrap64_same in Hi by lia.
      destruct (IH (fst (step st e)) ltac:(lia) ltac:(lia) Hinv') as [I1 I2].
      split; [rewrite I1; lia|exact I2].
    + destruct (IH (fst (step st e)) ltac:(lia) ltac:(lia) Hinv') as [I1 I2].
      split; [rewrite I1; lia|exact I2].
Qed.

Lemma fresh_state_facts events :
  tool_calls events < 2 ^ 63 ->
  ToolCallIndex (after events NewAntigravityStreamState) = tool_calls events
  /\ (forall j, 0 < j -> tool_calls events <= j ->
        ToolCallSentHeader (after events NewAntigravityStreamState) !! j = None).
Proof.
  intros Hb.
  destruct (after_index events NewAntigravityStreamState) as [H1 H2];
    cbn [ToolCallIndex NewAntigravityStreamState ToolCallSentHeader].
  - lia.
  - lia.
  - intros j _ _. apply lookup_empty.
  - cbn [ToolCallIndex NewAntigravityStreamState] in H1. rewrite Z.add_0_l in H1.
    split; [exact H1|]. intros j Hj Hle. apply H2; [exact Hj|]. rewrite H1. exact Hle.
Qed.

(** X14 (the Gemini converter numbers tool calls by arrival): on a
    fresh state of [convertGeminiEventsToChunks], the ToolCall event that
    comes after k others is handed to the chunk builder with index k,
    which is also written into the event when it carries a tool call,
    whatever index it came with; from the second ToolCall event on the
    tool call goes out as it came, ID and name included. *)
Theorem gemini_tool_calls_numbered_by_arrival (events : list UnifiedEvent)
    (e : UnifiedEvent) :
  ev_Type e = EventTypeToolCall ->
  tool_calls events + 1 < 2 ^ 63 ->
  exists st' e',
    step (after events NewAntigravityStreamState) e = (st', Some (e', tool_calls events))
    /\ ev_Type e' = EventTypeToolCall
    /\ (ev_ToolCall e <> None -> ev_ToolCallIndex e' = tool_calls events)
    /\ (0 < tool_calls events -> ev_ToolCall e' = ev_ToolCall e).
Proof.
  intros Ht Hb. destruct (fresh_state_facts events ltac:(lia)) as [Hi Hh].
  set (st := after events NewAntigravityStreamState) in *.
  unfold step, trackContent, indexAndEmit. rewrite Ht. cbn [EventType_eqb ToolCallIndex ToolCallSentHeader].
  rewrite Hi.
  destruct (ev_ToolCall e) as [tc|] eqn:Htc.
  - destruct (default false (ToolCallSentHeader st !! tool_calls events)) eqn:Hd.
    + eexists _, _. split; [reflexivity|]. cbn.
      split; [exact Ht|]. split; [reflexivity|].
      intros Hpos. rewrite (Hh _ Hpos ltac:(lia)) in Hd. discriminate.
    + eexists _, _. split; [reflexivity|]. cbn.
      split; [exact Ht|]. split; [reflexivity|]. intros _. exact Htc.
  - eexists _, _. split; [reflexivity|].
    split; [exact Ht|]. split; [congruence|]. intros _. exact Htc.
Qed.

(** *** Finish events *)

Lemma step_out_type st e st' e' idx :
  step st e = (st', Some (e', idx)) -> ev_Type e' = ev_Type e.
Proof.
  unfold step, indexAndEmit. destruct (trackContent st e) as [hasContent reasoningChars].
  gstep_branches; intros [= <- <- <-]; reflexivity.
Qed.

Lemma gstep_FinishSent st e :
  FinishSent st = true -> FinishSent (fst (step st e)) = true.
Proof.
  intros Hf. unfold step, indexAndEmit.
  destruct (trackContent st e) as [hasContent reasoningChars]. rewrite Hf.
  gstep_branches; cbn; try reflexivity; exact Hf.
Qed.

Lemma step_Finish st e st' e' idx :
  ev_Type e = EventTypeFinish -> step st e = (st', Some (e', idx)) ->
  FinishSent st = false /\ FinishSent st' = true
  /\ ev_FinishReason e' = finishReasonFor (ToolCallIndex st) e.
Proof.
  intros Ht. unfold step, indexAndEmit.
  destruct (trackContent st e) as [hasContent reasoningChars]. rewrite Ht.
  cbn [EventType_eqb]. destruct (FinishSent st); [discriminate|].
  destruct (negb hasContent); [discriminate|].
  gstep_branches; intros [= <- <- <-]; repeat split.
Qed.

Lemma finishes_cons o outs :
  finishes (o :: outs)
  = ((if EventType_eqb (ev_Type (fst o)) EventTypeFinish then 1 else 0) + finishes outs)%nat.
Proof.
  unfold finishes. rewrite filter_cons.
  destruct (EventType_eqb (ev_Type (fst o)) EventTypeFinish) eqn:E.
  - rewrite decide_True by reflexivity. reflexivity.
  - rewrite decide_False by discriminate. reflexivity.
Qed.

Lemma outputs_after_finish events :
  forall st, FinishSent st = true -> finishes (outputs events st) = 0%nat.
Proof.
  induction events as [|e events IH]; intros st Hf; cbn [outputs]; [reflexivity|].
  pose proof (gstep_FinishSent st e Hf) as Hf'.
  destruct (step st e) as [st1 [[e' idx]|]] eqn:Hs; cbn [fst] in Hf'.
  - rewrite finishes_cons, (IH st1 Hf'). cbn [fst].
    destruct (EventType_eqb (ev_Type e') EventTypeFinish) eqn:Ht; [|reflexivity].
    assert (Hty : ev_Type e = EventTypeFinish).
    { rewrite <- (step_out_type _ _ _ _ _ Hs).
      destruct (ev_Type e'); try discriminate; reflexivity. }
    destruct (step_Finish _ _ _ _ _ Hty Hs) as [H _]. congruence.
  - apply IH, Hf'.
Qed.

Lemma outputs_one_finish events :
  forall st, (finishes (outputs events st) <= 1)%nat.
Proof.
  induction events as [|e events IH]; intros st; cbn [outputs]; [cbn; lia|].
  destruct (step st e) as [st1 [[e' idx]|]] eqn:Hs; [|apply IH].
  rewrite finishes_cons. cbn [fst].
  destruct (EventType_eqb (ev_Type e') EventTypeFinish) eqn:Ht; [|apply IH].
  assert (Hty : ev_Type e = EventTypeFinish).
  { rewrite <- (step_out_type _ _ _ _ _ Hs).
    destruct (ev_Type e'); try discriminate; reflexivity. }
  destruct (step_Finish _ _ _ _ _ Hty Hs) as (_ & H & _).
  rewrite (outputs_after_finish events st1 H). lia.
Qed.

(** X15 (the Gemini converter and Finish): over one state at most one
    Finish event reaches the chunk builder; and a Finish that is let
    through after a ToolCall event goes out with the reason tool_calls
    whatever reason it came with (length and content_filter included),
    otherwise with its own reason. *)
Theorem gemini_finish_once_and_tool_calls_win (events : list UnifiedEvent)
    (fin : UnifiedEvent) (model messageID : string) :
  (finishes (outputs events NewAntigravityStreamState) <= 1)%nat
  /\ forall st' e' idx,
       tool_calls events < 2 ^ 63 ->
       ev_Type fin = EventTypeFinish ->
       step (after events NewAntigravityStreamState) fin = (st', Some (e', idx)) ->
       ev_FinishReason e'
       = (if 0 <? tool_calls events then FinishReasonToolCalls
          else ev_FinishReason fin)
       /\ exists c,
            ToOpenAIChunk e' model messageID idx = ChunkBytes c
            /\ finish_reason c
               = Some (if 0 <? tool_calls events then "tool_calls"%string
                       else MapFinishReasonToOpenAI (ev_FinishReason fin)).
Proof.
  split; [apply outputs_one_finish|].
  intros st' e' idx Hb Ht Hs.
  destruct (fresh_state_facts events Hb) as [Hi _].
  destruct (step_Finish _ _ _ _ _ Ht Hs) as (_ & _ & Hr).
  pose proof (step_out_type _ _ _ _ _ Hs) as Hty. rewrite Ht in Hty.
  rewrite Hi in Hr. unfold finishReasonFor in Hr.
  split; [exact Hr|].
  unfold ToOpenAIChunk. rewrite Hty. eexists. split; [reflexivity|].
  cbn [finish_reason]. rewrite Hr. destruct (0 <? tool_calls events); reflexivity.
Qed.
Lemma gemini_tool_calls_numbered_by_arrival_witness :
  exists st' e',
    step (after [samples.tool_event EventTypeToolCall 7] NewAntigravityStreamState)
         (samples.tool_event EventTypeToolCall 3)
    = (st', Some (e', 1))
    /\ ev_ToolCallIndex e' = 1 /\ ev_ToolCall e' = Some samples.call_f.
Proof.
  destruct (gemini_tool_calls_numbered_by_arrival
              [samples.tool_event EventTypeToolCall 7]
              (samples.tool_event EventTypeToolCall 3) eq_refl eq_refl)
    as (st' & e' & H1 & _ & H2 & H3).
  exists st', e'. split; [exact H1|]. split; [apply H2; discriminate|].
  apply H3. reflexivity.
Defined.

End wrapper_facts.

(** ** Finish reasons and reasoning budgets *)

Module ir_maps_facts.
Import gostr ir.

Ltac string_cases s :=
  repeat match goal with
  | |- context [String.eqb s ?k] =>
      destruct (String.eqb_spec s k) as [->|?]; cbn [orb]
  end.

(** X16 (finish reasons through the IR): an OpenAI finish_reason comes
    back unchanged from [MapOpenAIFinishReason] and
    [MapFinishReasonToOpenAI] exactly when it is stop, length, tool_calls
    or content_filter; function_call comes back as tool_calls and any
    other string as stop.  In the other direction the four proper reasons
    survive the OpenAI strings, Unknown comes back as Stop; through the
    Claude strings ContentFilter is lost as well. *)
Theorem finish_reasons_through_the_IR (s : string) (r : FinishReason) :
  (MapFinishReasonToOpenAI (MapOpenAIFinishReason s) = s
   <-> s = "stop"%string \/ s = "length"%string \/ s = "tool_calls"%string
       \/ s = "content_filter"%string)
  /\ MapFinishReasonToOpenAI (MapOpenAIFinishReason s)
     = (if String.eqb s "function_call" then "tool_calls"%string
        else if String.eqb s "length" || String.eqb s "tool_calls"
                || String.eqb s "content_filter" then s
        else "stop"%string)
  /\ MapOpenAIFinishReason (MapFinishReasonToOpenAI r)
     = match r with
       | FinishReasonUnknown | FinishReasonNone => FinishReasonStop
       | _ => r
       end
  /\ MapClaudeFinishReason (MapFinishReasonToClaude r)
     = match r with
       | FinishReasonLength | FinishReasonToolCalls => r
       | _ => FinishReasonStop
       end.
Proof.
  split; [|split; [|split]].
  - unfold MapOpenAIFinishReason. string_cases s; cbn; split; intros H;
      try tauto; try discriminate; try congruence.
    all: try (destruct H as [H|[H|[H|H]]]; congruence).
  - unfold MapOpenAIFinishReason. string_cases s; reflexivity.
  - destruct r; reflexivity.
  - destruct r; reflexivity.
Qed.

(** X17 (budget and effort): the effort [MapBudgetToEffort] chooses for
    a positive budget is low, medium or high; the budget
    [MapEffortToBudget] gives for that effort covers the budget asked
    for, up to 24576, includes thoughts, and maps back to the same
    effort.  A budget of zero or less gives the caller's default. *)
Theorem effort_covers_budget (budget : Z) (defaultForZero other : string) :
  (budget <= 0 -> MapBudgetToEffort budget defaultForZero = defaultForZero)
  /\ (0 < budget ->
      let effort := MapBudgetToEffort budget defaultForZero in
      (effort = "low"%string \/ effort = "medium"%string \/ effort = "high"%string)
      /\ snd (MapEffortToBudget effort) = true
      /\ Z.min budget 24576 <= fst (MapEffortToBudget effort)
      /\ MapBudgetToEffort (fst (MapEffortToBudget effort)) other = effort).
Proof.
  unfold MapBudgetToEffort. split.
  - intros H. destruct (Z.leb_spec budget 0); [reflexivity|lia].
  - intros H. cbv zeta. destruct (Z.leb_spec budget 0); [lia|].
    destruct (Z.leb_spec budget 1024); [cbn; repeat split; try tauto; lia|].
    destruct (Z.leb_spec budget 8192); cbn; repeat split; try tauto; lia.
Qed.

End ir_maps_facts.

(** ** The events of a parsed Gemini chunk *)

Module gemini_more.
Import gostr gjson ir to_ir.

Section chunk.
Context {N : Numbers} {T : Text} {E : Env}.

Lemma nonempty_string s : is_empty s = false -> s <> EmptyString.
Proof. destruct s; [discriminate|discriminate]. Qed.

Lemma inline_image_payload part img :
  parseGeminiInlineImage part = Some img ->
  Data img <> EmptyString /\ MimeType img <> EmptyString.
Proof.
  unfold parseGeminiInlineImage.
  destruct (negb (Exists _)); [discriminate|].
  destruct (is_empty (String_ (Get _ "data"))) eqn:Hd; [discriminate|].
  intros [= <-]. cbn [Data MimeType]. split; [apply nonempty_string, Hd|].
  destruct (is_empty (String_ (Get _ "mimeType"))) eqn:Hm.
  - destruct (is_empty (String_ (Get _ "mime_type"))) eqn:Hm'; [discriminate|].
    apply nonempty_string, Hm'.
  - rewrite Hm. apply nonempty_string, Hm.
Qed.

Lemma partEvents_payload part :
  (length (partEvents part) <= 1)%nat
  /\ forall e, In e (partEvents part) -> carries_payload e.
Proof.
  unfold partEvents.
  destruct (Exists (Get part "text") && negb (is_empty (String_ (Get part "text")))) eqn:Ht.
  - apply andb_true_iff in Ht as [_ Ht]. apply negb_true_iff in Ht.
    destruct (Bool (Get part "thought")); (split; [cbn; lia|]);
      intros e [<-|[]]; unfold carries_payload; cbn.
    + left. apply nonempty_string, Ht.
    + apply nonempty_string, Ht.
  - destruct (Exists (Get part "functionCall")).
    + destruct (negb (is_empty (String_ (Get (Get part "functionCall") "name")))) eqn:Hn;
        (split; [cbn; lia|]); [|intros e []].
      apply negb_true_iff in Hn.
      intros e [<-|[]]. unfold carries_payload. cbn.
      eexists. split; [reflexivity|]. cbn. apply nonempty_string, Hn.
    + destruct (parseGeminiInlineImage part) as [img|] eqn:Hi.
      * split; [cbn; lia|]. intros e [<-|[]]. unfold carries_payload. cbn.
        exists img. split; [reflexivity|]. eapply inline_image_payload, Hi.
      * match goal with |- context [negb (is_empty ?ts)] =>
          destruct (negb (is_empty ts)) eqn:Hts end;
          (split; [cbn; lia|]); [|intros e []].
        apply negb_true_iff in Hts. intros e [<-|[]]. unfold carries_payload. cbn.
        right. apply nonempty_string, Hts.
Qed.

Lemma parts_payload (parts : list JSON) :
  (length (flat_map (fun part => partEvents (Some part)) parts) <= length parts)%nat
  /\ Forall carries_payload (flat_map (fun part => partEvents (Some part)) parts).
Proof.
  induction parts as [|p parts [IH1 IH2]]; cbn [flat_map]; [split; [cbn; lia|constructor]|].
  destruct (partEvents_payload (Some p)) as [H1 H2].
  rewrite List.length_app. cbn [length]. split; [lia|].
  apply Forall_app. split; [apply List.Forall_forall; exact H2|exact IH2].
Qed.

(** X18 (the events of a parsed chunk are well formed): the events
    [ParseGeminiChunk] returns are content events, at most one for each
    part of the first candidate, followed by at most one Finish event.
    Every content event carries its payload: a token its text, a
    reasoning event text or a thought signature, a tool call event a tool
    call with a name, an image event data and a media type. *)
Theorem parsed_events_are_well_formed (mapReason : string -> FinishReason)
    (rawJSON : string) (events : list UnifiedEvent) :
  ParseGeminiChunkWith mapReason rawJSON = Events events ->
  exists body closing,
    events = body ++ closing
    /\ Forall carries_payload body
    /\ (closing = [] \/ exists usage reason, closing = [finishEvent usage reason])
    /\ forall doc, ParseBytes (ExtractSSEData rawJSON) = Some doc ->
         (length body
          <= length (Array (Get (Get (Some (hd JNull (Array (Get (Some doc) "candidates"))))
                                  "content") "parts")))%nat.
Proof.
  unfold ParseGeminiChunkWith.
  destruct (len (ExtractSSEData rawJSON) =? 0).
  { intros [= <-]. exists [], []. repeat split; [constructor|left; reflexivity|].
    intros doc _. cbn. lia. }
  destruct (String.eqb (ExtractSSEData rawJSON) "[DONE]").
  { intros [= <-]. exists [], [zeroEvent EventTypeFinish].
    repeat split; [constructor|right; exists None, FinishReasonNone; reflexivity|].
    intros doc _. cbn. lia. }
  destruct (ParseBytes (ExtractSSEData rawJSON)) as [doc|]; [|discriminate].
  destruct (Array (Get (Some doc) "candidates")) as [|candidate rest] eqn:Hc.
  - cbn. intros [= <-]. exists [], []. repeat split; [constructor|left; reflexivity|].
    intros doc' _. cbn. lia.
  - destruct (parts_payload (Array (Get (Get (Some candidate) "content") "parts")))
      as [P1 P2].
    destruct (negb (FinishReason_eqb _ FinishReasonNone)); intros [= <-].
    + eexists _, _. split; [reflexivity|]. split; [exact P2|].
      split; [right; eexists _, _; reflexivity|].
      intros doc' [= <-]. rewrite Hc. cbn [hd]. exact P1.
    + eexists _, []. split; [symmetry; apply app_nil_r|]. split; [exact P2|].
      split; [left; reflexivity|].
      intros doc' [= <-]. rewrite Hc. cbn [hd]. exact P1.
Qed.

End chunk.

Lemma parsed_events_are_well_formed_witness :
  exists events body closing,
    ParseGeminiChunk (E := samples.OneChunk) (samples.compact samples.text_chunk)
    = Events events
    /\ events = body ++ closing /\ Forall carries_payload body
    /\ length events = 2%nat.
Proof.
  eexists.
  assert (Hp : ParseGeminiChunkWith (E := samples.OneChunk)
                 (MapGeminiFinishReason (T := samples.IntegerText))
                 (samples.compact samples.text_chunk)
               = Events [samples.token_hi; finishEvent None FinishReasonStop])
    by reflexivity.
  destruct (parsed_events_are_well_formed (E := samples.OneChunk) _ _ _ Hp)
    as (body & closing & H1 & H2 & _).
  exists body, closing. split; [exact Hp|]. split; [exact H1|].
  split; [exact H2|reflexivity].
Defined.

End gemini_more.


(** ** Values decoded from JSON *)

Module values_facts.
Import gostr irfix helpers irvalues.

Section values.
Context {F : Floats}.

(** Induction on a decoded value, with the hypothesis for every entry
    of a map and every element of a slice. *)
Lemma any_nested_ind (P : any -> Prop) :
  P ANil -> (forall b, P (ABool b)) -> (forall f, P (AFloat f)) ->
  (forall s, P (AString s)) ->
  (forall l, List.Forall P l -> P (ASlice l)) ->
  (forall m, List.Forall (fun kv : string * any => P (snd kv)) m -> P (AMap m)) ->
  forall v, P v.
Proof.
  intros Hn Hb Hf Hs Hl Hm. fix IH 1. intros [|b|f|s|l|m].
  - exact Hn.
  - apply Hb.
  - apply Hf.
  - apply Hs.
  - apply Hl. induction l as [|x l IHl]; constructor; [apply IH|exact IHl].
  - apply Hm. induction m as [|[k x] m IHm]; constructor; [apply IH|exact IHm].
Qed.

Lemma RemoveNulls_nil v : is_nil (RemoveNullsFromToolInput v) = is_nil v.
Proof. destruct v; reflexivity. Qed.

Lemma RemoveNulls_facts v :
  has_null_inside (RemoveNullsFromToolInput v) = false
  /\ RemoveNullsFromToolInput (RemoveNullsFromToolInput v) = RemoveNullsFromToolInput v.
Proof.
  induction v as [|b|f|s|l IH|m IH] using any_nested_ind; try (split; reflexivity).
  - cbn [RemoveNullsFromToolInput has_null_inside].
    induction IH as [|x l [Hx1 Hx2] _ [IH1 IH2]]; [split; reflexivity|].
    cbn [flat_map]. destruct (is_nil x) eqn:Hn; [split; assumption|].
    rewrite RemoveNulls_nil, Hn. cbn [app existsb flat_map].
    rewrite !RemoveNulls_nil, !Hn, Hx1, IH1.
    split; [reflexivity|]. cbn [app]. rewrite Hx2. injection IH2 as IH2. rewrite IH2.
    reflexivity.
  - cbn [RemoveNullsFromToolInput has_null_inside].
    induction IH as [|[k x] m [Hx1 Hx2] _ [IH1 IH2]]; [split; reflexivity|].
    cbn [flat_map snd] in *. destruct (is_nil x) eqn:Hn; [split; assumption|].
    rewrite RemoveNulls_nil, Hn. cbn [app existsb flat_map snd].
    rewrite !RemoveNulls_nil, !Hn, Hx1, IH1.
    split; [reflexivity|]. cbn [app]. rewrite Hx2. injection IH2 as IH2. rewrite IH2.
    reflexivity.
Qed.

Lemma RemoveNulls_clean v :
  has_null_inside v = false -> RemoveNullsFromToolInput v = v.
Proof.
  induction v as [|b|f|s|l IH|m IH] using any_nested_ind; try reflexivity.
  - cbn [RemoveNullsFromToolInput has_null_inside]. intros H. f_equal.
    induction IH as [|x l Hx _ IHl]; [reflexivity|].
    cbn [existsb flat_map] in *. apply orb_false_iff in H as [H1 H2].
    apply orb_false_iff in H1 as [Hn Hc].
    rewrite Hn, (Hx Hc), Hn. cbn [app]. f_equal. apply IHl, H2.
  - cbn [RemoveNullsFromToolInput has_null_inside]. intros H. f_equal.
    induction IH as [|[k x] m Hx _ IHl]; [reflexivity|].
    cbn [existsb flat_map snd] in *. apply orb_false_iff in H as [H1 H2].
    apply orb_false_iff in H1 as [Hn Hc].
    rewrite Hn, (Hx Hc), Hn. cbn [app]. f_equal. apply IHl, H2.
Qed.

(** The parsers' helper of the same name skips the second test, which
    never fires. *)
Lemma RemoveNulls_same v :
  helpers.RemoveNullsFromToolInput v = RemoveNullsFromToolInput v.
Proof.
  induction v as [|b|f|s|l IH|m IH] using any_nested_ind; try reflexivity.
  - cbn [helpers.RemoveNullsFromToolInput RemoveNullsFromToolInput]. f_equal.
    induction IH as [|x l Hx _ IHl]; [reflexivity|].
    cbn [flat_map]. rewrite IHl, Hx, RemoveNulls_nil.
    destruct (is_nil x); reflexivity.
  - cbn [helpers.RemoveNullsFromToolInput RemoveNullsFromToolInput]. f_equal.
    induction IH as [|[k x] m Hx _ IHl]; [reflexivity|].
    cbn [flat_map snd] in *. rewrite IHl, Hx, RemoveNulls_nil.
    destruct (is_nil x); reflexivity.
Qed.

(** X19.  [RemoveNullsFromToolInput] leaves no nil entry in any map or
    slice of its result, at any depth; a second application changes
    nothing, a value without nil entries is returned as it is, and the
    result is nil only for a nil input.  The function of package ir and
    the one of the parsers' helpers return the same value. *)
Theorem RemoveNulls_leaves_no_null (v : any) :
  has_null_inside (RemoveNullsFromToolInput v) = false
  /\ RemoveNullsFromToolInput (RemoveNullsFromToolInput v) = RemoveNullsFromToolInput v
  /\ (has_null_inside v = false -> RemoveNullsFromToolInput v = v)
  /\ is_nil (RemoveNullsFromToolInput v) = is_nil v
  /\ helpers.RemoveNullsFromToolInput v = RemoveNullsFromToolInput v.
Proof.
  destruct (RemoveNulls_facts v) as [H1 H2].
  split; [exact H1|]. split; [exact H2|]. split; [apply RemoveNulls_clean|].
  split; [apply RemoveNulls_nil|apply RemoveNulls_same].
Qed.

(** *** DeepCleanUndefined *)

Lemma cleaned_facts v :
  has_undefined_entry (cleaned v) = false /\ cleaned (cleaned v) = cleaned v.
Proof.
  induction v as [|b|f|s|l IH|m IH] using any_nested_ind; try (split; reflexivity).
  - cbn [cleaned has_undefined_entry].
    induction IH as [|x l [Hx1 Hx2] _ [IH1 IH2]]; [split; reflexivity|].
    cbn [map existsb]. rewrite Hx1, IH1, Hx2. injection IH2 as IH2. rewrite IH2.
    split; reflexivity.
  - cbn [cleaned has_undefined_entry].
    induction IH as [|[k x] m [Hx1 Hx2] _ [IH1 IH2]]; [split; reflexivity|].
    injection IH2 as IH2. cbn [flat_map snd] in *.
    destruct x as [|b|f|s|l|m']; cbn [app existsb flat_map snd is_undefined];
      try (rewrite IH1, IH2; split; reflexivity).
    + destruct (String.eqb s "[undefined]") eqn:Hs; [split; [exact IH1|f_equal; exact IH2]|].
      cbn [app existsb flat_map snd is_undefined has_undefined_entry].
      rewrite Hs, IH1, IH2. split; reflexivity.
    + cbn [app existsb flat_map snd is_undefined orb] in *. rewrite Hx1, IH1, Hx2, IH2.
      split; reflexivity.
    + cbn [app existsb flat_map snd is_undefined orb] in *. rewrite Hx1, IH1, Hx2, IH2.
      split; reflexivity.
Qed.

(** Slices keep all their elements, the strings among them as they
    are. *)
Lemma cleaned_slice l :
  exists l', cleaned (ASlice l) = ASlice l' /\ length l' = length l
    /\ forall i s, nth_error l i = Some (AString s) -> nth_error l' i = Some (AString s).
Proof.
  exists (map cleaned l). split; [reflexivity|]. split; [apply List.length_map|].
  intros i s H. rewrite nth_error_map, H. reflexivity.
Qed.

(** X20.  After [DeepCleanUndefined] no map of the document has an
    entry with the value "[undefined]", at any depth, and a second
    pass changes nothing; an entry with another string keeps its
    value.  Slices keep all their elements: a string element is never
    removed, whatever it is. *)
Theorem DeepCleanUndefined_removes_placeholders (data : list (string * any)) :
  has_undefined_entry (AMap (DeepCleanUndefined data)) = false
  /\ DeepCleanUndefined (DeepCleanUndefined data) = DeepCleanUndefined data
  /\ (forall key s, s <> "[undefined]"%string ->
        index data key = Some (AString s) ->
        index (DeepCleanUndefined data) key = Some (AString s))
  /\ (forall l, exists l',
        cleaned (ASlice l) = ASlice l' /\ length l' = length l
        /\ forall i s, nth_error l i = Some (AString s) ->
                       nth_error l' i = Some (AString s)).
Proof.
  destruct (cleaned_facts (AMap data)) as [H1 H2].
  unfold DeepCleanUndefined. cbn [cleaned] in *.
  split; [exact H1|]. split; [injection H2 as H2; exact H2|].
  split; [|apply cleaned_slice].
  clear H1 H2.
  intros key s Hs. induction data as [|[k x] data IHd]; [discriminate|].
  cbn [index flat_map].
  destruct (String.eqb k key) eqn:Hk.
  - intros [= ->]. apply String.eqb_neq in Hs. rewrite Hs. cbn [app index].
    rewrite Hk. reflexivity.
  - intros H. specialize (IHd H).
    destruct x as [|b|f|s'|l|m']; cbn [app index]; rewrite ?Hk; try exact IHd.
    destruct (String.eqb s' "[undefined]"); cbn [app index]; rewrite ?Hk; exact IHd.
Qed.

(** *** uniqueStrings *)




End values.

End values_facts.

(** ** Schema-driven argument fixing: what stays in place *)

Module fixargs_facts.
Import gostr irfix irfix_facts.
Section fixing.
Context {F : Floats} {L : GoLib}.

Lemma fixPrimitive_nil lowerType v : is_nil (fixPrimitive lowerType v) = is_nil v.
Proof.
  unfold fixPrimitive.
  destruct (String.eqb lowerType "number" || String.eqb lowerType "integer").
  { destruct v as [| | |s| |]; try reflexivity.
    destruct (leadingZeroGuard s); [reflexivity|].
    destruct (ParseInt s); [reflexivity|]. destruct (ParseFloat s); reflexivity. }
  destruct (String.eqb lowerType "boolean").
  { destruct v as [| |n|s| |]; try reflexivity.
    - destruct (float64_is n 1); [reflexivity|]. destruct (float64_is n 0); reflexivity.
    - cbv zeta. destruct (_ || _); [reflexivity|]. destruct (_ || _); reflexivity. }
  destruct (String.eqb lowerType "string"); [|reflexivity].
  destruct v; reflexivity.
Qed.

Lemma fixSingleArg_nil v schema : is_nil (fixSingleArg v schema) = is_nil v.
Proof.
  destruct v; cbn [fixSingleArg];
    destruct (index schema "properties") as [[| | | | |props]|]; try reflexivity;
    try (destruct (String.eqb _ "array");
         [destruct (index schema "items") as [[| | | | |items]|]; reflexivity
         |apply fixPrimitive_nil]).
Qed.

Lemma fix_entry_nil props k v : is_nil (fix_entry props k v) = is_nil v.
Proof.
  unfold fix_entry. destruct (index props k) as [[| | | | |ps]|]; try reflexivity.
  cbv zeta. destruct (is_nil (fixSingleArg v ps)) eqn:E; [reflexivity|].
  rewrite <- (fixSingleArg_nil v ps), E. reflexivity.
Qed.

(** X22.  [FixToolCallArgs] neither adds, drops nor reorders an
    argument; a nil argument stays nil and no other argument becomes
    nil; and an argument for which the schema's properties hold no
    object is left exactly as it was.  This holds whatever the
    library's number parsing and printing return. *)
Theorem FixToolCallArgs_keeps_the_arguments (args schema : list (string * any)) :
  map fst (FixToolCallArgs args schema) = map fst args
  /\ (forall k v, index args k = Some v ->
        exists v', index (FixToolCallArgs args schema) k = Some v'
                   /\ is_nil v' = is_nil v)
  /\ (forall k, (forall props ps, index schema "properties" = Some (AMap props) ->
                                  index props k <> Some (AMap ps)) ->
        index (FixToolCallArgs args schema) k = index args k).
Proof.
  unfold FixToolCallArgs.
  destruct (index schema "properties") as [[| | | | |props]|];
    try (split; [reflexivity|]; split; [intros k v H; exists v; split; [exact H|reflexivity]
                                       |reflexivity]).
  rewrite fix_entries_eq. split; [|split].
  - rewrite map_map. reflexivity.
  - intros k v H. rewrite index_map_values, H. cbn [option_map].
    eexists. split; [reflexivity|apply fix_entry_nil].
  - intros k Hk. rewrite index_map_values. destruct (index args k) as [v|]; [|reflexivity].
    cbn [option_map]. f_equal. unfold fix_entry.
    destruct (index props k) as [[| | | | |ps]|] eqn:E; try reflexivity.
    exfalso. exact (Hk props ps eq_refl E).
Qed.

End fixing.
End fixargs_facts.

(** ** Codex: the grep sanitiser applied twice *)

Module codex_more.
Import gostr gjson ir to_ir codex_facts.

Section grep.
Context {N : Numbers} {T : Text}.

Lemma no_conflict_unchanged toolName (args : Result) :
  Exists (Get args "-C") && (Exists (Get args "-A") || Exists (Get args "-B")) = false ->
  sanitizeCodexGrepArgs toolName args = args.
Proof.
  intros H. unfold sanitizeCodexGrepArgs. destruct args as [doc|]; [|reflexivity].
  cbv zeta.
  destruct (Exists (Get (Some doc) "-C")), (Exists (Get (Some doc) "-A")),
    (Exists (Get (Some doc) "-B")); cbn [andb orb] in H; try discriminate H;
    cbn [negb andb orb]; rewrite ?andb_false_r, ?andb_true_r; cbn [negb andb orb];
    repeat match goal with |- context [if ?b then _ else _] => destruct b end;
    reflexivity.
Qed.

Lemma changed_has_no_conflict toolName (m : list (string * JSON)) :
  List.NoDup (keys m) ->
  let out := sanitizeCodexGrepArgs toolName (Some (JObject m)) in
  out = Some (JObject m)
  \/ Exists (Get out "-C") && (Exists (Get out "-A") || Exists (Get out "-B")) = false.
Proof.
  intros Hnd out. subst out. unfold sanitizeCodexGrepArgs. cbv zeta.
  destruct (negb _ && negb (String.eqb toolName EmptyString)); [left; reflexivity|].
  destruct (negb _ && negb _); [left; reflexivity|].
  destruct (negb _ || _); [left; reflexivity|].
  right. destruct (negb (isZero _)); cbn [Delete Get].
  - rewrite member_remove_same by (apply NoDup_remove, Hnd).
    rewrite (member_remove_other "-B" "-A") by discriminate.
    rewrite member_remove_same by exact Hnd. cbn [Exists orb]. apply andb_false_r.
  - rewrite member_remove_same by exact Hnd. reflexivity.
Qed.

(** X23.  [sanitizeCodexGrepArgs] on a document whose member names
    are distinct: what it returns it returns again when applied once
    more, and a document it has changed has no -C left beside -A or
    -B.  A tool name other than the empty one, grep and
    ripgrep_raw_search gets its arguments back unchanged, and so does
    the empty tool name when there is no member pattern. *)
Theorem grep_sanitiser_settles (toolName : string) (args : Result) :
  (forall m, args = Some (JObject m) -> List.NoDup (keys m)) ->
  let out := sanitizeCodexGrepArgs toolName args in
  sanitizeCodexGrepArgs toolName out = out
  /\ (out <> args ->
      Exists (Get out "-C") && (Exists (Get out "-A") || Exists (Get out "-B")) = false)
  /\ (toolName <> EmptyString -> toolName <> "grep"%string ->
      toolName <> "ripgrep_raw_search"%string -> out = args)
  /\ (toolName = EmptyString -> Exists (Get args "pattern") = false -> out = args).
Proof.
  intros Hnd out.
  assert (Hcases : out = args
            \/ Exists (Get out "-C") && (Exists (Get out "-A") || Exists (Get out "-B"))
               = false).
  { destruct args as [doc|]; [|left; reflexivity].
    destruct doc as [| | |n|s|l|m];
      try (left; apply no_conflict_unchanged; reflexivity).
    apply changed_has_no_conflict, Hnd. reflexivity. }
  split; [|split; [|split]].
  - destruct Hcases as [E|E]; [|apply no_conflict_unchanged, E].
    rewrite E. exact E.
  - intros Hne. destruct Hcases as [E|E]; [contradiction|exact E].
  - intros H1 H2 H3. subst out. unfold sanitizeCodexGrepArgs.
    destruct args as [doc|]; [|reflexivity]. cbv zeta.
    apply String.eqb_neq in H1, H2, H3. rewrite H1, H2, H3. reflexivity.
  - intros -> Hp. subst out. unfold sanitizeCodexGrepArgs.
    destruct args as [doc|]; [|reflexivity]. cbv zeta. rewrite Hp. reflexivity.
Qed.

End grep.

Lemma grep_sanitiser_settles_witness :
  List.NoDup (keys [("pattern"%string, JString "x"); ("-C"%string, samples.jnum 3);
                    ("-A"%string, samples.jnum 2); ("-B"%string, samples.jnum 0)])
  /\ sanitizeCodexGrepArgs (T := samples.IntegerText) "grep"
       (sanitizeCodexGrepArgs (T := samples.IntegerText) "grep" (Some samples.grep_args_C3))
     = sanitizeCodexGrepArgs (T := samples.IntegerText) "grep" (Some samples.grep_args_C3).
Proof.
  assert (Hnd : List.NoDup
                  (keys [("pattern"%string, JString "x"); ("-C"%string, samples.jnum 3);
                         ("-A"%string, samples.jnum 2); ("-B"%string, samples.jnum 0)])).
  { repeat constructor; cbn; intuition discriminate. }
  split; [exact Hnd|].
  apply (grep_sanitiser_settles (T := samples.IntegerText) "grep"
           (Some samples.grep_args_C3)).
  intros m [= <-]. exact Hnd.
Defined.

End codex_more.

(** ** Kiro: bracket matching and thinking blocks *)

Module bracket_facts.
Import gostr strings kiro gostr_facts strings_facts.

Lemma at_drop n : forall s k, at_ (drop n s) k = at_ s (n + k).
Proof.
  induction n as [|n IH]; intros s k; [reflexivity|].
  destruct s as [|c t]; [destruct k; reflexivity|].
  rewrite drop_cons. cbn [Nat.add]. rewrite at_cons_S. apply IH.
Qed.

Lemma bracket_loop_result rest : forall i o c d ins esc,
  bracket_loop rest i o c d ins esc = -1
  \/ exists k, (k < String.length rest)%nat
       /\ bracket_loop rest i o c d ins esc = Z.of_nat (i + k)
       /\ at_ rest k = c.
Proof.
  induction rest as [|ch rest IH]; intros i o c d ins esc; [left; reflexivity|].
  assert (Hnext : forall d' ins' esc',
            bracket_loop rest (S i) o c d' ins' esc' = -1
            \/ exists k, (k < String.length (String ch rest))%nat
                 /\ bracket_loop rest (S i) o c d' ins' esc' = Z.of_nat (i + k)
                 /\ at_ (String ch rest) k = c).
  { intros d' ins' esc'. destruct (IH (S i) o c d' ins' esc') as [H|(k & Hk & Hr & Ha)];
      [left; exact H|right].
    exists (S k). cbn [String.length]. split; [lia|]. split.
    - rewrite Hr. f_equal. lia.
    - rewrite at_cons_S. exact Ha. }
  cbn [bracket_loop]. cbv zeta.
  destruct esc; [apply Hnext|].
  destruct ((byte_val ch =? 0x5C) && ins); [apply Hnext|].
  destruct (byte_val ch =? 0x22); [apply Hnext|].
  destruct (negb ins); [|apply Hnext].
  destruct (byte_val ch =? o); [apply Hnext|].
  destruct (byte_val ch =? c) eqn:Ec; [|apply Hnext].
  destruct (wrap64 (d - 1) =? 0); [|apply Hnext].
  right. exists 0%nat. cbn [String.length]. split; [lia|]. split.
  - f_equal. lia.
  - apply Z.eqb_eq in Ec. exact Ec.
Qed.

(** X24.  [findMatchingBracket] returns -1 or a position behind
    [startPos] and inside the text, and the byte there is the bracket
    that closes the kind of bracket at [startPos]: a brace for a brace,
    a square bracket for a square bracket. *)
Theorem findMatchingBracket_returns_a_closing_bracket (text : string) (startPos : nat) :
  findMatchingBracket text startPos = -1
  \/ exists j, findMatchingBracket text startPos = Z.of_nat j
       /\ (startPos < j < String.length text)%nat
       /\ ((at_ text startPos = 0x7B /\ at_ text j = 0x7D)
           \/ (at_ text startPos = 0x5B /\ at_ text j = 0x5D)).
Proof.
  unfold findMatchingBracket.
  destruct (len text <=? Z.of_nat startPos); [left; reflexivity|]. cbv zeta.
  destruct (at_ text startPos =? 0x7B) eqn:E1;
    [|destruct (at_ text startPos =? 0x5B) eqn:E2; [|left; reflexivity]].
  - destruct (bracket_loop_result (drop (S startPos) text) (S startPos)
                (at_ text startPos) 0x7D 1 false false) as [H|(k & Hk & Hr & Ha)];
      [left; exact H|right].
    exists (S startPos + k)%nat. split; [exact Hr|].
    rewrite drop_length in Hk. split; [lia|]. left.
    apply Z.eqb_eq in E1. split; [exact E1|]. rewrite <- at_drop. exact Ha.
  - destruct (bracket_loop_result (drop (S startPos) text) (S startPos)
                (at_ text startPos) 0x5D 1 false false) as [H|(k & Hk & Hr & Ha)];
      [left; exact H|right].
    exists (S startPos + k)%nat. split; [exact Hr|].
    rewrite drop_length in Hk. split; [lia|]. right.
    apply Z.eqb_eq in E2. split; [exact E2|]. rewrite <- at_drop. exact Ha.
Qed.

Section pair.
Variables o c : ascii.
Hypothesis Ho : (byte_val o =? 0x22) = false.
Hypothesis Hc : (byte_val c =? 0x22) = false.
Hypothesis Hco : (byte_val c =? byte_val o) = false.

Lemma plain_loop p : forall rest i d,
  all_bytes (plain o c) p = true ->
  bracket_loop (p ++ rest) i (byte_val o) (byte_val c) d false false
  = bracket_loop rest (i + String.length p) (byte_val o) (byte_val c) d false false.
Proof.
  induction p as [|ch p IH]; intros rest i d H.
  - rewrite append_nil. cbn [String.length]. rewrite Nat.add_0_r. reflexivity.
  - cbn [all_bytes] in H. apply andb_true_iff in H as [Hch Hp].
    unfold plain in Hch. apply andb_true_iff in Hch as [Hch H3].
    apply andb_true_iff in Hch as [H1 H2].
    apply negb_true_iff in H1, H2, H3.
    rewrite append_cons. cbn [bracket_loop]. cbv zeta.
    rewrite andb_false_r, H3, H1, H2. cbn [negb].
    rewrite IH by exact Hp. cbn [String.length]. f_equal. lia.
Qed.

Lemma lits_loop s : forall rest i d,
  forallb lit_ok s = true ->
  bracket_loop (render_lits s ++ rest) i (byte_val o) (byte_val c) d true false
  = bracket_loop rest (i + String.length (render_lits s)) (byte_val o) (byte_val c)
      d true false.
Proof.
  induction s as [|[ch|ch] s IH]; intros rest i d H.
  - rewrite append_nil. cbn [render_lits String.length]. rewrite Nat.add_0_r. reflexivity.
  - cbn [forallb lit_ok] in H. apply andb_true_iff in H as [Hch Hs].
    apply andb_true_iff in Hch as [H1 H2]. apply negb_true_iff in H1, H2.
    cbn [render_lits]. rewrite append_cons. cbn [bracket_loop]. cbv zeta.
    rewrite H2, H1. cbn [andb negb].
    rewrite IH by exact Hs. cbn [String.length]. f_equal. lia.
  - cbn [forallb lit_ok andb] in H.
    cbn [render_lits]. rewrite !append_cons. cbn [bracket_loop]. cbv zeta.
    change (byte_val "\"%char =? 0x5C) with true. cbn [andb].
    rewrite IH by exact H. cbn [String.length]. f_equal. lia.
Qed.

Lemma body_loop b : forall rest i d,
  well_formed o c b = true -> 1 <= d -> d + Z.of_nat (nesting b) < 2 ^ 63 ->
  bracket_loop (render o c b ++ rest) i (byte_val o) (byte_val c) d false false
  = bracket_loop rest (i + String.length (render o c b)) (byte_val o) (byte_val c)
      d false false.
Proof.
  induction b as [|p r IHr|s r IHr|inner IHi r IHr]; intros rest i d Hwf Hd Hn;
    cbn [render well_formed nesting] in *.
  - rewrite append_nil. cbn [String.length]. rewrite Nat.add_0_r. reflexivity.
  - apply andb_true_iff in Hwf as [Hp Hr].
    rewrite app_assoc, plain_loop by exact Hp. rewrite IHr by assumption.
    rewrite length_app. f_equal. lia.
  - apply andb_true_iff in Hwf as [Hs Hr].
    rewrite append_cons. cbn [bracket_loop]. cbv zeta.
    change (byte_val quote =? 0x5C) with false. change (byte_val quote =? 0x22) with true.
    cbn [andb negb]. rewrite app_assoc, lits_loop by exact Hs.
    rewrite append_cons. cbn [bracket_loop]. cbv zeta.
    change (byte_val quote =? 0x5C) with false. change (byte_val quote =? 0x22) with true.
    cbn [andb negb]. rewrite IHr by assumption.
    cbn [String.length]. rewrite length_app. cbn [String.length]. f_equal. lia.
  - apply andb_true_iff in Hwf as [Hi Hr].
    rewrite append_cons. cbn [bracket_loop]. cbv zeta.
    rewrite andb_false_r, Ho, Z.eqb_refl. cbn [negb].
    rewrite executor_facts.wrap64_id by lia.
    rewrite app_assoc, IHi by (try assumption; lia).
    rewrite append_cons. cbn [bracket_loop]. cbv zeta.
    rewrite andb_false_r, Hc, Hco, Z.eqb_refl. cbn [negb].
    replace (d + 1 - 1) with d by lia. rewrite executor_facts.wrap64_id by lia.
    destruct (d =? 0) eqn:Ed; [apply Z.eqb_eq in Ed; lia|].
    rewrite IHr by (try assumption; lia).
    cbn [String.length]. rewrite length_app. cbn [String.length]. f_equal. lia.
Qed.

Lemma matching_found pre b post :
  well_formed o c b = true -> Z.of_nat (nesting b) < 2 ^ 63 - 1 ->
  bracket_loop (render o c b ++ String c post) (S (String.length pre))
    (byte_val o) (byte_val c) 1 false false
  = Z.of_nat (String.length pre + 1 + String.length (render o c b)).
Proof.
  intros Hwf Hn. rewrite body_loop by (try assumption; lia).
  cbn [bracket_loop]. cbv zeta. rewrite andb_false_r, Hc, Hco, Z.eqb_refl. cbn [negb].
  change (wrap64 (1 - 1) =? 0) with true. cbv iota. f_equal. lia.
Qed.

End pair.

Lemma nesting_le_length o c b : (nesting b <= String.length (render o c b))%nat.
Proof.
  induction b as [|p r IHr|s r IHr|inner IHi r IHr]; cbn [render nesting String.length].
  - lia.
  - rewrite length_app. lia.
  - rewrite length_app. cbn [String.length]. lia.
  - rewrite length_app. cbn [String.length]. lia.
Qed.

Lemma at_app_here pre ch r : at_ (pre ++ String ch r)%string (String.length pre) = byte_val ch.
Proof.
  induction pre as [|x pre IH]; [reflexivity|].
  rewrite append_cons. cbn [String.length]. rewrite at_cons_S. exact IH.
Qed.

Lemma drop_app_here pre ch r : drop (S (String.length pre)) (pre ++ String ch r)%string = r.
Proof.
  replace (S (String.length pre)) with (String.length pre + 1)%nat by lia.
  rewrite <- drop_drop, drop_app. reflexivity.
Qed.

(** X25.  On a bracketed text whose inside is well formed, that is
    made of plain bytes, of string literals (which may hold brackets,
    and quotes behind a backslash) and of nested bracketed texts,
    [findMatchingBracket] returns the position of the closing bracket
    itself, whatever stands before and behind.  The length of a Go
    string is below 2^63. *)
Theorem findMatchingBracket_finds_the_match
    (o c : ascii) (pre post : string) (b : body) :
  (o = "{"%char /\ c = "}"%char) \/ (o = "["%char /\ c = "]"%char) ->
  well_formed o c b = true ->
  len (pre ++ String o (render o c b ++ String c post)) < 2 ^ 63 ->
  findMatchingBracket (pre ++ String o (render o c b ++ String c post))
    (String.length pre)
  = Z.of_nat (String.length pre + 1 + String.length (render o c b)).
Proof.
  intros Hpair Hwf Hlen. unfold findMatchingBracket.
  assert (Hn : Z.of_nat (nesting b) < 2 ^ 63 - 1).
  { pose proof (nesting_le_length o c b) as Hle. unfold len in Hlen.
    rewrite length_app in Hlen. cbn [String.length] in Hlen.
    rewrite length_app in Hlen. cbn [String.length] in Hlen. lia. }
  destruct (len _ <=? Z.of_nat (String.length pre)) eqn:El.
  { apply Z.leb_le in El. unfold len in El. rewrite length_app in El.
    cbn [String.length] in El. lia. }
  cbv zeta. rewrite at_app_here, drop_app_here.
  destruct Hpair as [[-> ->]|[-> ->]].
  - change (byte_val "{" =? 0x7B) with true. cbv iota.
    change 0x7D with (byte_val "}"). apply matching_found; try assumption; reflexivity.
  - change (byte_val "[" =? 0x7B) with false. change (byte_val "[" =? 0x5B) with true.
    cbv iota.
    change 0x5D with (byte_val "]"). apply matching_found; try assumption; reflexivity.
Qed.

Lemma findMatchingBracket_finds_the_match_witness :
  well_formed "{" "}" samples.called_args = true
  /\ findMatchingBracket
       ("[Called f with args: "
        ++ String "{" (render "{" "}" samples.called_args ++ String "}" "] done"))
       21
     = 21 + 1 + len (render "{" "}" samples.called_args).
Proof.
  split; [reflexivity|].
  change (21 + 1 + len (render "{" "}" samples.called_args))
    with (Z.of_nat (String.length "[Called f with args: " + 1
                    + String.length (render "{" "}" samples.called_args))).
  apply (findMatchingBracket_finds_the_match "{" "}" "[Called f with args: " "] done"
           samples.called_args).
  - left. split; reflexivity.
  - reflexivity.
  - reflexivity.
Defined.

End bracket_facts.

Module thinking_facts.
Import gostr strings kiro gostr_facts strings_facts.

Lemma drop_lt_cons j : forall a, (j < String.length a)%nat -> exists x t, drop j a = String x t.
Proof.
  induction j as [|j IH]; intros [|x a] H; cbn [String.length] in H; try lia.
  - exists x, a. reflexivity.
  - rewrite drop_cons. apply IH. lia.
Qed.

(** Where the first byte of a tag does not occur, the tag does not
    begin. *)
Lemma Index_behind a ch p r :
  Contains a (String ch EmptyString) = false ->
  Index (a ++ String ch p ++ r)%string (String ch p) = Some (String.length a).
Proof.
  intros H. apply Contains_false in H. apply Index_app. intros j Hj.
  destruct (drop_lt_cons j a Hj) as (x & t & E).
  pose proof (proj1 (Index_None a (String ch EmptyString)) H j ltac:(lia)) as Hp.
  rewrite E in *. rewrite append_cons. cbn [HasPrefix] in *.
  destruct (Ascii.eqb ch x); [|reflexivity]. destruct t; discriminate Hp.
Qed.

Lemma Index_tag_absent a ch p :
  Contains a (String ch EmptyString) = false -> Index a (String ch p) = None.
Proof.
  intros H. apply Contains_false. apply (Contains_longer a (String ch p) (String ch EmptyString));
    [exact H|]. cbn [HasPrefix]. rewrite Ascii.eqb_refl. destruct p; reflexivity.
Qed.

Lemma drop_app2 a b x :
  drop (String.length a + String.length b) (a ++ b ++ x)%string = x.
Proof. rewrite <- drop_drop, drop_app, drop_app. reflexivity. Qed.

Lemma is_empty_app_tag a ch p r : is_empty (a ++ String ch p ++ r)%string = false.
Proof. destruct a; reflexivity. Qed.

Lemma loop_one_block fuel before thought rest clean thinking :
  tag_free before -> tag_free thought ->
  extract_loop (S fuel)
    (before ++ kiroThinkingStartTag ++ thought ++ kiroThinkingEndTag ++ rest)
    clean thinking
  = extract_loop fuel rest (clean ++ before) (thinking ++ thought).
Proof.
  intros Hb Ht. cbn [extract_loop].
  unfold kiroThinkingStartTag at 1. rewrite is_empty_app_tag.
  unfold kiroThinkingStartTag at 1 2. rewrite (Index_behind before "<" "thinking>") by exact Hb.
  cbv zeta. fold kiroThinkingStartTag.
  rewrite drop_app2.
  unfold kiroThinkingEndTag at 1 2. rewrite (Index_behind thought "<" "/thinking>") by exact Ht.
  fold kiroThinkingEndTag. rewrite drop_app2, !take_app.
  destruct before as [|x before]; [|reflexivity].
  cbn [String.length Nat.ltb Nat.leb]. rewrite app_empty_r. reflexivity.
Qed.

Lemma loop_blocks blocks : forall fuel rest clean thinking,
  List.Forall (fun b => tag_free (fst b) /\ tag_free (snd b)) blocks ->
  extract_loop (length blocks + fuel) (with_blocks blocks rest) clean thinking
  = extract_loop fuel rest (clean ++ concat_strings (map fst blocks))
      (thinking ++ concat_strings (map snd blocks)).
Proof.
  induction blocks as [|[before thought] blocks IH]; intros fuel rest clean thinking H.
  - cbn [length with_blocks map concat_strings Nat.add]. rewrite !app_empty_r. reflexivity.
  - inversion H as [|? ? [Hb Ht] H']; subst.
    cbn [length with_blocks map concat_strings Nat.add fst snd] in *.
    rewrite loop_one_block by assumption. rewrite IH by exact H'.
    rewrite !app_assoc. reflexivity.
Qed.

Lemma length_with_blocks blocks rest :
  (length blocks + String.length rest <= String.length (with_blocks blocks rest))%nat.
Proof.
  induction blocks as [|[before thought] blocks IH]; cbn [length with_blocks]; [lia|].
  unfold kiroThinkingStartTag, kiroThinkingEndTag. rewrite !length_app.
  cbn [String.length]. lia.
Qed.

Lemma Contains_first_block before rest :
  tag_free before ->
  Contains (before ++ kiroThinkingStartTag ++ rest) kiroThinkingStartTag = true.
Proof.
  intros Hb. unfold Contains, kiroThinkingStartTag.
  rewrite (Index_behind before "<" "thinking>") by exact Hb. reflexivity.
Qed.

Lemma loop_text fuel post clean thinking :
  tag_free post ->
  extract_loop (S fuel) post clean thinking = ((clean ++ post)%string, thinking).
Proof.
  intros Hp. cbn [extract_loop]. destruct (is_empty post) eqn:E.
  - destruct post; [|discriminate]. rewrite app_empty_r. reflexivity.
  - unfold kiroThinkingStartTag. rewrite (Index_tag_absent post "<" "thinking>") by exact Hp.
    reflexivity.
Qed.

Lemma loop_unclosed fuel post open clean thinking :
  tag_free post -> Contains open kiroThinkingEndTag = false ->
  extract_loop (S fuel) (post ++ kiroThinkingStartTag ++ open) clean thinking
  = ((clean ++ post)%string, (thinking ++ open)%string).
Proof.
  intros Hp Ho. cbn [extract_loop].
  unfold kiroThinkingStartTag at 1. rewrite is_empty_app_tag.
  unfold kiroThinkingStartTag at 1 2. rewrite (Index_behind post "<" "thinking>") by exact Hp.
  cbv zeta. fold kiroThinkingStartTag. rewrite drop_app2.
  apply Contains_false in Ho. rewrite Ho, take_app.
  destruct post as [|x post]; [|reflexivity].
  cbn [String.length Nat.ltb Nat.leb]. rewrite app_empty_r. reflexivity.
Qed.

(** The rounds of the loop never outnumber the fuel: a round that goes
    on has shortened [remaining]. *)
Lemma extract_loop_fuel fuel1 : forall fuel2 remaining clean thinking,
  (String.length remaining < fuel1)%nat -> (String.length remaining < fuel2)%nat ->
  extract_loop fuel1 remaining clean thinking
  = extract_loop fuel2 remaining clean thinking.
Proof.
  induction fuel1 as [|fuel1 IH]; intros [|fuel2] remaining clean thinking H1 H2; try lia.
  cbn [extract_loop]. destruct (is_empty remaining); [reflexivity|].
  destruct (Index remaining kiroThinkingStartTag) as [startIdx|] eqn:Es; [|reflexivity].
  cbv zeta. apply Index_bound in Es.
  destruct (Index (drop _ remaining) kiroThinkingEndTag) as [endIdx|] eqn:Ee; [|reflexivity].
  apply Index_bound in Ee. rewrite drop_length in Ee.
  change (String.length kiroThinkingStartTag) with 10%nat in *.
  change (String.length kiroThinkingEndTag) with 11%nat in *.
  apply IH; rewrite !drop_length; lia.
Qed.

(** X26.  [extractThinkingFromContent] on a text made of thinking
    blocks and the texts between them, none of which holds the byte
    that begins a tag: the texts outside the blocks are joined into the
    clean content and the insides of the blocks into the thinking
    content, each in order, and both are trimmed.  A last block that is
    never closed gives everything behind its tag to the thinking
    content.  A text without any block comes back as it is, not
    trimmed. *)
Theorem extractThinkingFromContent_splits_the_blocks
    (blocks : list (string * string)) (post : string) :
  List.Forall (fun b => tag_free (fst b) /\ tag_free (snd b)) blocks ->
  tag_free post ->
  (blocks <> [] ->
   extractThinkingFromContent (with_blocks blocks post)
   = (TrimSpace (concat_strings (map fst blocks) ++ post),
      TrimSpace (concat_strings (map snd blocks))))
  /\ (forall open, Contains open kiroThinkingEndTag = false ->
      extractThinkingFromContent
        (with_blocks blocks (post ++ kiroThinkingStartTag ++ open))
      = (TrimSpace (concat_strings (map fst blocks) ++ post),
         TrimSpace (concat_strings (map snd blocks) ++ open)))
  /\ extractThinkingFromContent post = (post, EmptyString).
Proof.
  intros Hb Hp.
  assert (Hfuel : forall rest,
            S (String.length (with_blocks blocks rest))
            = (length blocks + S (String.length (with_blocks blocks rest) - length blocks))%nat).
  { intros rest. pose proof (length_with_blocks blocks rest). lia. }
  assert (Hhas : forall rest,
            (blocks <> [] \/ exists open, rest = (post ++ kiroThinkingStartTag ++ open)%string) ->
            Contains (with_blocks blocks rest) kiroThinkingStartTag = true).
  { intros rest [Hne|[open ->]].
    - destruct blocks as [|[before thought] blocks']; [contradiction|].
      inversion Hb as [|? ? [Hbe _] _]; subst. cbn [with_blocks fst] in *.
      apply Contains_first_block, Hbe.
    - destruct blocks as [|[before thought] blocks'].
      + apply Contains_first_block, Hp.
      + inversion Hb as [|? ? [Hbe _] _]; subst. cbn [with_blocks fst] in *.
        apply Contains_first_block, Hbe. }
  split; [|split].
  - intros Hne. unfold extractThinkingFromContent.
    rewrite Hhas by (left; exact Hne). cbn [negb].
    rewrite Hfuel, loop_blocks by exact Hb. rewrite loop_text by exact Hp.
    rewrite !append_nil. reflexivity.
  - intros open Ho. unfold extractThinkingFromContent.
    rewrite Hhas by (right; exists open; reflexivity). cbn [negb].
    rewrite Hfuel, loop_blocks by exact Hb. rewrite loop_unclosed by assumption.
    rewrite !append_nil. reflexivity.
  - unfold extractThinkingFromContent.
    assert (E : Contains post kiroThinkingStartTag = false).
    { apply Contains_false. apply (Index_tag_absent post "<" "thinking>"), Hp. }
    rewrite E. reflexivity.
Qed.

Lemma extractThinkingFromContent_splits_the_blocks_witness :
  tag_free "Hello " /\ tag_free " plan " /\ tag_free " world"
  /\ extractThinkingFromContent "Hello <thinking> plan </thinking> world"
     = ("Hello  world"%string, "plan"%string).
Proof.
  assert (H1 : tag_free "Hello ") by reflexivity.
  assert (H2 : tag_free " plan ") by reflexivity.
  assert (H3 : tag_free " world") by reflexivity.
  split; [exact H1|]. split; [exact H2|]. split; [exact H3|].
  assert (Hb : List.Forall (fun b => tag_free (fst b) /\ tag_free (snd b))
                 [("Hello "%string, " plan "%string)]).
  { constructor; [split; assumption|constructor]. }
  apply (proj1 (extractThinkingFromContent_splits_the_blocks
                  [("Hello "%string, " plan "%string)] " world" Hb H3)).
  discriminate.
Defined.

End thinking_facts.
